(** * realzodiac-vanilla: sky positions, zodiac lookup and the star-map renderer

    A shallow embedding of the repository's astronomy and rendering modules.

    JavaScript numbers are read as real numbers ([R]) wherever the code does
    trigonometry, and as rationals ([Q]) in the zodiac table lookup, whose
    only operations are comparisons against decimal literals.  [Math.sin],
    [Math.cos], [Math.tan], [Math.asin] and [Math.PI] are the functions and
    the constant of the real-number library; rounding and the infinities are
    not modelled.  [NaN] is modelled where the code guards against it: in
    [getSolarAltAz] the arcsine is [Math_asin], which has no value outside
    [[-1, 1]], its argument carries the rounding error of the floating-point
    evaluation as a parameter, and the conversion of the observer's position
    to radians is [toRadFinite], which has no value when the product with
    [Math.PI] overflows.

    Drawing code is a state-passing function on the canvas context; the
    context records, in order, every call and property assignment made on
    it.  [CanvasState] gives the recorded operations their meaning: the
    drawing state they build up and what each painting call puts on the
    canvas with it.

    The repository holds several revisions of the same two modules:
    - [AstronomyBasic]  : src/src/astronomy.js (zodiac and tropical lookup);
    - [AstronomyMean]   : the astronomy.js at the end of unnamed/part_002
                          (mean-element Sun and Moon, solar altitude);
    - [AstronomyEngine] : unnamed/part_003 (Sun and Moon through the
                          astronomy-engine library, solar altitude);
    - [RenderingBasic]  : src/src/rendering.js;
    - [RenderingFull]   : unnamed/part_000. *)

From Stdlib Require Import Reals ZArith QArith List String.
From Stdlib Require Import Psatz Qreals.
Import ListNotations.

(** ** JavaScript arithmetic on reals *)

Module JsMath.
Local Open Scope R_scope.

(** [d * Math.PI / 180] and [r * 180 / Math.PI]. *)
Definition toRad (d : R) : R := d * PI / 180.
Definition toDeg (r : R) : R := r * 180 / PI.

(** Rounding toward zero, the quotient behind the [%] operator. *)
Definition Rtrunc (r : R) : Z :=
  if Rle_dec 0 r then Int_part r else (- Int_part (- r))%Z.

(** [a % b]: the remainder carries the sign of the dividend. *)
Definition js_rem (a b : R) : R := a - b * IZR (Rtrunc (a / b)).

(** [((d % 360) + 360) % 360]. *)
Definition mod360 (d : R) : R := js_rem (js_rem d 360 + 360) 360.

(** [Math.atan2(y, x)], by quadrant. *)
Definition atan2 (b a : R) : R :=
  if Rlt_dec 0 a then atan (b / a)
  else if Rlt_dec a 0 then
    (if Rle_dec 0 b then atan (b / a) + PI else atan (b / a) - PI)
  else if Rlt_dec 0 b then PI / 2
  else if Rlt_dec b 0 then - (PI / 2)
  else 0.

(** [Math.PI] is the double 884279719003555 / 2^48, and a product whose
    magnitude reaches 2^1024 - 2^970 rounds to an infinity. *)
Definition Math_PI_double : R := 884279719003555 / 281474976710656.
Definition OVERFLOW : R := IZR (2 ^ 1024 - 2 ^ 970).

(** [toRad(d)] where the size of [d] matters: when [d * Math.PI] overflows,
    it and its quotient by 180 are an infinity, whose sine and cosine are
    [NaN].  [None] is that case. *)
Definition toRadFinite (d : R) : option R :=
  if Rlt_dec (Rabs (d * Math_PI_double)) OVERFLOW then Some (toRad d)
  else None.

(** [Math.asin(x)] with its domain: outside [[-1, 1]] the result is [NaN],
    here [None]. *)
Definition Math_asin (x : R) : option R :=
  if Rle_dec (-1) x then (if Rle_dec x 1 then Some (asin x) else None)
  else None.

(** [a || b] on numbers: [0] is the falsy number. *)
Definition js_or (a b : R) : R := if Req_dec_T a 0 then b else a.

End JsMath.

(** ** The 2D canvas context *)

(** The projected point [{ x, y }]; [null] is [None]. *)
Module Point.
Record t := mk { x : R; y : R }.
End Point.

Module Canvas.
Local Open Scope R_scope.

(** A CSS string.  A template literal that interpolates a number keeps the
    number apart from the text around it. *)
Inductive Css : Type :=
| Lit (s : string)
| Template (before : string) (n : R) (after : string).

(** A gradient object with the colour stops added to it so far. *)
Inductive Gradient : Type :=
| Linear (x0 y0 x1 y1 : R) (stops : list (R * string))
| Radial (x0 y0 r0 x1 y1 r1 : R) (stops : list (R * string)).

Definition createLinearGradient (x0 y0 x1 y1 : R) : Gradient :=
  Linear x0 y0 x1 y1 [].

Definition createRadialGradient (x0 y0 r0 x1 y1 r1 : R) : Gradient :=
  Radial x0 y0 r0 x1 y1 r1 [].

Definition addColorStop (offset : R) (color : string) (g : Gradient)
  : Gradient :=
  match g with
  | Linear x0 y0 x1 y1 stops => Linear x0 y0 x1 y1 (stops ++ [(offset, color)])
  | Radial x0 y0 r0 x1 y1 r1 stops =>
      Radial x0 y0 r0 x1 y1 r1 (stops ++ [(offset, color)])
  end.

Inductive Style : Type :=
| Color (c : Css)
| Paint (g : Gradient).

(** The calls and property assignments the renderer makes on the context. *)
Inductive Op : Type :=
| ClearRect (x y w h : R)
| Save
| Restore
| Translate (x y : R)
| BeginPath
| ClosePath
| MoveTo (x y : R)
| LineTo (x y : R)
| QuadraticCurveTo (cpx cpy x y : R)
| Arc (x y radius startAngle endAngle : R) (counterclockwise : bool)
| Ellipse (x y radiusX radiusY rotation startAngle endAngle : R)
          (counterclockwise : bool)
| Fill
| Stroke
| Clip
| FillText (text : string) (x y : R)
| SetFillStyle (s : Style)
| SetStrokeStyle (s : Style)
| SetLineWidth (w : R)
| SetShadowBlur (b : R)
| SetShadowColor (c : Css)
| SetFont (f : string)
| SetTextAlign (a : string)
| SetFilter (f : Css)
| SetGlobalAlpha (a : R).

(** The context: the size of its canvas ([ctx.canvas.width],
    [ctx.canvas.height]) and every operation issued on it so far, oldest
    first. *)
Record Ctx := mkCtx { width : R; height : R; calls : list Op }.

(** Code that draws: it reads the context and leaves it extended. *)
Definition Draw (A : Type) : Type := Ctx -> A * Ctx.

Definition ret {A : Type} (a : A) : Draw A := fun ctx => (a, ctx).

Definition bind {A B : Type} (m : Draw A) (k : A -> Draw B) : Draw B :=
  fun ctx => let '(a, ctx') := m ctx in k a ctx'.

Definition emit (op : Op) : Draw unit :=
  fun ctx => (tt, mkCtx (width ctx) (height ctx) (calls ctx ++ [op])).

Definition canvasWidth : Draw R := fun ctx => (width ctx, ctx).
Definition canvasHeight : Draw R := fun ctx => (height ctx, ctx).

Definition skip : Draw unit := ret tt.

(** [list.forEach(f)] and [for (const a of list) f(a)]. *)
Fixpoint forEach {A : Type} (l : list A) (f : A -> Draw unit) : Draw unit :=
  match l with
  | [] => skip
  | a :: rest => bind (f a) (fun _ => forEach rest f)
  end.

(** The operations a piece of drawing code issues on a canvas of a given
    size, starting from a context with no history. *)
Definition emitted (m : Draw unit) (w h : R) : list Op :=
  calls (snd (m (mkCtx w h []))).

(** The operations one call adds to the history of the context it is given. *)
Definition newOps (m : Draw unit) (ctx : Ctx) : list Op :=
  skipn (List.length (calls ctx)) (calls (snd (m ctx))).

(** Drawing code that only appends: it keeps the canvas size and the
    history, and what it adds (and returns) is what it would add to an empty
    history on a canvas of the same size. *)
Definition appends {A : Type} (m : Draw A) : Prop :=
  forall (w h : R) (l : list Op),
    m (mkCtx w h l)
    = (fst (m (mkCtx w h [])),
       mkCtx w h (l ++ calls (snd (m (mkCtx w h []))))).

(** Drawing code that appends and issues no operation of a given kind. *)
Definition issuesNo {A : Type} (kind : Op -> bool) (m : Draw A) : Prop :=
  appends m
  /\ forall w h : R, forallb (fun op => negb (kind op))
                             (calls (snd (m (mkCtx w h [])))) = true.

(** Every operation of the first kind is issued before every operation of
    the second kind. *)
Definition allBefore (first second : Op -> bool) (trace : list Op) : Prop :=
  forall (i j : nat) (a b : Op),
    nth_error trace i = Some a -> nth_error trace j = Some b ->
    first a = true -> second b = true -> (i < j)%nat.

(** The depth of the context's state stack after a trace, starting from
    [depth]; [None] when the trace restores a state that was never saved, or
    changes the transform, the clip, the filter or the global alpha outside
    of every [save] ... [restore] pair, where the change would outlive the
    frame. *)
Fixpoint scoped (depth : nat) (trace : list Op) : option nat :=
  match trace with
  | [] => Some depth
  | Save :: rest => scoped (S depth) rest
  | Restore :: rest =>
      match depth with
      | O => None
      | S d => scoped d rest
      end
  | (Clip | Translate _ _ | SetFilter _ | SetGlobalAlpha _) :: rest =>
      match depth with
      | O => None
      | S _ => scoped depth rest
      end
  | _ :: rest => scoped depth rest
  end.

(** Drawing code that appends and leaves the state stack as deep as it found
    it, whatever that depth. *)
Definition wellScoped {A : Type} (m : Draw A) : Prop :=
  appends m
  /\ forall (w h : R) (d : nat),
       scoped d (calls (snd (m (mkCtx w h [])))) = Some d.

(** A point strictly inside the drawing area of width [w] and height
    [h]. *)
Definition inside (w h x y : R) : bool :=
  (if Rlt_dec 0 x then true else false)
  && (if Rlt_dec x w then true else false)
  && (if Rlt_dec 0 y then true else false)
  && (if Rlt_dec y h then true else false).

(** A path vertex, and the origin of a translated drawing, that is not inside
    the drawing area. *)
Definition strayVertex (w h : R) (op : Op) : bool :=
  match op with
  | MoveTo x y | LineTo x y => negb (inside w h x y)
  | _ => false
  end.

Definition strayOrigin (w h : R) (op : Op) : bool :=
  match op with
  | Translate x y => negb (inside w h x y)
  | _ => false
  end.

End Canvas.

(** ** What the context makes of the operations *)

Module CanvasState.
Import Canvas.
Local Open Scope string_scope.
Local Open Scope R_scope.
Local Open Scope list_scope.

(** The transform, as the [translate] calls made on top of the transform
    the page gave the context; a path, as the segments added since the last
    [beginPath], each with the transform in force when it was added. *)
Definition Transform : Type := list (R * R).
Definition Path : Type := list (Transform * Op).

(** The drawing state: what [save] pushes and [restore] pops, restricted to
    the properties the renderers assign.  The clip is the list of the paths
    clipped to, on top of the clip the page gave the context. *)
Record Drawing := mkDrawing {
  transform : Transform;
  clip : list Path;
  filter : Css;
  globalAlpha : R;
  fillStyle : Style;
  strokeStyle : Style;
  lineWidth : R;
  shadowBlur : R;
  shadowColor : Css;
  font : string;
  textAlign : string
}.

(** The context: its drawing state, the current path, which [save] does not
    cover, and the stack of saved drawing states, latest first. *)
Record State := mkState {
  drawing : Drawing;
  path : Path;
  saved : list Drawing
}.

Definition setTransform (d : Drawing) (v : Transform) : Drawing :=
  mkDrawing v (clip d) (filter d) (globalAlpha d) (fillStyle d)
            (strokeStyle d) (lineWidth d) (shadowBlur d) (shadowColor d)
            (font d) (textAlign d).

Definition setClip (d : Drawing) (v : list Path) : Drawing :=
  mkDrawing (transform d) v (filter d) (globalAlpha d) (fillStyle d)
            (strokeStyle d) (lineWidth d) (shadowBlur d) (shadowColor d)
            (font d) (textAlign d).

Definition setFilter (d : Drawing) (v : Css) : Drawing :=
  mkDrawing (transform d) (clip d) v (globalAlpha d) (fillStyle d)
            (strokeStyle d) (lineWidth d) (shadowBlur d) (shadowColor d)
            (font d) (textAlign d).

Definition setGlobalAlpha (d : Drawing) (v : R) : Drawing :=
  mkDrawing (transform d) (clip d) (filter d) v (fillStyle d)
            (strokeStyle d) (lineWidth d) (shadowBlur d) (shadowColor d)
            (font d) (textAlign d).

Definition setFillStyle (d : Drawing) (v : Style) : Drawing :=
  mkDrawing (transform d) (clip d) (filter d) (globalAlpha d) v
            (strokeStyle d) (lineWidth d) (shadowBlur d) (shadowColor d)
            (font d) (textAlign d).

Definition setStrokeStyle (d : Drawing) (v : Style) : Drawing :=
  mkDrawing (transform d) (clip d) (filter d) (globalAlpha d) (fillStyle d)
            v (lineWidth d) (shadowBlur d) (shadowColor d)
            (font d) (textAlign d).

Definition setLineWidth (d : Drawing) (v : R) : Drawing :=
  mkDrawing (transform d) (clip d) (filter d) (globalAlpha d) (fillStyle d)
            (strokeStyle d) v (shadowBlur d) (shadowColor d)
            (font d) (textAlign d).

Definition setShadowBlur (d : Drawing) (v : R) : Drawing :=
  mkDrawing (transform d) (clip d) (filter d) (globalAlpha d) (fillStyle d)
            (strokeStyle d) (lineWidth d) v (shadowColor d)
            (font d) (textAlign d).

Definition setShadowColor (d : Drawing) (v : Css) : Drawing :=
  mkDrawing (transform d) (clip d) (filter d) (globalAlpha d) (fillStyle d)
            (strokeStyle d) (lineWidth d) (shadowBlur d) v
            (font d) (textAlign d).

Definition setFont (d : Drawing) (v : string) : Drawing :=
  mkDrawing (transform d) (clip d) (filter d) (globalAlpha d) (fillStyle d)
            (strokeStyle d) (lineWidth d) (shadowBlur d) (shadowColor d)
            v (textAlign d).

Definition setTextAlign (d : Drawing) (v : string) : Drawing :=
  mkDrawing (transform d) (clip d) (filter d) (globalAlpha d) (fillStyle d)
            (strokeStyle d) (lineWidth d) (shadowBlur d) (shadowColor d)
            (font d) v.

(** The shadow a painting call casts.  The canvas draws a shadow only when
    the blur or an offset is not 0.  The renderers never assign an offset,
    and a context has offsets of 0 unless the page assigns them; so with a
    blur of 0 there is no shadow and the shadow colour plays no part. *)
Definition shadow (d : Drawing) : option (R * Css) :=
  if Req_dec_T (shadowBlur d) 0 then None
  else Some (shadowBlur d, shadowColor d).

(** What every painting call composites with. *)
Record Compositing := mkCompositing {
  onto : Transform;
  within : list Path;
  through : Css;
  alpha : R;
  casting : option (R * Css)
}.

Definition compositing (d : Drawing) : Compositing :=
  mkCompositing (transform d) (clip d) (filter d) (globalAlpha d) (shadow d).

(** What reaches the canvas: one entry per painting call, with everything of
    the context that the call paints with. *)
Inductive Painted : Type :=
| Cleared (x y w h : R) (t : Transform) (c : list Path)
| Filled (p : Path) (s : Style) (c : Compositing)
| Stroked (p : Path) (s : Style) (width : R) (c : Compositing)
| Written (text : string) (x y : R) (s : Style) (font align : string)
          (c : Compositing).

(** One operation on the context: what it paints, and the context after
    it.  [restore] on an empty stack does nothing.  An assignment takes
    effect: the canvas ignores a colour or font it cannot parse, a negative
    blur, a line width that is not positive and an alpha outside [[0, 1]],
    but every colour and font the renderers assign is well-formed, their
    blurs are constants from 0 up or three times a star radius (at least
    0.5), their line widths are positive constants, and the alpha is the
    horizon's opacity, between 0.1 and 1. *)
Definition step (op : Op) (s : State) : list Painted * State :=
  let d := drawing s in
  let assign d' := ([], mkState d' (path s) (saved s)) in
  let extend := ([], mkState d (path s ++ [(transform d, op)]) (saved s)) in
  match op with
  | ClearRect x y w h => ([Cleared x y w h (transform d) (clip d)], s)
  | Save => ([], mkState d (path s) (d :: saved s))
  | Restore =>
      match saved s with
      | [] => ([], s)
      | top :: rest => ([], mkState top (path s) rest)
      end
  | Translate x y => assign (setTransform d (transform d ++ [(x, y)]))
  | BeginPath => ([], mkState d [] (saved s))
  | ClosePath => extend
  | MoveTo _ _ => extend
  | LineTo _ _ => extend
  | QuadraticCurveTo _ _ _ _ => extend
  | Arc _ _ _ _ _ _ => extend
  | Ellipse _ _ _ _ _ _ _ _ => extend
  | Fill => ([Filled (path s) (fillStyle d) (compositing d)], s)
  | Stroke =>
      ([Stroked (path s) (strokeStyle d) (lineWidth d) (compositing d)], s)
  | Clip => assign (setClip d (clip d ++ [path s]))
  | FillText text x y =>
      ([Written text x y (fillStyle d) (font d) (textAlign d)
                (compositing d)], s)
  | SetFillStyle v => assign (setFillStyle d v)
  | SetStrokeStyle v => assign (setStrokeStyle d v)
  | SetLineWidth v => assign (setLineWidth d v)
  | SetShadowBlur v => assign (setShadowBlur d v)
  | SetShadowColor v => assign (setShadowColor d v)
  | SetFont v => assign (setFont d v)
  | SetTextAlign v => assign (setTextAlign d v)
  | SetFilter v => assign (setFilter d v)
  | SetGlobalAlpha v => assign (setGlobalAlpha d v)
  end.

Fixpoint run (ops : list Op) (s : State) : list Painted * State :=
  match ops with
  | [] => ([], s)
  | op :: rest =>
      let '(p, s') := step op s in
      let '(q, s'') := run rest s' in
      (p ++ q, s'')
  end.

(** What a sequence of operations paints on a context, and the context it
    leaves. *)
Definition painted (ops : list Op) (s : State) : list Painted :=
  fst (run ops s).

Definition after (ops : list Op) (s : State) : State := snd (run ops s).

(** The part of the drawing state no renderer assigns outside of a [save]
    ... [restore] pair. *)
Definition surroundings (d : Drawing)
  : Transform * list Path * Css * R :=
  (transform d, clip d, filter d, globalAlpha d).

(** The properties a [stroke] paints with, besides the surroundings. *)
Definition strokeSetup (d : Drawing) : Style * R * R * Css :=
  (strokeStyle d, lineWidth d, shadowBlur d, shadowColor d).

(** Two contexts in the same surroundings; they may differ in every other
    property, in the current path and in what they have saved. *)
Definition sameSurroundings (a b : State) : Prop :=
  surroundings (drawing a) = surroundings (drawing b).

(** ... that both cast no shadow. *)
Definition calm (a b : State) : Prop :=
  sameSurroundings a b
  /\ shadowBlur (drawing a) = 0 /\ shadowBlur (drawing b) = 0.

(** ... that are set up alike for a [stroke]. *)
Definition strokeReady (a b : State) : Prop :=
  sameSurroundings a b
  /\ strokeSetup (drawing a) = strokeSetup (drawing b).

(** ... and hold the same path. *)
Definition strokeReadyOnPath (a b : State) : Prop :=
  strokeReady a b /\ path a = path b.

(** Operations that paint the same from any two contexts related by [pre],
    and leave them related by [post]. *)
Definition carries (pre post : State -> State -> Prop) (ops : list Op)
  : Prop :=
  forall a b, pre a b ->
    painted ops a = painted ops b /\ post (after ops a) (after ops b).

(** Drawing code that appends and whose operations do so on every canvas. *)
Definition relates (pre post : State -> State -> Prop) (m : Draw unit)
  : Prop :=
  appends m /\ forall w h : R, carries pre post (emitted m w h).

(** A context as [getContext] hands it out, and as assigning
    [canvas.width] leaves it. *)
Definition freshContext : State :=
  {| drawing :=
       {| transform := [];
          clip := [];
          filter := Lit "none";
          globalAlpha := 1;
          fillStyle := Color (Lit "#000000");
          strokeStyle := Color (Lit "#000000");
          lineWidth := 1;
          shadowBlur := 0;
          shadowColor := Lit "rgba(0, 0, 0, 0)";
          font := "10px sans-serif";
          textAlign := "start" |};
     path := [];
     saved := [] |}.

(** Drawing code that appends and, from whatever context, leaves one that
    satisfies [Q]. *)
Definition leaves {A : Type} (Q : State -> Prop) (m : Draw A) : Prop :=
  appends m
  /\ forall (w h : R) (s : State),
       Q (after (calls (snd (m (mkCtx w h [])))) s).

(** The drawing state a trace checked by [scoped] at depth [depth] works
    on top of: the current one at depth 0, else the one saved [depth] levels
    down. *)
Definition base (depth : nat) (s : State) : Drawing :=
  match depth with
  | O => drawing s
  | S d => nth d (saved s) (drawing s)
  end.

End CanvasState.

Declare Scope draw_scope.
Delimit Scope draw_scope with draw.
Notation "m1 ;; m2" := (Canvas.bind m1 (fun _ => m2))
  (at level 61, right associativity) : draw_scope.
Notation "x <- m1 ;; m2" := (Canvas.bind m1 (fun x => m2))
  (at level 61, m1 at next level, right associativity) : draw_scope.

(** ** Catalogs and scene inputs *)

(** A star [{ ra, dec, mag, bv }]. *)
Module Star.
Record t := mk { ra : R; dec : R; mag : R; bv : R }.
End Star.

(** A constellation [{ id, lines }]; a line is a list of [[ra, dec]]
    vertices. *)
Module Constellation.
Record t := mk { id : string; lines : list (list (R * R)) }.
End Constellation.

(** [{ ra, dec }] *)
Module Equatorial.
Record t := mk { ra : R; dec : R }.
End Equatorial.

(** [{ ra, dec, lon }] *)
Module SunState.
Record t := mk { ra : R; dec : R; lon : R }.
End SunState.

(** [{ ra, dec, phase }] *)
Module MoonState.
Record t := mk { ra : R; dec : R; phase : R }.
End MoonState.

(** [{ altitude, azimuth }]; an altitude of [None] is [NaN]. *)
Module AltAz.
Record t := mk { altitude : option R; azimuth : R }.
End AltAz.

(** A position in the ranges of the data model: right ascension in
    [[0, 360)], declination in [[-90, 90]]. *)
Definition normalised (ra dec : R) : Prop :=
  (0 <= ra < 360 /\ -90 <= dec <= 90)%R.

(** ** The renderers *)

(** *** src/src/rendering.js *)

Module RenderingBasic.
Import JsMath.
Local Open Scope R_scope.

(** [project(ra, dec, centerRA, fov = 180)]; the callers always pass [fov]. *)
Definition project (ra dec centerRA fov : R) : option Point.t :=
  let halfFov := toRad (fov / 2) in
  let raRad := toRad (ra - centerRA) in
  let decRad := toRad dec in
  let cosDist := cos decRad * cos raRad in
  if Rlt_dec cosDist (-0.01) then None
  else
    let x0 := cos decRad * sin raRad in
    let y0 := sin decRad in
    let d := 1 + cosDist in
    Some {| Point.x := x0 / d; Point.y := - y0 / d |}.

Local Open Scope string_scope.
Local Open Scope draw_scope.
Import Canvas.

Definition starColor (bv : R) : string :=
  if Rle_dec bv 0.0 then "rgba(180, 200, 255, "
  else if Rle_dec bv 0.5 then "rgba(240, 240, 255, "
  else if Rle_dec bv 1.0 then "rgba(255, 255, 220, "
  else if Rle_dec bv 1.5 then "rgba(255, 220, 180, "
  else "rgba(255, 180, 140, ".

Definition starRadius (mag : R) : R := Rmax 0.5 (3.0 - mag * 0.45).

Definition draw4PointStar (x y size : R) (color : string) : Draw unit :=
  emit Save ;;
  emit (Translate x y) ;;
  emit (SetShadowBlur (size * 3)) ;;
  emit (SetShadowColor (Lit (color ++ "0.5)"))) ;;
  emit (SetFillStyle (Color (Lit (color ++ "1)")))) ;;
  emit BeginPath ;;
  forEach [0; 1; 2; 3]%Z (fun i =>
    let angle := IZR i * PI / 2 - PI / 4 in
    let ox := cos angle * size in
    let oy := sin angle * size in
    let ia := angle + PI / 4 in
    let ix := cos ia * size * 0.25 in
    let iy := sin ia * size * 0.25 in
    (if (i =? 0)%Z then emit (MoveTo ox oy) else emit (LineTo ox oy)) ;;
    emit (LineTo ix iy)) ;;
  emit ClosePath ;;
  emit Fill ;;
  emit Restore.

(** The argument object of [drawStarMap]; an absent [fov] is [None]. *)
Record Opts := mkOpts {
  stars : list Star.t;
  constellations : list Constellation.t;
  sunRA : R;
  sunDec : R;
  activeConstId : string;
  fov : option R
}.

(** [opts] with another [fov] property. *)
Definition withFov (opts : Opts) (f : option R) : Opts :=
  {| stars := stars opts;
     constellations := constellations opts;
     sunRA := sunRA opts;
     sunDec := sunDec opts;
     activeConstId := activeConstId opts;
     fov := f |}.

(** The loop over the vertices of one line, with its [started] flag. *)
Fixpoint lineLoop (cx cy scale sunRA fov : R) (started : bool)
  (line : list (R * R)) : Draw unit :=
  match line with
  | [] => skip
  | (ra, dec) :: rest =>
      match project ra dec sunRA fov with
      | None => lineLoop cx cy scale sunRA fov false rest
      | Some p =>
          let px := cx + Point.x p * scale in
          let py := cy + Point.y p * scale in
          (if negb started then emit (MoveTo px py) else emit (LineTo px py)) ;;
          lineLoop cx cy scale sunRA fov true rest
      end
  end.

Definition drawStarMap (opts : Opts) : Draw unit :=
  let fov := match fov opts with Some f => f | None => 180 end in
  w <- canvasWidth ;;
  h <- canvasHeight ;;
  let cx := w / 2 in
  let cy := h / 2 in
  let scale := Rmin w h * 0.45 in
  emit (ClearRect 0 0 w h) ;;
  forEach (constellations opts) (fun c =>
    let isActive := String.eqb (Constellation.id c) (activeConstId opts) in
    emit (SetStrokeStyle (Color (Lit (if isActive
                                      then "rgba(212, 175, 55, 0.85)"
                                      else "rgba(212, 175, 55, 0.2)")))) ;;
    emit (SetLineWidth (if isActive then 1.8 else 1.0)) ;;
    emit (SetShadowBlur (if isActive then 10 else 0)) ;;
    emit (SetShadowColor (Lit "rgba(212, 175, 55, 0.6)")) ;;
    forEach (Constellation.lines c) (fun line =>
      emit BeginPath ;;
      lineLoop cx cy scale (sunRA opts) fov false line ;;
      emit Stroke)) ;;
  emit (SetShadowBlur 0) ;;
  forEach (stars opts) (fun s =>
    match project (Star.ra s) (Star.dec s) (sunRA opts) fov with
    | None => skip
    | Some p =>
        let px := cx + Point.x p * scale in
        let py := cy + Point.y p * scale in
        let r := starRadius (Star.mag s) in
        draw4PointStar px py r (starColor (Star.bv s))
    end) ;;
  match project (sunRA opts) (sunDec opts) (sunRA opts) fov with
  | None => skip
  | Some sunP =>
      let sx := cx + Point.x sunP * scale in
      let sy := cy + Point.y sunP * scale in
      emit Save ;;
      emit (SetShadowBlur 40) ;;
      emit (SetShadowColor (Lit "rgba(251, 191, 36, 0.8)")) ;;
      emit (SetFillStyle (Color (Lit "rgba(251, 191, 36, 1)"))) ;;
      emit BeginPath ;;
      emit (Arc sx sy 6 0 (PI * 2) false) ;;
      emit Fill ;;
      emit Restore ;;
      emit (SetFillStyle (Color (Lit "#fff"))) ;;
      emit BeginPath ;;
      emit (Arc sx sy 3 0 (PI * 2) false) ;;
      emit Fill
  end.

End RenderingBasic.

(** *** unnamed/part_000 *)

Module RenderingFull.
Import JsMath.
Local Open Scope R_scope.

Definition project (ra dec centerRA : R) : option Point.t :=
  let dra := ra - centerRA in
  let dra := if Rgt_dec dra 180 then dra - 360 else dra in
  let dra := if Rlt_dec dra (-180) then dra + 360 else dra in
  let draR := toRad dra in
  let decR := toRad dec in
  let cosDist := cos decR * cos draR in
  if Rlt_dec cosDist (-0.01) then None
  else
    let d := 1 + cosDist in
    Some {| Point.x := cos decR * sin draR / d; Point.y := - sin decR / d |}.

Local Open Scope string_scope.
Local Open Scope draw_scope.
Import Canvas.

Definition drawStarShape4 (x y size : R) (color : Css) (glowColor : option Css)
  : Draw unit :=
  emit Save ;;
  emit (Translate x y) ;;
  match glowColor with
  | Some glow =>
      emit (SetShadowBlur (size * 3)) ;;
      emit (SetShadowColor glow)
  | None => skip
  end ;;
  emit (SetFillStyle (Color color)) ;;
  emit BeginPath ;;
  forEach [0; 1; 2; 3]%Z (fun i =>
    let a := IZR i * PI / 2 in
    let na := (IZR i + 1) * PI / 2 in
    let tipX := cos a * size in
    let tipY := sin a * size in
    let ntipX := cos na * size in
    let ntipY := sin na * size in
    (if (i =? 0)%Z then emit (MoveTo tipX tipY) else skip) ;;
    let mid := a + PI / 4 in
    emit (QuadraticCurveTo (cos mid * size * 0.10) (sin mid * size * 0.10)
                           ntipX ntipY)) ;;
  emit ClosePath ;;
  emit Fill ;;
  emit Fill ;;
  emit Restore.

(** [starColor(bv, alpha = 1)]; the callers' [alpha] is written out. *)
Definition starColor (bv alpha : R) : Css :=
  if Rle_dec bv 0.0 then Template "rgba(180,200,255," alpha ")"
  else if Rle_dec bv 0.5 then Template "rgba(240,240,255," alpha ")"
  else if Rle_dec bv 1.0 then Template "rgba(255,255,220," alpha ")"
  else if Rle_dec bv 1.5 then Template "rgba(255,220,180," alpha ")"
  else Template "rgba(255,180,140," alpha ")".

Definition starRadius (mag : R) : R := Rmax 0.6 (3.2 - mag * 0.45).

Definition drawSun (x y : R) : Draw unit :=
  let size := 12 in
  let g := createRadialGradient x y 0 x y (size * 2.5) in
  let g := addColorStop 0 "rgba(251,191,36,0.8)" g in
  let g := addColorStop 0.5 "rgba(251,191,36,0.4)" g in
  let g := addColorStop 1 "rgba(251,191,36,0)" g in
  emit (SetFillStyle (Paint g)) ;;
  emit BeginPath ;;
  emit (Arc x y (size * 2.5) 0 (PI * 2) false) ;;
  emit Fill ;;
  emit (SetFillStyle (Color (Lit "#fbbf24"))) ;;
  emit BeginPath ;;
  emit (Arc x y size 0 (PI * 2) false) ;;
  emit Fill.

Definition drawLabel (x y offset : R) (text color : string) : Draw unit :=
  emit Save ;;
  emit (SetFillStyle (Color (Lit color))) ;;
  emit (SetFont "bold 11px sans-serif") ;;
  emit (SetTextAlign "left") ;;
  emit (SetShadowColor (Lit "black")) ;;
  emit (SetShadowBlur 4) ;;
  emit (FillText text (x + offset + 6) (y + 4)) ;;
  emit Restore.

Definition drawMoon (x y phase : R) : Draw unit :=
  let size := 10 in
  let glow := createRadialGradient x y 0 x y (size * 2.5) in
  let glow := addColorStop 0 "rgba(226,232,240,0.5)" glow in
  let glow := addColorStop 1 "rgba(226,232,240,0)" glow in
  emit (SetFillStyle (Paint glow)) ;;
  emit BeginPath ;;
  emit (Arc x y (size * 2.5) 0 (PI * 2) false) ;;
  emit Fill ;;
  emit (SetFillStyle (Color (Lit "#1a1a2e"))) ;;
  emit BeginPath ;;
  emit (Arc x y size 0 (PI * 2) false) ;;
  emit Fill ;;
  let inv := 1 - phase in
  emit Save ;;
  emit BeginPath ;;
  emit (Arc x y size 0 (PI * 2) false) ;;
  emit Clip ;;
  emit (SetFillStyle (Color (Lit "#f1f5f9"))) ;;
  emit BeginPath ;;
  (if Rlt_dec inv 0.5 then
     let t := inv * 2 in
     emit (Arc x y size (- PI / 2) (PI / 2) true) ;;
     emit (Ellipse x y ((1 - t) * size) size 0 (PI / 2) (- PI / 2) false)
   else
     let t := (inv - 0.5) * 2 in
     emit (Arc x y size (PI / 2) (- PI / 2) true) ;;
     emit (Ellipse x y (t * size) size 0 (- PI / 2) (PI / 2) false)) ;;
  emit ClosePath ;;
  emit Fill ;;
  emit Restore ;;
  emit (SetStrokeStyle (Color (Lit "rgba(255,255,255,0.3)"))) ;;
  emit (SetLineWidth 0.5) ;;
  emit BeginPath ;;
  emit (Arc x y size 0 (PI * 2) false) ;;
  emit Stroke ;;
  drawLabel x y size "☽ Moon" "#e2e8f0".

(** A row of [PLANETS]. *)
Module PlanetDef.
Record t := mk {
  name : string; symbol : string; color : string; size : R; hasRings : bool
}.
End PlanetDef.

(** A row of [SPECIALS]. *)
Module SpecialDef.
Record t := mk {
  name : string; symbol : string; color : string; size : R; isNode : bool
}.
End SpecialDef.

Definition drawPlanet (x y : R) (def : PlanetDef.t) : Draw unit :=
  let size := PlanetDef.size def in
  let color := PlanetDef.color def in
  let glow := createRadialGradient x y 0 x y (size * 2.5) in
  let glow := addColorStop 0 (color ++ "99") glow in
  let glow := addColorStop 1 (color ++ "00") glow in
  emit (SetFillStyle (Paint glow)) ;;
  emit BeginPath ;;
  emit (Arc x y (size * 2.5) 0 (PI * 2) false) ;;
  emit Fill ;;
  emit (SetFillStyle (Color (Lit color))) ;;
  emit BeginPath ;;
  emit (Arc x y size 0 (PI * 2) false) ;;
  emit Fill ;;
  (if PlanetDef.hasRings def then
     emit (SetStrokeStyle (Color (Lit (color ++ "80")))) ;;
     emit (SetLineWidth 1.5) ;;
     emit BeginPath ;;
     emit (Ellipse x y (size * 1.8) (size * 0.5) 0 0 (PI * 2) false) ;;
     emit Stroke
   else skip) ;;
  drawLabel x y size (PlanetDef.symbol def ++ " " ++ PlanetDef.name def) color.

Definition drawSpecialPoint (x y : R) (def : SpecialDef.t) : Draw unit :=
  let size := SpecialDef.size def in
  let color := SpecialDef.color def in
  (if SpecialDef.isNode def then
     emit (SetFillStyle (Color (Lit color))) ;;
     emit BeginPath ;;
     emit (MoveTo x (y - size)) ;;
     emit (LineTo (x + size * 0.7) y) ;;
     emit (LineTo x (y + size)) ;;
     emit (LineTo (x - size * 0.7) y) ;;
     emit ClosePath ;;
     emit Fill
   else
     let glow := createRadialGradient x y 0 x y (size * 2) in
     let glow := addColorStop 0 (color ++ "99") glow in
     let glow := addColorStop 1 (color ++ "00") glow in
     emit (SetFillStyle (Paint glow)) ;;
     emit BeginPath ;;
     emit (Arc x y (size * 2) 0 (PI * 2) false) ;;
     emit Fill ;;
     emit (SetFillStyle (Color (Lit color))) ;;
     emit BeginPath ;;
     emit (Arc x y size 0 (PI * 2) false) ;;
     emit Fill) ;;
  drawLabel x y size (SpecialDef.symbol def ++ " " ++ SpecialDef.name def) color.

Definition drawEarth (w h altitude : R) : Draw unit :=
  let opacity :=
    if Rgt_dec altitude 5 then 1
    else if Rlt_dec altitude (-5) then 0.1
    else 0.1 + (altitude + 5) / 10 * 0.9 in
  let earthRadius := Rmin w h * 3 in
  let earthY := h / 2 + earthRadius * (1 + altitude / 90) in
  let earthX := w / 2 in
  emit Save ;;
  emit (SetFilter (Template "blur(" ((1 - opacity) * 5) "px)")) ;;
  emit (SetGlobalAlpha opacity) ;;
  emit BeginPath ;;
  emit (Arc earthX earthY earthRadius 0 (PI * 2) false) ;;
  emit Clip ;;
  let grad := createLinearGradient 0 (earthY - earthRadius)
                                   0 (earthY + earthRadius) in
  let grad := addColorStop 0 "rgba(34,50,30,0.6)" grad in
  let grad := addColorStop 0.3 "rgba(20,35,20,0.8)" grad in
  let grad := addColorStop 1 "rgba(10,15,10,1)" grad in
  emit (SetFillStyle (Paint grad)) ;;
  emit BeginPath ;;
  emit (Arc earthX earthY earthRadius 0 (PI * 2) false) ;;
  emit Fill ;;
  emit Restore.

(** An object literal used as a table: its own keys, in the order they are
    written.  [lookup key table] is the property read [table[key]] for every
    key but the few that each object inherits from [Object.prototype]
    ([inheritedKey] below): for those the read finds the inherited member,
    which [lookup] does not model. *)
Fixpoint lookup {A : Type} (key : string) (table : list (string * A))
  : option A :=
  match table with
  | [] => None
  | (k, v) :: rest => if String.eqb k key then Some v else lookup key rest
  end.

(** The property names of [Object.prototype]. *)
Definition OBJECT_PROTOTYPE_KEYS : list string :=
  [ "constructor"; "hasOwnProperty"; "isPrototypeOf"; "propertyIsEnumerable";
    "toLocaleString"; "toString"; "valueOf"; "__proto__";
    "__defineGetter__"; "__defineSetter__";
    "__lookupGetter__"; "__lookupSetter__" ].

Definition inheritedKey (key : string) : bool :=
  existsb (String.eqb key) OBJECT_PROTOTYPE_KEYS.

Definition PLANETS : list (string * PlanetDef.t) :=
  [ ("mercury", PlanetDef.mk "Mercury" "☿" "#a0a0a0" 3 false);
    ("venus",   PlanetDef.mk "Venus"   "♀" "#e8c88a" 4 false);
    ("mars",    PlanetDef.mk "Mars"    "♂" "#c1440e" 3.5 false);
    ("jupiter", PlanetDef.mk "Jupiter" "♃" "#c88b3a" 5 false);
    ("saturn",  PlanetDef.mk "Saturn"  "♄" "#d4a855" 4.5 true);
    ("uranus",  PlanetDef.mk "Uranus"  "⛢" "#7de8e8" 3.5 false);
    ("neptune", PlanetDef.mk "Neptune" "♆" "#3a5fcd" 3.5 false) ].

Definition SPECIALS : list (string * SpecialDef.t) :=
  [ ("lilith",    SpecialDef.mk "Lilith"     "⛰" "#a855f7" 2.5 false);
    ("northNode", SpecialDef.mk "North Node" "☊" "#22d3ee" 2.5 true);
    ("chiron",    SpecialDef.mk "Chiron"     "⚕" "#f472b6" 2.5 false) ].

(** [opts.specials]: [{ moon, lilith, northNode, chiron }], each of them
    possibly missing. *)
Module Specials.
Record t := mk {
  moon : option MoonState.t;
  lilith : option Equatorial.t;
  northNode : option Equatorial.t;
  chiron : option Equatorial.t
}.

(** [specials[key]] for the three keys the renderer walks. *)
Definition get (specials : t) (key : string) : option Equatorial.t :=
  if String.eqb key "lilith" then lilith specials
  else if String.eqb key "northNode" then northNode specials
  else if String.eqb key "chiron" then chiron specials
  else None.
End Specials.

(** The argument object of [drawStarMap].  [planets] lists the entries of
    the object in the order [Object.entries] yields them; a [null] position
    is [None]. *)
Record Opts := mkOpts {
  stars : list Star.t;
  constellations : list Constellation.t;
  sunRA : R;
  sunDec : R;
  activeConstId : string;
  moon : option MoonState.t;
  planets : option (list (string * option Equatorial.t));
  specials : option Specials.t;
  altitude : option R
}.

(** The loop over the vertices of one line, with its [started] flag. *)
Fixpoint lineLoop (cx cy scale sunRA : R) (started : bool)
  (line : list (R * R)) : Draw unit :=
  match line with
  | [] => skip
  | (ra, dec) :: rest =>
      match project ra dec sunRA with
      | None => lineLoop cx cy scale sunRA false rest
      | Some p =>
          let px := cx + Point.x p * scale in
          let py := cy + Point.y p * scale in
          (if negb started then emit (MoveTo px py) else emit (LineTo px py)) ;;
          lineLoop cx cy scale sunRA true rest
      end
  end.

(** The layers of [drawStarMap], in the order of its body. *)

Definition earthLayer (w h : R) (opts : Opts) : Draw unit :=
  match altitude opts with
  | Some a => drawEarth w h a
  | None => skip
  end.

Definition constellationLayer (cx cy scale : R) (opts : Opts) : Draw unit :=
  forEach (constellations opts) (fun c =>
    let active := String.eqb (Constellation.id c) (activeConstId opts) in
    emit (SetStrokeStyle (Color (Lit (if active
                                      then "rgba(212,175,55,0.85)"
                                      else "rgba(212,175,55,0.2)")))) ;;
    emit (SetLineWidth (if active then 1.8 else 1.0)) ;;
    emit (SetShadowBlur (if active then 10 else 0)) ;;
    emit (SetShadowColor (Lit "rgba(212,175,55,0.6)")) ;;
    forEach (Constellation.lines c) (fun line =>
      emit BeginPath ;;
      lineLoop cx cy scale (sunRA opts) false line ;;
      emit Stroke)) ;;
  emit (SetShadowBlur 0).

Definition starLayer (cx cy scale : R) (opts : Opts) : Draw unit :=
  forEach (stars opts) (fun s =>
    match project (Star.ra s) (Star.dec s) (sunRA opts) with
    | None => skip
    | Some p =>
        let px := cx + Point.x p * scale in
        let py := cy + Point.y p * scale in
        let r := starRadius (Star.mag s) in
        drawStarShape4 px py r (starColor (Star.bv s) 1)
          (if Rlt_dec (Star.mag s) 3
           then Some (starColor (Star.bv s) 0.4) else None)
    end).

Definition planetLayer (cx cy scale : R) (opts : Opts) : Draw unit :=
  match planets opts with
  | None => skip
  | Some entries =>
      forEach entries (fun '(id, pos) =>
        match lookup id PLANETS, pos with
        | Some def, Some pos =>
            match project (Equatorial.ra pos) (Equatorial.dec pos)
                          (sunRA opts) with
            | None => skip
            | Some p =>
                drawPlanet (cx + Point.x p * scale) (cy + Point.y p * scale) def
            end
        | _, _ => skip
        end)
  end.

(** Inside [if (specials) { ... }]: first [specials.moon] ... *)
Definition specialsMoon (cx cy scale sunRA : R) (sp : Specials.t)
  : Draw unit :=
  match Specials.moon sp with
  | None => skip
  | Some m =>
      match project (MoonState.ra m) (MoonState.dec m) sunRA with
      | None => skip
      | Some p =>
          drawMoon (cx + Point.x p * scale) (cy + Point.y p * scale)
                   (MoonState.phase m)
      end
  end.

(** ... then the walk over [['lilith', 'northNode', 'chiron']]. *)
Definition specialsPoints (cx cy scale sunRA : R) (sp : Specials.t)
  : Draw unit :=
  forEach ["lilith"; "northNode"; "chiron"] (fun key =>
    match Specials.get sp key with
    | None => skip
    | Some pos =>
        match project (Equatorial.ra pos) (Equatorial.dec pos) sunRA with
        | None => skip
        | Some p =>
            match lookup key SPECIALS with
            | Some def =>
                drawSpecialPoint (cx + Point.x p * scale)
                                 (cy + Point.y p * scale) def
            | None => skip
            end
        end
    end).

Definition specialsLayer (cx cy scale : R) (opts : Opts) : Draw unit :=
  match specials opts with
  | None => skip
  | Some sp =>
      specialsMoon cx cy scale (sunRA opts) sp ;;
      specialsPoints cx cy scale (sunRA opts) sp
  end.

Definition sunLayer (cx cy scale : R) (opts : Opts) : Draw unit :=
  match project (sunRA opts) (sunDec opts) (sunRA opts) with
  | None => skip
  | Some sunP => drawSun (cx + Point.x sunP * scale) (cy + Point.y sunP * scale)
  end.

(** [drawStarMap(ctx, opts)], with [window.devicePixelRatio] as an
    argument. *)
Definition drawStarMap (devicePixelRatio : R) (opts : Opts) : Draw unit :=
  let dpr := js_or devicePixelRatio 1 in
  cw <- canvasWidth ;;
  ch <- canvasHeight ;;
  let w := cw / dpr in
  let h := ch / dpr in
  let cx := w / 2 in
  let cy := h / 2 in
  let scale := Rmin w h * 0.45 in
  emit (ClearRect 0 0 w h) ;;
  earthLayer w h opts ;;
  constellationLayer cx cy scale opts ;;
  starLayer cx cy scale opts ;;
  planetLayer cx cy scale opts ;;
  specialsLayer cx cy scale opts ;;
  sunLayer cx cy scale opts.

(** *** Reading the issued operations *)

(** The Moon and the special points are the bodies that carry a text label:
    the Moon's is fixed, a special point's is built from its row of
    [SPECIALS]. *)
Definition isMoonDraw (op : Op) : bool :=
  match op with
  | FillText text _ _ => String.eqb text "☽ Moon"
  | _ => false
  end.

Definition isSpecialPointDraw (op : Op) : bool :=
  match op with
  | FillText text _ _ =>
      existsb (fun entry =>
                 String.eqb text (SpecialDef.symbol (snd entry) ++ " "
                                  ++ SpecialDef.name (snd entry)))
              SPECIALS
  | _ => false
  end.

(** A scene with the Sun at right ascension 280, the Moon 30 degrees east of
    it and Lilith 30 degrees west, and nothing else. *)
Definition exampleScene : Opts :=
  {| stars := [];
     constellations := [];
     sunRA := 280;
     sunDec := -23;
     activeConstId := "Sgr";
     moon := None;
     planets := None;
     specials :=
       Some (Specials.mk (Some (MoonState.mk 310 5 0.1))
                         (Some (Equatorial.mk 250 (-10))) None None);
     altitude := None |}.

(** The same scene seen with the Sun 3 degrees below the horizon. *)
Definition horizonScene : Opts :=
  {| stars := [];
     constellations := [];
     sunRA := 280;
     sunDec := -23;
     activeConstId := "Sgr";
     moon := None;
     planets := None;
     specials :=
       Some (Specials.mk (Some (MoonState.mk 310 5 0.1))
                         (Some (Equatorial.mk 250 (-10))) None None);
     altitude := Some (-3) |}.

(** What the Moon and the special points issue, for any [opts]. *)
Definition moonOps (cx cy scale : R) (opts : Opts) (w h : R) : list Op :=
  match specials opts with
  | None => []
  | Some sp => emitted (specialsMoon cx cy scale (sunRA opts) sp) w h
  end.

Definition specialPointOps (cx cy scale : R) (opts : Opts) (w h : R)
  : list Op :=
  match specials opts with
  | None => []
  | Some sp => emitted (specialsPoints cx cy scale (sunRA opts) sp) w h
  end.

(** Radii the canvas accepts: [arc] and [ellipse] raise an error on a
    negative radius.  For the Moon the disk has radius 10 and the terminator
    ellipse is at most as wide. *)
Definition moonRadiiOk (op : Op) : Prop :=
  match op with
  | Arc _ _ radius _ _ _ => (0 < radius)%R
  | Ellipse _ _ radiusX radiusY _ _ _ _ =>
      (0 <= radiusX <= 10 /\ radiusY = 10)%R
  | _ => True
  end.

(** [opts] with another [planets] property. *)
Definition withPlanets (opts : Opts)
  (entries : option (list (string * option Equatorial.t))) : Opts :=
  {| stars := stars opts;
     constellations := constellations opts;
     sunRA := sunRA opts;
     sunDec := sunDec opts;
     activeConstId := activeConstId opts;
     moon := moon opts;
     planets := entries;
     specials := specials opts;
     altitude := altitude opts |}.

(** A vertex that projects to a point. *)
Definition visible (sunRA : R) (vertex : R * R) : bool :=
  match project (fst vertex) (snd vertex) sunRA with
  | Some _ => true
  | None => false
  end.

Definition isMoveTo (op : Op) : bool :=
  match op with MoveTo _ _ => true | _ => false end.

Definition isLineTo (op : Op) : bool :=
  match op with LineTo _ _ => true | _ => false end.

End RenderingFull.

(** ** The projection in closed form *)

Module ProjectionSpec.
Import JsMath.
Local Open Scope R_scope.

(** The closed form both revisions compute: angular distance from the view
    centre, the visibility cut at [-0.01], and the stereographic quotient. *)
Definition cosDistOf (ra dec centerRA : R) : R :=
  cos (toRad dec) * cos (toRad (ra - centerRA)).

Definition stereographic (ra dec centerRA : R) : Point.t :=
  {| Point.x := cos (toRad dec) * sin (toRad (ra - centerRA))
                / (1 + cosDistOf ra dec centerRA);
     Point.y := - sin (toRad dec) / (1 + cosDistOf ra dec centerRA) |}.

Definition projectClosed (ra dec centerRA : R) : option Point.t :=
  if Rlt_dec (cosDistOf ra dec centerRA) (-0.01) then None
  else Some (stereographic ra dec centerRA).

End ProjectionSpec.

(** ** Dates *)

(** A JavaScript [Date] that holds a time instant, through the accessors the
    code calls: milliseconds since the Unix epoch, and the UTC calendar
    fields ([getUTCMonth] counts from 0).  An Invalid Date, whose accessors
    all return [NaN], is not a value of this type. *)
Record Date := mkDate {
  getTime : Z;
  getUTCMonth : Z;
  getUTCDate : Z;
  getUTCHours : Z;
  getUTCMinutes : Z
}.

(** The ranges in which the accessors of a [Date] return: the record does
    not enforce them. *)
Definition calendarFields (date : Date) : Prop :=
  (0 <= getUTCMonth date <= 11 /\ 1 <= getUTCDate date <= 31
   /\ 0 <= getUTCHours date <= 23 /\ 0 <= getUTCMinutes date <= 59)%Z.

(** ** Zodiac constellation lookup *)

Module Zodiac.
Local Open Scope Q_scope.
Local Open Scope string_scope.

(** One row [{ id, from, to }] of a boundary table. *)
Record Bound := mkBound { id : string; from : Q; to : Q }.

(** [a >= b] and [a < b] on numbers. *)
Definition geb (a b : Q) : bool := Qle_bool b a.
Definition ltb (a b : Q) : bool := negb (Qle_bool b a).

(** The loop condition [eclipticLon >= z.from && eclipticLon < z.to]. *)
Definition inBound (eclipticLon : Q) (z : Bound) : bool :=
  geb eclipticLon (from z) && ltb eclipticLon (to z).

(** [for (const z of table) if (...) return z.id;], [None] when the loop
    falls through. *)
Fixpoint scan (table : list Bound) (eclipticLon : Q) : option string :=
  match table with
  | [] => None
  | z :: rest =>
      if inBound eclipticLon z then Some (id z) else scan rest eclipticLon
  end.

(** The keys of [CONSTELLATION_NAMES]: the 13 IAU codes. *)
Definition CONSTELLATION_CODES : list string :=
  [ "Cap"; "Aqr"; "Psc"; "Ari"; "Tau"; "Gem"; "Cnc"; "Leo"; "Vir"; "Lib";
    "Sco"; "Oph"; "Sgr" ].

(** The rows of a table that hold a longitude. *)
Definition matching (table : list Bound) (eclipticLon : Q) : list Bound :=
  filter (inBound eclipticLon) table.

(** The [id] of the last row of a table. *)
Definition lastId (table : list Bound) : string :=
  id (last table (mkBound "" 0 0)).

(** A chain from [lo] to [hi]: consecutive half-open intervals, each
    starting where the previous one ends. *)
Fixpoint chain (lo : Q) (table : list Bound) (hi : Q) : Prop :=
  match table with
  | [] => lo == hi
  | z :: rest => from z == lo /\ lo < to z /\ chain (to z) rest hi
  end.

(** Every [id] of a table is one of the 13 codes, as a computable check. *)
Definition idsKnown (table : list Bound) : bool :=
  forallb (fun z => existsb (String.eqb (id z)) CONSTELLATION_CODES) table.

(** The [id] of the first row of a table. *)
Definition firstId (table : list Bound) : string :=
  id (hd (mkBound "" 0 0) table).

(** The lookup [get] is exact at a longitude: one row of the table, and only
    one, holds it; [get] returns the [id] of that row; the [id] is one of the
    13 codes. *)
Definition uniqueRow (table : list Bound) (get : Q -> string) (lon : Q)
  : Prop :=
  exists z, matching table lon = [z]
            /\ get lon = id z
            /\ In (id z) CONSTELLATION_CODES.

(** Exactly one row of the table holds the longitude, and its [id] is one of
    the 13 codes. *)
Definition oneRow (table : list Bound) (lon : Q) : Prop :=
  exists z, matching table lon = [z] /\ In (id z) CONSTELLATION_CODES.

(** [CONSTELLATION_NAMES]: the same thirteen entries in the three revisions. *)
Record NameEntry := mkName { name : string; symbol : string; common : string }.

Definition CONSTELLATION_NAMES : list (string * NameEntry) :=
  [ ("Cap", mkName "Capricornus" "♑" "Capricorn");
    ("Aqr", mkName "Aquarius"    "♒" "Aquarius");
    ("Psc", mkName "Pisces"      "♓" "Pisces");
    ("Ari", mkName "Aries"       "♈" "Aries");
    ("Tau", mkName "Taurus"      "♉" "Taurus");
    ("Gem", mkName "Gemini"      "♊" "Gemini");
    ("Cnc", mkName "Cancer"      "♋" "Cancer");
    ("Leo", mkName "Leo"         "♌" "Leo");
    ("Vir", mkName "Virgo"       "♍" "Virgo");
    ("Lib", mkName "Libra"       "♎" "Libra");
    ("Sco", mkName "Scorpius"    "♏" "Scorpio");
    ("Oph", mkName "Ophiuchus"   "⚕" "Ophiuchus");
    ("Sgr", mkName "Sagittarius" "♐" "Sagittarius") ].

(** [CONSTELLATION_NAMES[id]]; a missing key gives [undefined], here
    [None]. *)
Definition nameOf (id : string) : option NameEntry :=
  RenderingFull.lookup id CONSTELLATION_NAMES.

(** The same loop on a real longitude, as [getSunPosition] returns it: the
    bounds of the table are read as the reals they denote. *)
Definition inBoundAt (eclipticLon : R) (z : Bound) : bool :=
  (if Rle_dec (Q2R (from z)) eclipticLon then true else false)
  && (if Rlt_dec eclipticLon (Q2R (to z)) then true else false).

Fixpoint scanAt (table : list Bound) (eclipticLon : R) : option string :=
  match table with
  | [] => None
  | z :: rest =>
      if inBoundAt eclipticLon z then Some (id z) else scanAt rest eclipticLon
  end.

Definition matchingAt (table : list Bound) (eclipticLon : R) : list Bound :=
  filter (inBoundAt eclipticLon) table.

End Zodiac.

(** ** Tropical sign lookup *)

Module Tropical.
Local Open Scope string_scope.
Local Open Scope Z_scope.

(** One row [{ name, symbol, from: [m, d], to: [m, d] }]. *)
Record Sign := mkSign {
  name : string;
  symbol : string;
  from : Z * Z;
  to : Z * Z
}.

(** The table is the same, row for row, in the three revisions (named
    [TROPICAL_SIGNS] in src/src/astronomy.js, [TROPICAL] later). *)
Definition TROPICAL : list Sign :=
  [ mkSign "Capricorn"   "♑" (12, 22) (1, 19);
    mkSign "Aquarius"    "♒" (1, 20)  (2, 18);
    mkSign "Pisces"      "♓" (2, 19)  (3, 20);
    mkSign "Aries"       "♈" (3, 21)  (4, 19);
    mkSign "Taurus"      "♉" (4, 20)  (5, 20);
    mkSign "Gemini"      "♊" (5, 21)  (6, 20);
    mkSign "Cancer"      "♋" (6, 21)  (7, 22);
    mkSign "Leo"         "♌" (7, 23)  (8, 22);
    mkSign "Virgo"       "♍" (8, 23)  (9, 22);
    mkSign "Libra"       "♎" (9, 23)  (10, 22);
    mkSign "Scorpio"     "♏" (10, 23) (11, 21);
    mkSign "Sagittarius" "♐" (11, 22) (12, 21) ].

(** The test of one row against month [m] and day [d], with its two
    branches: a range that wraps over the year boundary ([fm > tm]) and one
    that does not. *)
Definition inRange (m d : Z) (s : Sign) : bool :=
  let '(fm, fd) := from s in
  let '(tm, td) := to s in
  if fm >? tm then
    ((m =? fm) && (d >=? fd)) || ((m =? tm) && (d <=? td))
    || (m >? fm) || (m <? tm)
  else
    ((m =? fm) && (d >=? fd)) || ((m =? tm) && (d <=? td))
    || ((m >? fm) && (m <? tm)).

Fixpoint scan (table : list Sign) (m d : Z) : option Sign :=
  match table with
  | [] => None
  | s :: rest => if inRange m d s then Some s else scan rest m d
  end.

(** What indexing past the end of the table would give. *)
Definition undefinedSign : Sign := mkSign "" "" (0, 0) (0, 0).

Definition getTropicalSign (date : Date) : Sign :=
  let m := getUTCMonth date + 1 in
  let d := getUTCDate date in
  match scan TROPICAL m d with
  | Some s => s
  | None => nth 11 TROPICAL undefinedSign
  end.

(** Calendar order on (month, day) pairs, and membership of a date in a
    range of the year that may wrap over the year boundary. *)
Definition notAfter (a b : Z * Z) : bool :=
  (fst a <? fst b) || ((fst a =? fst b) && (snd a <=? snd b)).

Definition inCalendarRange (m d : Z) (s : Sign) : bool :=
  if notAfter (from s) (to s)
  then notAfter (from s) (m, d) && notAfter (m, d) (to s)
  else notAfter (from s) (m, d) || notAfter (m, d) (to s).

(** The rows of the table that hold a date. *)
Definition matching (m d : Z) : list Sign := filter (inRange m d) TROPICAL.

End Tropical.

(** ** src/src/astronomy.js *)

Module AstronomyBasic.
Import Zodiac.
Local Open Scope Q_scope.
Local Open Scope string_scope.

Definition ZODIAC_BOUNDARIES : list Bound :=
  [ mkBound "Cap" 300.0 327.0;
    mkBound "Aqr" 327.0 351.6;
    mkBound "Psc" 351.6 360.0;
    mkBound "Psc"   0.0  29.0;
    mkBound "Ari"  29.0  53.5;
    mkBound "Tau"  53.5  90.4;
    mkBound "Gem"  90.4 118.1;
    mkBound "Cnc" 118.1 138.1;
    mkBound "Leo" 138.1 174.1;
    mkBound "Vir" 174.1 217.8;
    mkBound "Lib" 217.8 241.0;
    mkBound "Sco" 241.0 247.7;
    mkBound "Oph" 247.7 266.3;
    mkBound "Sgr" 266.3 300.0 ].

Definition getZodiacConstellation (eclipticLon : Q) : string :=
  match scan ZODIAC_BOUNDARIES eclipticLon with
  | Some i => i
  | None => "Sgr"
  end.

Definition getTropicalSign := Tropical.getTropicalSign.

Definition getZodiacConstellationAt (eclipticLon : R) : string :=
  match scanAt ZODIAC_BOUNDARIES eclipticLon with
  | Some i => i
  | None => "Sgr"
  end.

Section Sun.
Import JsMath.
Local Open Scope R_scope.

(** [date.getTime() / 86400000 + 2440587.5] *)
Definition julianDate (date : Date) : R :=
  IZR (getTime date) / 86400000 + 2440587.5.

Definition getSunPosition (date : Date) : SunState.t :=
  let jd := julianDate date in
  let n := jd - 2451545.0 in
  let L := mod360 (280.460 + 0.9856474 * n) in
  let g := mod360 (357.528 + 0.9856003 * n) in
  let gRad := toRad g in
  let lon := mod360 (L + 1.915 * sin gRad + 0.020 * sin (2 * gRad)) in
  let eps := 23.439 - 0.0000004 * n in
  let epsRad := toRad eps in
  let lonRad := toRad lon in
  let dec := toDeg (asin (sin epsRad * sin lonRad)) in
  let ra := mod360 (toDeg (atan2 (cos epsRad * sin lonRad) (cos lonRad))) in
  {| SunState.ra := ra; SunState.dec := dec; SunState.lon := lon |}.

End Sun.

(** [{ tropical, astronomical, sun }] *)
Record FullResult := mkFullResult {
  tropical : Tropical.Sign;
  astronomical : option NameEntry;
  sun : SunState.t
}.

Definition getFullResult (date : Date) : FullResult :=
  let sun := getSunPosition date in
  let astroId := getZodiacConstellationAt (SunState.lon sun) in
  {| tropical := getTropicalSign date;
     astronomical := nameOf astroId;
     sun := sun |}.

End AstronomyBasic.

(** ** The astronomy.js of unnamed/part_002 (mean elements) *)

Module AstronomyMean.
Import JsMath Zodiac.
Local Open Scope string_scope.
Local Open Scope R_scope.

(** [Date.UTC(2000, 0, 1, 12, 0, 0)] *)
Definition J2000 : Z := 946728000000.

Definition daysSinceJ2000 (date : Date) : R :=
  (IZR (getTime date) - IZR J2000) / 86400000.

Definition obliquity (n : R) : R := 23.439 - 0.0000004 * n.

Definition eclToEq (lon n : R) : Equatorial.t :=
  let eps := toRad (obliquity n) in
  let l := toRad lon in
  {| Equatorial.ra := mod360 (toDeg (atan2 (cos eps * sin l) (cos l)));
     Equatorial.dec := toDeg (asin (sin eps * sin l)) |}.

Definition getSunPosition (date : Date) : SunState.t :=
  let n := daysSinceJ2000 date in
  let L := mod360 (280.460 + 0.9856474 * n) in
  let g := toRad (mod360 (357.528 + 0.9856003 * n)) in
  let lon := mod360 (L + 1.915 * sin g + 0.020 * sin (2 * g)) in
  let e := eclToEq lon n in
  {| SunState.ra := Equatorial.ra e;
     SunState.dec := Equatorial.dec e;
     SunState.lon := lon |}.

(** [Date.UTC(2000, 0, 6, 18, 14, 0)] *)
Definition knownNew : Z := 947182440000.

Definition getMoon (date : Date) : MoonState.t :=
  let days := (IZR (getTime date) - IZR knownNew) / 86400000 in
  let synodic := 29.53058867 in
  let phase := js_rem days synodic / synodic in
  let phase := if Rlt_dec phase 0 then phase + 1 else phase in
  let sun := getSunPosition date in
  let ra := mod360 (SunState.ra sun + js_rem days synodic * 12.19) in
  let dec := 5.145 * sin (days / 27.21222 * 2 * PI) in
  {| MoonState.ra := ra; MoonState.dec := dec; MoonState.phase := phase |}.

(** The value of the expression behind [sinAlt] in exact arithmetic. *)
Definition solarSinAlt (date : Date) (lat lon : R) : R :=
  let n := daysSinceJ2000 date in
  let dec := 23.45 * sin (toRad (mod360 (360 / 365 * (js_rem n 365 + 10)))) in
  let utcH := IZR (getUTCHours date) + IZR (getUTCMinutes date) / 60 in
  let ha := (utcH + lon / 15 - 12) * 15 in
  let latR := toRad lat in
  let decR := toRad dec in
  let haR := toRad ha in
  sin latR * sin decR + cos latR * cos decR * cos haR.

(** [getSolarAltAz(date, lat, lon)].  [err] is the rounding error of the
    floating-point evaluation of [sinAlt]: the number the code holds is the
    exact value plus [err].  When [latR] or [haR] is an infinity, [sinAlt]
    is [NaN], and so are the clamped value and the altitude.  A [NaN]
    altitude makes [cosAlt] [NaN], the comparison false and the azimuth
    0. *)
Definition getSolarAltAzWith (err : R) (date : Date) (lat lon : R) : AltAz.t :=
  let n := daysSinceJ2000 date in
  let dec := 23.45 * sin (toRad (mod360 (360 / 365 * (js_rem n 365 + 10)))) in
  let utcH := IZR (getUTCHours date) + IZR (getUTCMinutes date) / 60 in
  let ha := (utcH + lon / 15 - 12) * 15 in
  let decR := toRad dec in
  match toRadFinite lat, toRadFinite ha with
  | Some latR, Some haR =>
      let sinAlt :=
        sin latR * sin decR + cos latR * cos decR * cos haR + err in
      match Math_asin (Rmax (-1) (Rmin 1 sinAlt)) with
      | None => {| AltAz.altitude := None; AltAz.azimuth := 0 |}
      | Some asinAlt =>
          let altitude := toDeg asinAlt in
          let cosAlt := cos (toRad altitude) in
          let azimuth :=
            if Rgt_dec cosAlt 0.001 then
              let sinAz := cos decR * sin haR / cosAlt in
              let cosAz :=
                (sin decR - sin latR * sinAlt) / (cos latR * cosAlt) in
              js_rem (js_rem (toDeg (atan2 sinAz cosAz)) 360 + 360) 360
            else 0 in
          {| AltAz.altitude := Some altitude; AltAz.azimuth := azimuth |}
      end
  | _, _ => {| AltAz.altitude := None; AltAz.azimuth := 0 |}
  end.

(** The function in exact arithmetic. *)
Definition getSolarAltAz (date : Date) (lat lon : R) : AltAz.t :=
  getSolarAltAzWith 0 date lat lon.


Definition ZODIAC_BOUNDS : list Bound :=
  [ mkBound "Sgr" 266.3 300.0;
    mkBound "Cap" 300.0 327.0;
    mkBound "Aqr" 327.0 351.6;
    mkBound "Psc" 351.6 360.0;
    mkBound "Psc"   0.0  29.0;
    mkBound "Ari"  29.0  53.5;
    mkBound "Tau"  53.5  90.4;
    mkBound "Gem"  90.4 118.1;
    mkBound "Cnc" 118.1 138.1;
    mkBound "Leo" 138.1 174.1;
    mkBound "Vir" 174.1 217.8;
    mkBound "Lib" 217.8 241.0;
    mkBound "Sco" 241.0 247.7;
    mkBound "Oph" 247.7 266.3 ]%Q.

Definition getZodiacConstellation (eclipticLon : Q) : string :=
  match scan ZODIAC_BOUNDS eclipticLon with
  | Some i => i
  | None => "Sgr"
  end.

Definition getTropicalSign := Tropical.getTropicalSign.

Definition getZodiacConstellationAt (eclipticLon : R) : string :=
  match scanAt ZODIAC_BOUNDS eclipticLon with
  | Some i => i
  | None => "Sgr"
  end.

(** Orbital elements [{ a, L0, period }]. *)
Record Elements := mkEl { a : R; L0 : R; period : R }.

Definition EARTH_EL : Elements := mkEl 1.000 100.46 365.256.

Definition PLANET_EL : list (string * Elements) :=
  [ ("mercury", mkEl 0.387 252.25 87.969);
    ("venus",   mkEl 0.723 181.98 224.701);
    ("mars",    mkEl 1.524 355.45 686.980);
    ("jupiter", mkEl 5.203 34.35 4332.59);
    ("saturn",  mkEl 9.537 50.08 10759.2);
    ("uranus",  mkEl 19.19 314.05 30689.0);
    ("neptune", mkEl 30.07 304.97 60182.0) ].

Definition helioLon (el : Elements) (n : R) : R :=
  toRad (mod360 (L0 el + 360 / period el * n)).

(** [getPlanetPosition(planet, date)]; [null] is [None].  The result has the
    shape [{ ra, dec, lon }]. *)
Definition getPlanetPosition (planet : string) (date : Date)
  : option SunState.t :=
  match RenderingFull.lookup planet PLANET_EL with
  | None => None
  | Some el =>
      let n := daysSinceJ2000 date in
      let Lp := helioLon el n in
      let Le := helioLon EARTH_EL n in
      let gx := a el * cos Lp - a EARTH_EL * cos Le in
      let gy := a el * sin Lp - a EARTH_EL * sin Le in
      let lon := mod360 (toDeg (atan2 gy gx)) in
      let e := eclToEq lon n in
      Some {| SunState.ra := Equatorial.ra e;
              SunState.dec := Equatorial.dec e;
              SunState.lon := lon |}
  end.

Definition getNorthNode (date : Date) : SunState.t :=
  let n := daysSinceJ2000 date in
  let lon := mod360 (125.04 - 0.05295 * n) in
  let e := eclToEq lon n in
  {| SunState.ra := Equatorial.ra e;
     SunState.dec := Equatorial.dec e;
     SunState.lon := lon |}.

Definition getLilith (date : Date) : SunState.t :=
  let n := daysSinceJ2000 date in
  let lon := mod360 (45.0 + 360 / 3232.6 * n) in
  let e := eclToEq lon n in
  {| SunState.ra := Equatorial.ra e;
     SunState.dec := Equatorial.dec e;
     SunState.lon := lon |}.

Definition getChiron (date : Date) : SunState.t :=
  let n := daysSinceJ2000 date in
  let lon := mod360 (120.5 + 0.01945 * n) in
  let e := eclToEq lon n in
  {| SunState.ra := Equatorial.ra e;
     SunState.dec := Equatorial.dec e;
     SunState.lon := lon |}.

(** [{ tropical, astronomical, astroId, sun }] *)
Record FullResult := mkFullResult {
  tropical : Tropical.Sign;
  astronomical : option NameEntry;
  astroId : string;
  sun : SunState.t
}.

Definition getFullResult (date : Date) : FullResult :=
  let sun := getSunPosition date in
  let astroId := getZodiacConstellationAt (SunState.lon sun) in
  {| tropical := getTropicalSign date;
     astronomical := nameOf astroId;
     astroId := astroId;
     sun := sun |}.

End AstronomyMean.

(** ** unnamed/part_003 (astronomy-engine) *)

(** What the code calls on [window.Astronomy], a library outside the
    repository: the ecliptic coordinates of the Sun, geocentric vectors and
    their ecliptic coordinates, and the Moon's phase angle in degrees. *)
Record EclipticCoordinates := mkEcl { elon : R; elat : R }.

Record AstronomyLib := mkAstronomyLib {
  Vector : Type;
  SunPosition : Date -> EclipticCoordinates;
  GeoVector : string -> Date -> bool -> Vector;
  Ecliptic : Vector -> EclipticCoordinates;
  MoonPhase : Date -> R
}.

Module AstronomyEngine.
Import JsMath Zodiac.
Local Open Scope string_scope.
Local Open Scope R_scope.

Section WithLibrary.
Variable Astronomy : AstronomyLib.

(** [Date.UTC(2000, 0, 1, 12, 0, 0)] *)
Definition J2000_MS : Z := 946728000000.

Definition daysSinceJ2000 (date : Date) : R :=
  (IZR (getTime date) - IZR J2000_MS) / 86400000.

Definition eclToEq (lon lat : R) : Equatorial.t :=
  let eps := toRad 23.4393 in
  let lonR := toRad lon in
  let latR := toRad lat in
  let sinDec := sin latR * cos eps + cos latR * sin eps * sin lonR in
  let dec := toDeg (asin (Rmax (-1) (Rmin 1 sinDec))) in
  let ra := mod360 (toDeg (atan2 (sin lonR * cos eps - tan latR * sin eps)
                                 (cos lonR))) in
  {| Equatorial.ra := ra; Equatorial.dec := dec |}.

Definition getSunPosition (date : Date) : SunState.t :=
  let sp := SunPosition Astronomy date in
  let lon := elon sp in
  let e := eclToEq lon 0 in
  {| SunState.ra := Equatorial.ra e;
     SunState.dec := Equatorial.dec e;
     SunState.lon := lon |}.

Definition getMoon (date : Date) : MoonState.t :=
  let vec := GeoVector Astronomy "Moon" date false in
  let ecl := Ecliptic Astronomy vec in
  let e := eclToEq (elon ecl) (elat ecl) in
  let phase := mod360 (MoonPhase Astronomy date) / 360 in
  {| MoonState.ra := Equatorial.ra e;
     MoonState.dec := Equatorial.dec e;
     MoonState.phase := phase |}.

(** The value of the expression behind [sinAlt] in exact arithmetic. *)
Definition solarSinAlt (date : Date) (lat lon : R) : R :=
  let n := daysSinceJ2000 date in
  let dec := 23.45 * sin (toRad (mod360 (360 / 365 * (js_rem n 365 + 10)))) in
  let utcH := IZR (getUTCHours date) + IZR (getUTCMinutes date) / 60 in
  let ha := (utcH + lon / 15 - 12) * 15 in
  let latR := toRad lat in
  let decR := toRad dec in
  let haR := toRad ha in
  sin latR * sin decR + cos latR * cos decR * cos haR.

(** [getSolarAltAz(date, lat, lon)].  [err] is the rounding error of the
    floating-point evaluation of [sinAlt]: the number the code holds is the
    exact value plus [err].  When [latR] or [haR] is an infinity, [sinAlt]
    is [NaN], and so are the clamped value and the altitude.  A [NaN]
    altitude makes [cosAlt] [NaN], the comparison false and the azimuth
    0. *)
Definition getSolarAltAzWith (err : R) (date : Date) (lat lon : R) : AltAz.t :=
  let n := daysSinceJ2000 date in
  let dec := 23.45 * sin (toRad (mod360 (360 / 365 * (js_rem n 365 + 10)))) in
  let utcH := IZR (getUTCHours date) + IZR (getUTCMinutes date) / 60 in
  let ha := (utcH + lon / 15 - 12) * 15 in
  let decR := toRad dec in
  match toRadFinite lat, toRadFinite ha with
  | Some latR, Some haR =>
      let sinAlt :=
        sin latR * sin decR + cos latR * cos decR * cos haR + err in
      match Math_asin (Rmax (-1) (Rmin 1 sinAlt)) with
      | None => {| AltAz.altitude := None; AltAz.azimuth := 0 |}
      | Some asinAlt =>
          let altitude := toDeg asinAlt in
          let cosAlt := cos (toRad altitude) in
          let azimuth :=
            if Rgt_dec cosAlt 0.001 then
              let sinAz := cos decR * sin haR / cosAlt in
              let cosAz :=
                (sin decR - sin latR * sinAlt) / (cos latR * cosAlt) in
              mod360 (toDeg (atan2 sinAz cosAz))
            else 0 in
          {| AltAz.altitude := Some altitude; AltAz.azimuth := azimuth |}
      end
  | _, _ => {| AltAz.altitude := None; AltAz.azimuth := 0 |}
  end.

(** The function in exact arithmetic. *)
Definition getSolarAltAz (date : Date) (lat lon : R) : AltAz.t :=
  getSolarAltAzWith 0 date lat lon.


Definition PLANET_BODY : list (string * string) :=
  [ ("mercury", "Mercury"); ("venus", "Venus"); ("mars", "Mars");
    ("jupiter", "Jupiter"); ("saturn", "Saturn"); ("uranus", "Uranus");
    ("neptune", "Neptune") ].

Definition getPlanetPosition (planet : string) (date : Date)
  : option Equatorial.t :=
  match RenderingFull.lookup planet PLANET_BODY with
  | None => None
  | Some body =>
      let vec := GeoVector Astronomy body date false in
      let ecl := Ecliptic Astronomy vec in
      Some (eclToEq (elon ecl) (elat ecl))
  end.

Definition getNorthNode (date : Date) : SunState.t :=
  let n := daysSinceJ2000 date in
  let lon := mod360 (125.04 - 0.05295 * n) in
  let e := eclToEq lon 0 in
  {| SunState.ra := Equatorial.ra e;
     SunState.dec := Equatorial.dec e;
     SunState.lon := lon |}.

Definition getLilith (date : Date) : SunState.t :=
  let n := daysSinceJ2000 date in
  let lon := mod360 (45.0 + 360 / 3232.6 * n) in
  let e := eclToEq lon 0 in
  {| SunState.ra := Equatorial.ra e;
     SunState.dec := Equatorial.dec e;
     SunState.lon := lon |}.

Definition getChiron (date : Date) : SunState.t :=
  let n := daysSinceJ2000 date in
  let lon := mod360 (120.5 + 0.01945 * n) in
  let e := eclToEq lon 0 in
  {| SunState.ra := Equatorial.ra e;
     SunState.dec := Equatorial.dec e;
     SunState.lon := lon |}.

End WithLibrary.

Definition ZODIAC_BOUNDS : list Bound :=
  [ mkBound "Sgr" 266.3 300.0;
    mkBound "Cap" 300.0 327.0;
    mkBound "Aqr" 327.0 351.6;
    mkBound "Psc" 351.6 360.0;
    mkBound "Psc"   0.0  29.0;
    mkBound "Ari"  29.0  53.5;
    mkBound "Tau"  53.5  90.4;
    mkBound "Gem"  90.4 118.1;
    mkBound "Cnc" 118.1 138.1;
    mkBound "Leo" 138.1 174.1;
    mkBound "Vir" 174.1 217.8;
    mkBound "Lib" 217.8 241.0;
    mkBound "Sco" 241.0 247.7;
    mkBound "Oph" 247.7 266.3 ]%Q.

Definition getZodiacConstellation (eclipticLon : Q) : string :=
  match scan ZODIAC_BOUNDS eclipticLon with
  | Some i => i
  | None => "Sgr"
  end.

Definition getTropicalSign := Tropical.getTropicalSign.

Definition getZodiacConstellationAt (eclipticLon : R) : string :=
  match scanAt ZODIAC_BOUNDS eclipticLon with
  | Some i => i
  | None => "Sgr"
  end.

(** [{ tropical, astronomical, astroId, sun }] *)
Record FullResult := mkFullResult {
  tropical : Tropical.Sign;
  astronomical : option NameEntry;
  astroId : string;
  sun : SunState.t
}.

Definition getFullResult (Astronomy : AstronomyLib) (date : Date)
  : FullResult :=
  let sun := getSunPosition Astronomy date in
  let astroId := getZodiacConstellationAt (SunState.lon sun) in
  {| tropical := getTropicalSign date;
     astronomical := nameOf astroId;
     astroId := astroId;
     sun := sun |}.

End AstronomyEngine.

(** ** app.js *)

Module App.
Local Open Scope string_scope.

(** The planets [update] asks [getPlanetPosition] for. *)
Definition PLANET_KEYS : list string :=
  [ "mercury"; "venus"; "mars"; "jupiter"; "saturn"; "uranus"; "neptune" ].

End App.

(** ** scripts/filter-stars.js *)

Module FilterStars.
Local Open Scope string_scope.

Definition ZODIAC : list string :=
  [ "Cap"; "Aqr"; "Psc"; "Ari"; "Tau"; "Gem";
    "Cnc"; "Leo"; "Vir"; "Lib"; "Sco"; "Oph"; "Sgr" ].

Definition DEC_MIN : R := (-53)%R.
Definition DEC_MAX : R := 53%R.

(** [ZODIAC.includes(id)] *)
Definition includes (list : list string) (id : string) : bool :=
  existsb (String.eqb id) list.

(** The number a comparison makes of a value ([ToNumber]): the number
    itself, 0 for [null], [NaN] for [undefined]. *)
Inductive Numeric : Type :=
| NaN
| Num (r : R).

Definition ofNull : Numeric := Num 0.
Definition ofUndefined : Numeric := NaN.

(** [a >= b] and [a <= b] against a number: false on [NaN]. *)
Definition js_ge (a : Numeric) (b : R) : bool :=
  match a with
  | NaN => false
  | Num r => if Rge_dec r b then true else false
  end.

Definition js_le (a : Numeric) (b : R) : bool :=
  match a with
  | NaN => false
  | Num r => if Rle_dec r b then true else false
  end.

Section Features.
(** A GeoJSON feature, read through the two paths the script follows.
    [f.geometry.coordinates[1]] throws a [TypeError] when [geometry] or
    [coordinates] is missing ([None]); otherwise it finds a value, held here
    as the number the comparisons convert it to.  [f.id] is the id when it
    is a string. *)
Variable Feature : Type.
Variable coordinate1 : Feature -> option Numeric.
Variable featureId : Feature -> option string.

(** The callback [f => { const dec = f.geometry.coordinates[1]; return dec
    >= DEC_MIN && dec <= DEC_MAX; }]; [None] when it throws. *)
Definition keepStar (f : Feature) : option bool :=
  match coordinate1 f with
  | None => None
  | Some dec => Some (js_ge dec DEC_MIN && js_le dec DEC_MAX)
  end.

(** [allStars.filter(...)]: the features are tested in order, and an
    exception in the callback ends the filter (and the script) with no
    result. *)
Fixpoint filterStars (allStars : list Feature) : option (list Feature) :=
  match allStars with
  | [] => Some []
  | f :: rest =>
      match keepStar f with
      | None => None
      | Some keep =>
          match filterStars rest with
          | None => None
          | Some kept => Some (if keep then f :: kept else kept)
          end
      end
  end.

(** [allConst.filter(f => ZODIAC.includes(f.id))] *)
Definition keepConstellation (f : Feature) : bool :=
  match featureId f with
  | Some id => includes ZODIAC id
  | None => false
  end.

Definition filterConstellations (allConst : list Feature) : list Feature :=
  filter keepConstellation allConst.

End Features.

End FilterStars.

(** * Verification *)

(** ** Facts about the arithmetic *)

Section JsMathFacts.
Import JsMath.
Local Open Scope R_scope.

Lemma toRad_0 : toRad 0 = 0.
Proof. unfold toRad. lra. Qed.

Lemma toRad_minus_360 (d : R) : toRad (d - 360) = toRad d - 2 * PI.
Proof. unfold toRad. field. Qed.

Lemma toRad_plus_360 (d : R) : toRad (d + 360) = toRad d + 2 * PI.
Proof. unfold toRad. field. Qed.

Lemma cos_plus_2PI (a : R) : cos (a + 2 * PI) = cos a.
Proof. rewrite cos_plus, cos_2PI, sin_2PI. lra. Qed.

Lemma cos_minus_2PI (a : R) : cos (a - 2 * PI) = cos a.
Proof. rewrite cos_minus, cos_2PI, sin_2PI. lra. Qed.

Lemma sin_plus_2PI (a : R) : sin (a + 2 * PI) = sin a.
Proof. rewrite sin_plus, cos_2PI, sin_2PI. lra. Qed.

Lemma sin_minus_2PI (a : R) : sin (a - 2 * PI) = sin a.
Proof. rewrite sin_minus, cos_2PI, sin_2PI. lra. Qed.

End JsMathFacts.

(** ** Facts about the projection *)

Section ProjectionFacts.
Import JsMath ProjectionSpec.
Local Open Scope R_scope.

Lemma project_basic_closed (ra dec centerRA fov : R) :
  RenderingBasic.project ra dec centerRA fov
  = projectClosed ra dec centerRA.
Proof.
  unfold RenderingBasic.project, projectClosed, stereographic, cosDistOf.
  destruct (Rlt_dec _ _); reflexivity.
Qed.

(** Folding the right-ascension difference by one turn changes neither the
    cosine nor the sine that the projection reads. *)
Lemma project_full_closed (ra dec centerRA : R) :
  RenderingFull.project ra dec centerRA
  = projectClosed ra dec centerRA.
Proof.
  unfold RenderingFull.project, projectClosed, stereographic, cosDistOf.
  destruct (Rgt_dec (ra - centerRA) 180) as [Hhi | Hhi].
  - destruct (Rlt_dec (ra - centerRA - 360) (-180)) as [Hlo | Hlo].
    + replace (ra - centerRA - 360 + 360) with (ra - centerRA) by lra.
      reflexivity.
    + rewrite toRad_minus_360, cos_minus_2PI, sin_minus_2PI. reflexivity.
  - destruct (Rlt_dec (ra - centerRA) (-180)) as [Hlo | Hlo].
    + rewrite toRad_plus_360, cos_plus_2PI, sin_plus_2PI. reflexivity.
    + reflexivity.
Qed.

Lemma projectClosed_None (ra dec centerRA : R) :
  projectClosed ra dec centerRA = None <-> cosDistOf ra dec centerRA < -0.01.
Proof.
  unfold projectClosed. destruct (Rlt_dec _ _) as [H | H]; split; intro H0.
  - exact H.
  - reflexivity.
  - discriminate.
  - contradiction.
Qed.

Lemma projectClosed_Some (ra dec centerRA : R) :
  -0.01 <= cosDistOf ra dec centerRA ->
  projectClosed ra dec centerRA = Some (stereographic ra dec centerRA).
Proof.
  intro H. unfold projectClosed.
  destruct (Rlt_dec _ _) as [H0 | H0]; [lra | reflexivity].
Qed.

Lemma projectClosed_inv (ra dec centerRA : R) (p : Point.t) :
  projectClosed ra dec centerRA = Some p ->
  -0.01 <= cosDistOf ra dec centerRA /\ p = stereographic ra dec centerRA.
Proof.
  unfold projectClosed. destruct (Rlt_dec _ _) as [H | H]; intro E.
  - discriminate.
  - inversion E. split; [lra | reflexivity].
Qed.

Lemma cosDistOf_center (centerRA : R) : cosDistOf centerRA 0 centerRA = 1.
Proof.
  unfold cosDistOf. replace (centerRA - centerRA) with 0 by lra.
  rewrite toRad_0, cos_0. lra.
Qed.

Lemma stereographic_center (centerRA : R) :
  stereographic centerRA 0 centerRA = Point.mk 0 0.
Proof.
  unfold stereographic. rewrite cosDistOf_center.
  replace (centerRA - centerRA) with 0 by lra.
  rewrite toRad_0, sin_0, cos_0. f_equal; lra.
Qed.

Lemma projectClosed_center (centerRA : R) :
  projectClosed centerRA 0 centerRA = Some (Point.mk 0 0).
Proof.
  rewrite projectClosed_Some.
  - now rewrite stereographic_center.
  - rewrite cosDistOf_center. lra.
Qed.

(** The squared radius of a projected point. *)
Lemma stereographic_radius (ra dec centerRA : R) :
  1 + cosDistOf ra dec centerRA <> 0 ->
  Point.x (stereographic ra dec centerRA) * Point.x (stereographic ra dec centerRA)
  + Point.y (stereographic ra dec centerRA) * Point.y (stereographic ra dec centerRA)
  = (1 - cosDistOf ra dec centerRA) / (1 + cosDistOf ra dec centerRA).
Proof.
  intro Hd. unfold stereographic; cbn [Point.x Point.y]. unfold cosDistOf in *.
  set (cd := cos (toRad dec)) in *. set (sd := sin (toRad dec)).
  set (ca := cos (toRad (ra - centerRA))) in *.
  set (sa := sin (toRad (ra - centerRA))).
  assert (Hd2 : sd * sd + cd * cd = 1).
  { generalize (sin2_cos2 (toRad dec)). unfold Rsqr. tauto. }
  assert (Ha2 : sa * sa + ca * ca = 1).
  { generalize (sin2_cos2 (toRad (ra - centerRA))). unfold Rsqr. tauto. }
  assert (Hnum : cd * sa * (cd * sa) + sd * sd = (1 - cd * ca) * (1 + cd * ca)) by nra.
  field_simplify_eq; [ | exact Hd ].
  nra.
Qed.

Lemma radius_bound (c : R) : -0.01 <= c -> (1 - c) / (1 + c) <= 1.01 / 0.99.
Proof.
  intro H.
  apply Rmult_le_reg_r with (r := 1 + c); [lra | ].
  unfold Rdiv. rewrite Rmult_assoc, Rinv_l by lra. lra.
Qed.

(** C2. In both revisions [project] returns [null] exactly when
    [cosDist = cos(dec) * cos(ra - centerRA)] is below [-0.01]; from [-0.01]
    upward, the bound included, it returns the stereographic point, whose
    divisor [1 + cosDist] is at least [0.99]. *)
Theorem C2_project_visibility (ra dec centerRA fov : R) :
  let cosDist := cos (toRad dec) * cos (toRad (ra - centerRA)) in
  (RenderingFull.project ra dec centerRA = None <-> cosDist < -0.01)
  /\ (RenderingBasic.project ra dec centerRA fov = None <-> cosDist < -0.01)
  /\ (-0.01 <= cosDist ->
      0.99 <= 1 + cosDist
      /\ RenderingFull.project ra dec centerRA
         = Some (Point.mk (cos (toRad dec) * sin (toRad (ra - centerRA))
                           / (1 + cosDist))
                          (- sin (toRad dec) / (1 + cosDist)))
      /\ RenderingBasic.project ra dec centerRA fov
         = Some (Point.mk (cos (toRad dec) * sin (toRad (ra - centerRA))
                           / (1 + cosDist))
                          (- sin (toRad dec) / (1 + cosDist)))).
Proof.
  cbv zeta. rewrite project_full_closed, project_basic_closed.
  split; [ apply projectClosed_None | ].
  split; [ apply projectClosed_None | ].
  intro H. split; [ lra | ].
  split; exact (projectClosed_Some ra dec centerRA H).
Qed.

Lemma C2_project_visibility_witness :
  0.99 <= 1 + cos (toRad 0) * cos (toRad (0 - 0))
  /\ RenderingFull.project 0 0 0
     = Some (Point.mk (cos (toRad 0) * sin (toRad (0 - 0))
                       / (1 + cos (toRad 0) * cos (toRad (0 - 0))))
                      (- sin (toRad 0)
                       / (1 + cos (toRad 0) * cos (toRad (0 - 0)))))
  /\ RenderingBasic.project 0 0 0 180
     = Some (Point.mk (cos (toRad 0) * sin (toRad (0 - 0))
                       / (1 + cos (toRad 0) * cos (toRad (0 - 0))))
                      (- sin (toRad 0)
                       / (1 + cos (toRad 0) * cos (toRad (0 - 0))))).
Proof.
  apply (proj2 (proj2 (C2_project_visibility 0 0 0 180))).
  replace (0 - 0) with 0 by lra. rewrite toRad_0, cos_0. lra.
Defined.

(** C6. The view centre projects to the origin: [project(centerRA, 0,
    centerRA)] is [{ x: 0, y: 0 }] for every [centerRA], in both
    revisions. *)
Theorem C6_center_projects_to_origin (centerRA fov : R) :
  RenderingFull.project centerRA 0 centerRA = Some (Point.mk 0 0)
  /\ RenderingBasic.project centerRA 0 centerRA fov = Some (Point.mk 0 0).
Proof.
  rewrite project_full_closed, project_basic_closed.
  split; apply projectClosed_center.
Qed.

Lemma coordinate_bound (a b : R) :
  a * a + b * b <= 1.01 / 0.99 -> Rabs a <= 1.011.
Proof.
  intro H. assert (Hc : 1.01 / 0.99 < 1.011 * 1.011) by lra.
  apply Rabs_le. split; nra.
Qed.



End ProjectionFacts.

(** ** Zodiac constellation lookup *)

Section ZodiacFacts.
Import Zodiac.
Local Open Scope string_scope.
Local Open Scope list_scope.
Local Open Scope Q_scope.

Lemma inBound_spec (lon : Q) (z : Bound) :
  inBound lon z = true <-> from z <= lon /\ lon < to z.
Proof.
  unfold inBound, geb, ltb.
  rewrite andb_true_iff, negb_true_iff, Qle_bool_iff.
  split; intros [H1 H2]; split; try assumption.
  - apply Qnot_le_lt. rewrite <- Qle_bool_iff. now rewrite H2.
  - destruct (Qle_bool (to z) lon) eqn:E; [ | reflexivity ].
    apply Qle_bool_iff in E. apply Qle_not_lt in E. contradiction.
Qed.

Lemma inBound_true (lon : Q) (z : Bound) :
  from z <= lon /\ lon < to z -> inBound lon z = true.
Proof. apply inBound_spec. Qed.

Lemma inBound_false (lon : Q) (z : Bound) :
  lon < from z \/ to z <= lon -> inBound lon z = false.
Proof.
  intro H. destruct (inBound lon z) eqn:E; [ | reflexivity ].
  apply inBound_spec in E. destruct E as [E1 E2].
  destruct H as [H | H].
  - apply Qle_not_lt in E1. contradiction.
  - apply Qle_not_lt in H. contradiction.
Qed.

(** The scan returns the [id] of the first matching row. *)
Lemma scan_matching (table : list Bound) (lon : Q) :
  scan table lon = option_map id (hd_error (matching table lon)).
Proof.
  unfold matching. induction table as [ | z rest IH]; cbn [scan filter].
  - reflexivity.
  - destruct (inBound lon z); [ reflexivity | exact IH ].
Qed.

Lemma matching_app (t1 t2 : list Bound) (lon : Q) :
  matching (t1 ++ t2) lon = matching t1 lon ++ matching t2 lon.
Proof. unfold matching. apply filter_app. Qed.

Lemma chain_le (table : list Bound) :
  forall lo hi, chain lo table hi -> lo <= hi.
Proof.
  induction table as [ | z rest IH]; cbn [chain]; intros lo hi H.
  - lra.
  - destruct H as (_ & Hlt & Hrest). apply IH in Hrest. lra.
Qed.

Lemma chain_below (table : list Bound) (lon : Q) :
  forall lo hi, chain lo table hi -> lon < lo -> matching table lon = [].
Proof.
  unfold matching.
  induction table as [ | z rest IH]; cbn [chain filter]; intros lo hi H Hlon.
  - reflexivity.
  - destruct H as (Hfrom & Hlt & Hrest).
    rewrite inBound_false by (left; lra).
    apply (IH _ _ Hrest). lra.
Qed.

Lemma chain_above (table : list Bound) (lon : Q) :
  forall lo hi, chain lo table hi -> hi <= lon -> matching table lon = [].
Proof.
  unfold matching.
  induction table as [ | z rest IH]; cbn [chain filter]; intros lo hi H Hlon.
  - reflexivity.
  - destruct H as (Hfrom & Hlt & Hrest).
    pose proof (chain_le _ _ _ Hrest) as Hle.
    rewrite inBound_false by (right; lra).
    apply (IH _ _ Hrest). exact Hlon.
Qed.

(** Inside a chain exactly one row matches. *)
Lemma chain_inside (table : list Bound) (lon : Q) :
  forall lo hi, chain lo table hi -> lo <= lon -> lon < hi ->
  exists z, matching table lon = [z] /\ In z table.
Proof.
  induction table as [ | z rest IH]; cbn [chain]; intros lo hi H Hlo Hhi.
  - lra.
  - destruct H as (Hfrom & Hlt & Hrest).
    unfold matching; cbn [filter]; fold (matching rest lon).
    destruct (Qlt_le_dec lon (to z)) as [Hin | Hout].
    + rewrite inBound_true by (split; lra).
      rewrite (chain_below _ _ _ _ Hrest Hin).
      exists z. split; [ reflexivity | now left ].
    + rewrite inBound_false by (right; lra).
      destruct (IH _ _ Hrest Hout Hhi) as (z' & Hm & Hz').
      exists z'. split; [ exact Hm | now right ].
Qed.

Lemma idsKnown_In (table : list Bound) (z : Bound) :
  idsKnown table = true -> In z table -> In (id z) CONSTELLATION_CODES.
Proof.
  unfold idsKnown. rewrite forallb_forall. intros H Hz.
  apply H in Hz. apply existsb_exists in Hz.
  destruct Hz as (c & Hc & E). apply String.eqb_eq in E. now subst c.
Qed.

(** A table made of a chain from [mid] up to 360 followed by a chain from 0
    up to [mid] tiles [[0, 360)]. *)
Lemma two_chains_tile (upper lower : list Bound) (mid lon : Q) :
  chain mid upper 360 -> chain 0 lower mid ->
  idsKnown (upper ++ lower) = true ->
  0 <= lon /\ lon < 360 -> oneRow (upper ++ lower) lon.
Proof.
  intros Hu Hl Hids [H0 H360]. unfold oneRow. rewrite matching_app.
  destruct (Qlt_le_dec lon mid) as [Hlow | Hup].
  - rewrite (chain_below _ _ _ _ Hu Hlow). cbn [app].
    destruct (chain_inside _ _ _ _ Hl H0 Hlow) as (z & Hm & Hz).
    exists z. split; [ exact Hm | ].
    apply (idsKnown_In _ _ Hids). apply in_or_app. now right.
  - rewrite (chain_above _ _ _ _ Hl Hup). rewrite app_nil_r.
    destruct (chain_inside _ _ _ _ Hu Hup H360) as (z & Hm & Hz).
    exists z. split; [ exact Hm | ].
    apply (idsKnown_In _ _ Hids). apply in_or_app. now left.
Qed.

Lemma two_chains_outside (upper lower : list Bound) (mid lon : Q) :
  chain mid upper 360 -> chain 0 lower mid ->
  lon < 0 \/ 360 <= lon -> matching (upper ++ lower) lon = [].
Proof.
  intros Hu Hl H. rewrite matching_app.
  pose proof (chain_le _ _ _ Hu). pose proof (chain_le _ _ _ Hl).
  destruct H as [H | H].
  - rewrite (chain_below _ _ _ _ Hu) by lra.
    rewrite (chain_below _ _ _ _ Hl) by lra. reflexivity.
  - rewrite (chain_above _ _ _ _ Hu) by lra.
    rewrite (chain_above _ _ _ _ Hl) by lra. reflexivity.
Qed.

Ltac chain_rows := cbn [chain from to]; repeat split; lra.

(** src/src/astronomy.js: rows from 300 to 360, then rows from 0 to 300. *)
Lemma basic_upper :
  chain 300 (firstn 3 AstronomyBasic.ZODIAC_BOUNDARIES) 360.
Proof. cbn [firstn AstronomyBasic.ZODIAC_BOUNDARIES]. chain_rows. Qed.

Lemma basic_lower :
  chain 0 (skipn 3 AstronomyBasic.ZODIAC_BOUNDARIES) 300.
Proof. cbn [skipn AstronomyBasic.ZODIAC_BOUNDARIES]. chain_rows. Qed.

Lemma basic_table_tiles (lon : Q) :
  0 <= lon /\ lon < 360 -> oneRow AstronomyBasic.ZODIAC_BOUNDARIES lon.
Proof.
  rewrite <- (firstn_skipn 3 AstronomyBasic.ZODIAC_BOUNDARIES).
  apply (two_chains_tile _ _ 300 lon basic_upper basic_lower).
  reflexivity.
Qed.

Lemma basic_table_outside (lon : Q) :
  lon < 0 \/ 360 <= lon -> matching AstronomyBasic.ZODIAC_BOUNDARIES lon = [].
Proof.
  rewrite <- (firstn_skipn 3 AstronomyBasic.ZODIAC_BOUNDARIES).
  apply (two_chains_outside _ _ 300 lon basic_upper basic_lower).
Qed.

(** unnamed/part_002 and part_003: rows from 266.3 to 360, then rows from 0
    to 266.3. *)
Lemma mean_upper :
  chain 266.3 (firstn 4 AstronomyMean.ZODIAC_BOUNDS) 360.
Proof. cbn [firstn AstronomyMean.ZODIAC_BOUNDS]. chain_rows. Qed.

Lemma mean_lower :
  chain 0 (skipn 4 AstronomyMean.ZODIAC_BOUNDS) 266.3.
Proof. cbn [skipn AstronomyMean.ZODIAC_BOUNDS]. chain_rows. Qed.

Lemma mean_table_tiles (lon : Q) :
  0 <= lon /\ lon < 360 -> oneRow AstronomyMean.ZODIAC_BOUNDS lon.
Proof.
  rewrite <- (firstn_skipn 4 AstronomyMean.ZODIAC_BOUNDS).
  apply (two_chains_tile _ _ 266.3 lon mean_upper mean_lower).
  reflexivity.
Qed.

Lemma mean_table_outside (lon : Q) :
  lon < 0 \/ 360 <= lon -> matching AstronomyMean.ZODIAC_BOUNDS lon = [].
Proof.
  rewrite <- (firstn_skipn 4 AstronomyMean.ZODIAC_BOUNDS).
  apply (two_chains_outside _ _ 266.3 lon mean_upper mean_lower).
Qed.

Lemma engine_table_same :
  AstronomyEngine.ZODIAC_BOUNDS = AstronomyMean.ZODIAC_BOUNDS.
Proof. reflexivity. Qed.

End ZodiacFacts.

Section ZodiacClaims.
Import Zodiac.
Local Open Scope string_scope.
Local Open Scope list_scope.
Local Open Scope Q_scope.

Lemma lookup_of_oneRow (table : list Bound) (lon : Q) :
  oneRow table lon ->
  exists z, matching table lon = [z]
            /\ scan table lon = Some (id z)
            /\ In (id z) CONSTELLATION_CODES.
Proof.
  intros (z & Hm & Hz). exists z. repeat split; try assumption.
  rewrite scan_matching, Hm. reflexivity.
Qed.

Lemma lookup_basic (lon : Q) :
  0 <= lon /\ lon < 360 ->
  uniqueRow AstronomyBasic.ZODIAC_BOUNDARIES
            AstronomyBasic.getZodiacConstellation lon.
Proof.
  intro H. destruct (lookup_of_oneRow _ _ (basic_table_tiles lon H))
    as (z & Hm & Hs & Hz).
  exists z. unfold AstronomyBasic.getZodiacConstellation. rewrite Hs. tauto.
Qed.

Lemma lookup_mean (lon : Q) :
  0 <= lon /\ lon < 360 ->
  uniqueRow AstronomyMean.ZODIAC_BOUNDS
            AstronomyMean.getZodiacConstellation lon.
Proof.
  intro H. destruct (lookup_of_oneRow _ _ (mean_table_tiles lon H))
    as (z & Hm & Hs & Hz).
  exists z. unfold AstronomyMean.getZodiacConstellation. rewrite Hs. tauto.
Qed.

Lemma lookup_engine (lon : Q) :
  0 <= lon /\ lon < 360 ->
  uniqueRow AstronomyEngine.ZODIAC_BOUNDS
            AstronomyEngine.getZodiacConstellation lon.
Proof. exact (lookup_mean lon). Qed.

(** C1. Zodiac lookup is total and unambiguous on [[0, 360)]: in each of the
    three revisions of the 14-row table exactly one row holds the longitude,
    [getZodiacConstellation] returns the [id] of that row, and the [id] is
    one of the 13 constellation codes; outside [[0, 360)] no row holds the
    longitude, so the rows are disjoint and their union is [[0, 360)].  At the
    boundary, 300.0 is in Capricornus and 299.999 still in Sagittarius. *)
Theorem C1_zodiac_lookup_total :
  (forall lon : Q, 0 <= lon /\ lon < 360 ->
     uniqueRow AstronomyBasic.ZODIAC_BOUNDARIES
               AstronomyBasic.getZodiacConstellation lon
     /\ uniqueRow AstronomyMean.ZODIAC_BOUNDS
                  AstronomyMean.getZodiacConstellation lon
     /\ uniqueRow AstronomyEngine.ZODIAC_BOUNDS
                  AstronomyEngine.getZodiacConstellation lon)
  /\ (forall lon : Q, lon < 0 \/ 360 <= lon ->
        matching AstronomyBasic.ZODIAC_BOUNDARIES lon = []
        /\ matching AstronomyMean.ZODIAC_BOUNDS lon = []
        /\ matching AstronomyEngine.ZODIAC_BOUNDS lon = [])
  /\ (List.length AstronomyBasic.ZODIAC_BOUNDARIES = 14
      /\ List.length AstronomyMean.ZODIAC_BOUNDS = 14
      /\ List.length AstronomyEngine.ZODIAC_BOUNDS = 14
      /\ List.length CONSTELLATION_CODES = 13
      /\ NoDup CONSTELLATION_CODES)%nat
  /\ (AstronomyBasic.getZodiacConstellation 300.0 = "Cap"
      /\ AstronomyMean.getZodiacConstellation 300.0 = "Cap"
      /\ AstronomyEngine.getZodiacConstellation 300.0 = "Cap")
  /\ (AstronomyBasic.getZodiacConstellation 299.999 = "Sgr"
      /\ AstronomyMean.getZodiacConstellation 299.999 = "Sgr"
      /\ AstronomyEngine.getZodiacConstellation 299.999 = "Sgr").
Proof.
  split; [ | split; [ | split; [ | split ] ] ].
  - intros lon H. split; [ | split ].
    + exact (lookup_basic lon H).
    + exact (lookup_mean lon H).
    + exact (lookup_engine lon H).
  - intros lon H. split; [ | split ].
    + exact (basic_table_outside lon H).
    + exact (mean_table_outside lon H).
    + exact (mean_table_outside lon H).
  - repeat split; try reflexivity.
    unfold CONSTELLATION_CODES.
    repeat (constructor; [ cbn; intuition discriminate | ]). constructor.
  - repeat split; reflexivity.
  - repeat split; reflexivity.
Qed.

Lemma C1_zodiac_lookup_total_witness :
  uniqueRow AstronomyEngine.ZODIAC_BOUNDS
            AstronomyEngine.getZodiacConstellation 123.4.
Proof.
  apply (proj1 C1_zodiac_lookup_total 123.4).
  split; [ discriminate | reflexivity ].
Defined.

(** C7, as the code has it: when no row matches, every revision returns the
    fixed code ["Sgr"].  That is the [id] of the last row of the table of
    src/src/astronomy.js; the later revisions moved the Sagittarius row to
    the front of the table, and there ["Sgr"] is the [id] of the first row. *)
Theorem C7_fallback_is_Sgr (lon : Q) :
  (matching AstronomyBasic.ZODIAC_BOUNDARIES lon = [] ->
     AstronomyBasic.getZodiacConstellation lon = "Sgr")
  /\ (matching AstronomyMean.ZODIAC_BOUNDS lon = [] ->
        AstronomyMean.getZodiacConstellation lon = "Sgr")
  /\ (matching AstronomyEngine.ZODIAC_BOUNDS lon = [] ->
        AstronomyEngine.getZodiacConstellation lon = "Sgr")
  /\ lastId AstronomyBasic.ZODIAC_BOUNDARIES = "Sgr"
  /\ firstId AstronomyMean.ZODIAC_BOUNDS = "Sgr"
  /\ firstId AstronomyEngine.ZODIAC_BOUNDS = "Sgr".
Proof.
  unfold AstronomyBasic.getZodiacConstellation,
    AstronomyMean.getZodiacConstellation,
    AstronomyEngine.getZodiacConstellation.
  rewrite !scan_matching.
  repeat split; try reflexivity; intro H; rewrite H; reflexivity.
Qed.

Lemma C7_fallback_is_Sgr_witness :
  AstronomyBasic.getZodiacConstellation 360 = "Sgr"
  /\ AstronomyMean.getZodiacConstellation (-1) = "Sgr"
  /\ AstronomyEngine.getZodiacConstellation 360 = "Sgr".
Proof.
  split; [ | split ].
  - apply (proj1 (C7_fallback_is_Sgr 360)). reflexivity.
  - apply (proj1 (proj2 (C7_fallback_is_Sgr (-1)))). reflexivity.
  - apply (proj1 (proj2 (proj2 (C7_fallback_is_Sgr 360)))). reflexivity.
Defined.

(** C7, as stated, fails on the later revisions: at longitude 360 no row of
    the table matches, the last row is Ophiuchus, and the function returns
    ["Sgr"]. *)
Lemma C7_last_entry_counterexample :
  matching AstronomyEngine.ZODIAC_BOUNDS 360 = []
  /\ lastId AstronomyEngine.ZODIAC_BOUNDS = "Oph"
  /\ AstronomyEngine.getZodiacConstellation 360 = "Sgr"
  /\ AstronomyEngine.getZodiacConstellation 360
     <> lastId AstronomyEngine.ZODIAC_BOUNDS
  /\ matching AstronomyMean.ZODIAC_BOUNDS 360 = []
  /\ AstronomyMean.getZodiacConstellation 360
     <> lastId AstronomyMean.ZODIAC_BOUNDS.
Proof. repeat split; try reflexivity; discriminate. Qed.

(** The lookup at a few longitudes, across the wrap at 0 and at the row
    boundaries. *)
Example zodiac_samples :
  AstronomyEngine.getZodiacConstellation 0 = "Psc"
  /\ AstronomyEngine.getZodiacConstellation 359.9 = "Psc"
  /\ AstronomyEngine.getZodiacConstellation 28.999 = "Psc"
  /\ AstronomyEngine.getZodiacConstellation 29 = "Ari"
  /\ AstronomyEngine.getZodiacConstellation 247.7 = "Oph"
  /\ AstronomyEngine.getZodiacConstellation 266.3 = "Sgr"
  /\ AstronomyBasic.getZodiacConstellation 280.46 = "Sgr"
  /\ AstronomyBasic.getZodiacConstellation 351.6 = "Psc".
Proof. repeat split; reflexivity. Qed.

End ZodiacClaims.

(** ** Tropical sign lookup *)

Section TropicalFacts.
Import Tropical.
Local Open Scope string_scope.
Local Open Scope Z_scope.

(** The first row of the table is the one range that wraps over the year
    boundary; its test takes the wrap-aware branch. *)
Lemma capricorn_wraps (m d : Z) :
  inRange m d (mkSign "Capricorn" "♑" (12, 22) (1, 19))
  = ((m =? 12) && (d >=? 22)) || ((m =? 1) && (d <=? 19))
    || (m >? 12) || (m <? 1).
Proof. reflexivity. Qed.

Ltac split_days :=
  repeat match goal with
  | |- context [ ?d >=? ?k ] => destruct (Z.geb_spec d k)
  | |- context [ ?d <=? ?k ] => destruct (Z.leb_spec d k)
  end.

(** For a month in 1..12, the scan stops at the Capricorn row exactly on
    Dec 22 and later and on Jan 19 and earlier. *)
Lemma scan_capricorn (m d : Z) :
  1 <= m <= 12 ->
  (option_map name (scan TROPICAL m d) = Some "Capricorn"
   <-> (m = 12 /\ 22 <= d) \/ (m = 1 /\ d <= 19)).
Proof.
  intro Hm.
  assert (Hc : m = 1 \/ m = 2 \/ m = 3 \/ m = 4 \/ m = 5 \/ m = 6 \/ m = 7
               \/ m = 8 \/ m = 9 \/ m = 10 \/ m = 11 \/ m = 12) by lia.
  repeat (destruct Hc as [Hc | Hc]); subst m;
    cbn [scan TROPICAL inRange from to Z.eqb Z.gtb Z.ltb Z.compare
         Pos.compare Pos.compare_cont Pos.eqb andb orb];
    split_days; cbn [option_map name andb orb];
    (split; [ intro Hside; first [ discriminate Hside | lia ]
            | intro Hside; first [ reflexivity | exfalso; lia ] ]).
Qed.

(** Every month of 1..12 and every day is in some range: the fallback after
    the loop is not reached. *)
Lemma scan_total (m d : Z) :
  1 <= m <= 12 -> exists s, scan TROPICAL m d = Some s /\ In s TROPICAL.
Proof.
  intro Hm.
  assert (Hc : m = 1 \/ m = 2 \/ m = 3 \/ m = 4 \/ m = 5 \/ m = 6 \/ m = 7
               \/ m = 8 \/ m = 9 \/ m = 10 \/ m = 11 \/ m = 12) by lia.
  repeat (destruct Hc as [Hc | Hc]); subst m;
    cbn [scan TROPICAL inRange from to Z.eqb Z.gtb Z.ltb Z.compare
         Pos.compare Pos.compare_cont Pos.eqb andb orb];
    split_days; cbn [andb orb];
    first
      [ exfalso; lia
      | eexists; split;
        [ reflexivity
        | unfold TROPICAL; cbn [In];
          repeat (first [ left; reflexivity | right ]) ] ].
Qed.

(** C3. [getTropicalSign] applies the date-range table with the wrap-aware
    comparison on the range that crosses the year boundary: Dec 25 and
    Jan 10 are Capricorn, Jan 20 is Aquarius; and for any date the result is
    Capricorn exactly from Dec 22 through Jan 19. *)
Theorem C3_tropical_sign_wrap :
  (forall t h mi, name (getTropicalSign (mkDate t 11 25 h mi)) = "Capricorn")
  /\ (forall t h mi, name (getTropicalSign (mkDate t 0 10 h mi)) = "Capricorn")
  /\ (forall t h mi, name (getTropicalSign (mkDate t 0 20 h mi)) = "Aquarius")
  /\ (forall date : Date,
        1 <= getUTCMonth date + 1 <= 12 ->
        (name (getTropicalSign date) = "Capricorn"
         <-> (getUTCMonth date + 1 = 12 /\ 22 <= getUTCDate date)
             \/ (getUTCMonth date + 1 = 1 /\ getUTCDate date <= 19)))
  /\ AstronomyBasic.getTropicalSign = getTropicalSign
  /\ AstronomyMean.getTropicalSign = getTropicalSign
  /\ AstronomyEngine.getTropicalSign = getTropicalSign.
Proof.
  split; [ reflexivity | ]. split; [ reflexivity | ].
  split; [ reflexivity | ]. split; [ | repeat split ].
  intros date Hm. split; intro H.
  - unfold getTropicalSign in H.
    destruct (scan_total _ (getUTCDate date) Hm) as (s & Hs & _).
    rewrite Hs in H. apply (scan_capricorn _ (getUTCDate date) Hm).
    rewrite Hs. cbn [option_map]. now rewrite H.
  - apply (scan_capricorn _ (getUTCDate date) Hm) in H.
    unfold getTropicalSign.
    destruct (scan TROPICAL _ _) as [s | ]; cbn [option_map] in H.
    + now inversion H.
    + discriminate H.
Qed.

(** The first and the last day of a few signs. *)
Example tropical_samples :
  name (getTropicalSign (mkDate 0 11 21 0 0)) = "Sagittarius"
  /\ name (getTropicalSign (mkDate 0 11 22 0 0)) = "Capricorn"
  /\ name (getTropicalSign (mkDate 0 0 19 0 0)) = "Capricorn"
  /\ name (getTropicalSign (mkDate 0 1 18 0 0)) = "Aquarius"
  /\ name (getTropicalSign (mkDate 0 1 19 0 0)) = "Pisces"
  /\ name (getTropicalSign (mkDate 0 6 22 0 0)) = "Cancer"
  /\ name (getTropicalSign (mkDate 0 6 23 0 0)) = "Leo".
Proof. repeat split; reflexivity. Qed.

Lemma C3_tropical_sign_wrap_witness :
  name (getTropicalSign (mkDate 1766620800000 11 25 0 0)) = "Capricorn".
Proof.
  apply (proj1 (proj2 (proj2 (proj2 C3_tropical_sign_wrap)))
           (mkDate 1766620800000 11 25 0 0)).
  - cbn. lia.
  - left. cbn. lia.
Defined.

End TropicalFacts.

(** ** The remainder operator and angle normalisation *)

Section RemainderFacts.
Import JsMath.
Local Open Scope R_scope.

(** Rounding toward zero leaves a fraction on the side of the number. *)
Lemma Rtrunc_nonneg (r : R) :
  0 <= r -> 0 <= r - IZR (Rtrunc r) < 1.
Proof.
  intro H. unfold Rtrunc. destruct (Rle_dec 0 r) as [_ | N]; [ | contradiction ].
  destruct (base_Int_part r). lra.
Qed.

Lemma Rtrunc_neg (r : R) :
  r < 0 -> -1 < r - IZR (Rtrunc r) <= 0.
Proof.
  intro H. unfold Rtrunc. destruct (Rle_dec 0 r) as [P | _]; [ lra | ].
  rewrite opp_IZR. destruct (base_Int_part (- r)). lra.
Qed.

Lemma js_rem_fraction (a b : R) :
  b <> 0 -> js_rem a b = b * (a / b - IZR (Rtrunc (a / b))).
Proof. intro Hb. unfold js_rem. field. exact Hb. Qed.

(** A non-negative dividend leaves a remainder in [[0, b)]. *)
Lemma js_rem_nonneg (a b : R) :
  0 < b -> 0 <= a -> 0 <= js_rem a b < b.
Proof.
  intros Hb Ha. rewrite js_rem_fraction by lra.
  assert (Hq : 0 <= a / b).
  { unfold Rdiv. apply Rmult_le_pos; [ exact Ha | ].
    left. now apply Rinv_0_lt_compat. }
  pose proof (Rtrunc_nonneg _ Hq) as Hf. nra.
Qed.

(** A negative dividend leaves a remainder in [(-b, 0]]. *)
Lemma js_rem_neg (a b : R) :
  0 < b -> a < 0 -> - b < js_rem a b <= 0.
Proof.
  intros Hb Ha. rewrite js_rem_fraction by lra.
  assert (Hq : a / b < 0).
  { unfold Rdiv. replace 0 with (0 * / b) by ring.
    apply Rmult_lt_compat_r; [ now apply Rinv_0_lt_compat | exact Ha ]. }
  pose proof (Rtrunc_neg _ Hq) as Hf. nra.
Qed.

Lemma js_rem_abs (a b : R) : 0 < b -> - b < js_rem a b < b.
Proof.
  intro Hb. destruct (Rle_lt_dec 0 a) as [Ha | Ha].
  - pose proof (js_rem_nonneg a b Hb Ha). lra.
  - pose proof (js_rem_neg a b Hb Ha). lra.
Qed.

(** [((d % 360) + 360) % 360] lies in [[0, 360)] whatever [d] is. *)
Lemma double_rem_range (d : R) :
  0 <= js_rem (js_rem d 360 + 360) 360 < 360.
Proof.
  apply js_rem_nonneg; [ lra | ].
  pose proof (js_rem_abs d 360). lra.
Qed.

Lemma mod360_range (d : R) : 0 <= mod360 d < 360.
Proof. apply double_rem_range. Qed.

(** Degrees of an angle between a quarter turn down and a quarter turn up. *)
Lemma toDeg_quarter (r : R) :
  - (PI / 2) <= r <= PI / 2 -> -90 <= toDeg r <= 90.
Proof.
  intros [Hlo Hhi]. unfold toDeg. pose proof PI_RGT_0 as Hpi.
  split.
  - apply Rmult_le_reg_r with (r := PI); [ exact Hpi | ].
    unfold Rdiv. rewrite Rmult_assoc, Rinv_l by lra. lra.
  - apply Rmult_le_reg_r with (r := PI); [ exact Hpi | ].
    unfold Rdiv. rewrite Rmult_assoc, Rinv_l by lra. lra.
Qed.

Lemma toDeg_asin_range (v : R) : -90 <= toDeg (asin v) <= 90.
Proof. apply toDeg_quarter. apply asin_bound. Qed.

End RemainderFacts.

(** ** Moon phase and solar altitude *)

Section AstronomyClaims.
Import JsMath.
Local Open Scope R_scope.

Lemma mean_phase_range (date : Date) :
  0 <= MoonState.phase (AstronomyMean.getMoon date) < 1.
Proof.
  unfold AstronomyMean.getMoon; cbn [MoonState.phase].
  set (days := (IZR (getTime date) - IZR AstronomyMean.knownNew) / 86400000).
  pose proof (js_rem_abs days 29.53058867 ltac:(lra)) as [Hlo Hhi].
  assert (Hq : -1 < js_rem days 29.53058867 / 29.53058867 < 1).
  { split.
    - apply Rmult_lt_reg_r with (r := 29.53058867); [ lra | ].
      unfold Rdiv. rewrite Rmult_assoc, Rinv_l by lra. lra.
    - apply Rmult_lt_reg_r with (r := 29.53058867); [ lra | ].
      unfold Rdiv. rewrite Rmult_assoc, Rinv_l by lra. lra. }
  destruct (Rlt_dec _ 0) as [Hneg | Hpos]; lra.
Qed.

Lemma engine_phase_range (Astronomy : AstronomyLib) (date : Date) :
  0 <= MoonState.phase (AstronomyEngine.getMoon Astronomy date) < 1.
Proof.
  unfold AstronomyEngine.getMoon; cbn [MoonState.phase].
  pose proof (mod360_range (MoonPhase Astronomy date)) as [Hlo Hhi].
  lra.
Qed.

(** C4. The phase returned by [getMoon] lies in [[0, 1)] for every instant,
    before the reference new moon as well as after it, in the mean-element
    revision and, whatever angle the ephemeris library reports, in the
    astronomy-engine revision. *)
Theorem C4_moon_phase_range :
  (forall date : Date,
     0 <= MoonState.phase (AstronomyMean.getMoon date) < 1)
  /\ (forall (Astronomy : AstronomyLib) (date : Date),
        0 <= MoonState.phase (AstronomyEngine.getMoon Astronomy date) < 1).
Proof. split; [ exact mean_phase_range | exact engine_phase_range ]. Qed.

Lemma clamp_range (v : R) : -1 <= Rmax (-1) (Rmin 1 v) <= 1.
Proof.
  split.
  - apply Rmax_l.
  - apply Rmax_lub; [ lra | apply Rmin_l ].
Qed.

Lemma Math_asin_clamped (v : R) :
  Math_asin (Rmax (-1) (Rmin 1 v)) = Some (asin (Rmax (-1) (Rmin 1 v))).
Proof.
  unfold Math_asin. destruct (clamp_range v) as [Hlo Hhi].
  destruct (Rle_dec (-1) (Rmax (-1) (Rmin 1 v))); [ | contradiction ].
  destruct (Rle_dec (Rmax (-1) (Rmin 1 v)) 1); [ reflexivity | contradiction ].
Qed.

Lemma Math_asin_outside (v : R) : v < -1 \/ 1 < v -> Math_asin v = None.
Proof.
  intro H. unfold Math_asin.
  destruct (Rle_dec (-1) v); [ | reflexivity ].
  destruct (Rle_dec v 1); [ lra | reflexivity ].
Qed.

Lemma toRad_toDeg (r : R) : toRad (toDeg r) = r.
Proof. unfold toRad, toDeg. field. apply PI_neq0. Qed.

Lemma clamp_above (v : R) : 1 < v -> Rmax (-1) (Rmin 1 v) = 1.
Proof.
  intro H. rewrite Rmin_left by lra. apply Rmax_right. lra.
Qed.

Lemma clamp_below (v : R) : v < -1 -> Rmax (-1) (Rmin 1 v) = -1.
Proof.
  intro H. rewrite Rmin_right by lra. apply Rmax_left. lra.
Qed.

Lemma toDeg_asin_1 : toDeg (asin 1) = 90.
Proof. rewrite asin_1. unfold toDeg. field. apply PI_neq0. Qed.

Lemma toDeg_asin_minus_1 : toDeg (asin (-1)) = -90.
Proof.
  replace (-1) with (Ropp 1) by lra.
  rewrite asin_opp, asin_1. unfold toDeg. field. apply PI_neq0.
Qed.

(** What the altitude lines of [getSolarAltAz] make of a value [v] of
    [sinAlt]. *)
Lemma clamped_altitude (v : R) :
  -90 <= toDeg (asin (Rmax (-1) (Rmin 1 v))) <= 90
  /\ sin (toRad (toDeg (asin (Rmax (-1) (Rmin 1 v)))))
     = Rmax (-1) (Rmin 1 v)
  /\ (1 < v -> toDeg (asin (Rmax (-1) (Rmin 1 v))) = 90)
  /\ (v < -1 -> toDeg (asin (Rmax (-1) (Rmin 1 v))) = -90).
Proof.
  split; [ apply toDeg_asin_range | ].
  split; [ rewrite toRad_toDeg; apply sin_asin, clamp_range | ].
  split; intro H.
  - rewrite (clamp_above v H). apply toDeg_asin_1.
  - rewrite (clamp_below v H). apply toDeg_asin_minus_1.
Qed.

(** Below 5.7e307, and 360 beyond, the conversion to radians does not
    overflow; at 1e308 it does. *)
Lemma toRadFinite_small (d : R) :
  Rabs d <= 5.7e307 + 360 -> toRadFinite d = Some (toRad d).
Proof.
  intro H. unfold toRadFinite.
  destruct (Rlt_dec _ _) as [_ | N]; [ reflexivity | exfalso; apply N ].
  unfold Math_PI_double, OVERFLOW.
  let v := eval vm_compute in (2 ^ 1024 - 2 ^ 970)%Z in
  change (2 ^ 1024 - 2 ^ 970)%Z with v.
  rewrite Rabs_mult, (Rabs_right (_ / _)) by lra. lra.
Qed.

Lemma toRadFinite_huge : toRadFinite 1e308 = None.
Proof.
  unfold toRadFinite.
  destruct (Rlt_dec _ _) as [H | _]; [ exfalso | reflexivity ].
  revert H. unfold Math_PI_double, OVERFLOW.
  let v := eval vm_compute in (2 ^ 1024 - 2 ^ 970)%Z in
  change (2 ^ 1024 - 2 ^ 970)%Z with v.
  rewrite Rabs_right by lra. lra.
Qed.

(** The hour angle of a time of day and a longitude of at most 5.7e307
    degrees. *)
Lemma hour_angle_bound (date : Date) (lon : R) :
  calendarFields date -> Rabs lon <= 5.7e307 ->
  Rabs ((IZR (getUTCHours date) + IZR (getUTCMinutes date) / 60
         + lon / 15 - 12) * 15)
  <= 5.7e307 + 360.
Proof.
  intros (_ & _ & [Hh1 Hh2] & [Hm1 Hm2]) Hl.
  apply IZR_le in Hh1, Hh2, Hm1, Hm2.
  assert (Hb : - (5.7e307) <= lon <= 5.7e307)
    by (unfold Rabs in Hl; destruct (Rcase_abs lon); lra).
  apply Rabs_le. lra.
Qed.




End AstronomyClaims.

(** ** Drawing code only appends to the context *)

Section CanvasFacts.
Import Canvas.
Local Open Scope list_scope.

Lemma appends_ret {A : Type} (a : A) : appends (ret a).
Proof. intros w h l. unfold ret. cbn. now rewrite app_nil_r. Qed.

Lemma appends_skip : appends skip.
Proof. apply appends_ret. Qed.

Lemma appends_emit (op : Op) : appends (emit op).
Proof. intros w h l. reflexivity. Qed.

Lemma appends_canvasWidth : appends canvasWidth.
Proof. intros w h l. unfold canvasWidth. cbn. now rewrite app_nil_r. Qed.

Lemma appends_canvasHeight : appends canvasHeight.
Proof. intros w h l. unfold canvasHeight. cbn. now rewrite app_nil_r. Qed.

Lemma appends_bind {A B : Type} (m : Draw A) (k : A -> Draw B) :
  appends m -> (forall a, appends (k a)) -> appends (bind m k).
Proof.
  intros Hm Hk w h l. unfold bind.
  rewrite (Hm w h l), (Hm w h []). cbn [app].
  rewrite (Hk _ w h (l ++ _)), (Hk _ w h (calls _)). cbn [fst snd calls].
  now rewrite app_assoc.
Qed.

Lemma appends_forEach {A : Type} (l : list A) (f : A -> Draw unit) :
  (forall a, appends (f a)) -> appends (forEach l f).
Proof.
  intro Hf. induction l as [ | a rest IH]; cbn [forEach].
  - apply appends_skip.
  - apply appends_bind; [ apply Hf | intros _; exact IH ].
Qed.

(** What a sequence issues is what its parts issue, one after the other. *)
Lemma emitted_seq (m1 m2 : Draw unit) (w h : R) :
  appends m1 -> appends m2 ->
  emitted (bind m1 (fun _ => m2)) w h = emitted m1 w h ++ emitted m2 w h.
Proof.
  intros H1 H2. unfold emitted, bind.
  rewrite (H1 w h []). cbn [app]. rewrite (H2 w h (calls _)). reflexivity.
Qed.

Lemma emitted_emit (op : Op) (w h : R) : emitted (emit op) w h = [op].
Proof. reflexivity. Qed.

Lemma emitted_skip (w h : R) : emitted skip w h = [].
Proof. reflexivity. Qed.

(** A call on any context adds what it issues on an empty history. *)
Lemma appends_run (m : Draw unit) (ctx : Ctx) :
  appends m ->
  m ctx = (tt, mkCtx (width ctx) (height ctx)
                     (calls ctx ++ emitted m (width ctx) (height ctx))).
Proof.
  intro H. destruct ctx as [w h l]. cbn [width height calls].
  rewrite (H w h l). unfold emitted.
  destruct (fst (m (mkCtx w h []))). reflexivity.
Qed.

Lemma appends_newOps (m : Draw unit) (ctx : Ctx) :
  appends m -> newOps m ctx = emitted m (width ctx) (height ctx).
Proof.
  intro H. unfold newOps. rewrite (appends_run m ctx H). cbn [snd calls].
  rewrite skipn_app, skipn_all, Nat.sub_diag. reflexivity.
Qed.

End CanvasFacts.

Create HintDb draw.

#[local] Hint Resolve appends_ret appends_skip appends_emit
  appends_canvasWidth appends_canvasHeight : draw.

(** Break drawing code down to its [emit]s. *)
Ltac appends_step :=
  match goal with
  | |- Canvas.appends (Canvas.bind _ _) =>
      apply appends_bind; [ | intro ]
  | |- Canvas.appends (Canvas.forEach _ _) =>
      apply appends_forEach; intro
  | |- Canvas.appends (match ?v with _ => _ end) => destruct v
  | |- Canvas.appends _ => solve [ auto with draw ]
  end.

Ltac appends_auto := repeat appends_step.

(** ** src/src/rendering.js only appends *)

Section RenderingBasicFacts.
Import Canvas RenderingBasic.

Lemma basic_draw4PointStar_appends (px py size : R) (color : string) :
  appends (draw4PointStar px py size color).
Proof. unfold draw4PointStar. appends_auto. Qed.

Lemma basic_lineLoop_appends (cx cy scale sunRA fov : R) (line : list (R * R)) :
  forall started, appends (lineLoop cx cy scale sunRA fov started line).
Proof.
  induction line as [ | [ra dec] rest IH]; intro started; cbn [lineLoop].
  - apply appends_skip.
  - destruct (project ra dec sunRA fov) as [p | ].
    + cbv zeta. apply appends_bind; [ | intros _; apply IH ].
      destruct (negb started); apply appends_emit.
    + apply IH.
Qed.

Lemma basic_drawStarMap_appends (opts : Opts) : appends (drawStarMap opts).
Proof.
  pose proof basic_draw4PointStar_appends.
  pose proof basic_lineLoop_appends.
  unfold drawStarMap. cbv zeta. appends_auto.
Qed.

End RenderingBasicFacts.

(** ** unnamed/part_000 only appends *)

Section RenderingFullFacts.
Import JsMath Canvas RenderingFull.
Local Open Scope R_scope.
Local Open Scope list_scope.

Lemma drawStarShape4_appends (px py size : R) (color : Css) (glow : option Css) :
  appends (drawStarShape4 px py size color glow).
Proof. unfold drawStarShape4. appends_auto. Qed.

Lemma drawSun_appends (px py : R) : appends (drawSun px py).
Proof. unfold drawSun. cbv zeta. appends_auto. Qed.

Lemma drawLabel_appends (px py offset : R) (text color : string) :
  appends (drawLabel px py offset text color).
Proof. unfold drawLabel. appends_auto. Qed.

Lemma drawMoon_appends (px py phase : R) : appends (drawMoon px py phase).
Proof.
  pose proof drawLabel_appends. unfold drawMoon. cbv zeta. appends_auto.
Qed.

Lemma drawPlanet_appends (px py : R) (def : PlanetDef.t) :
  appends (drawPlanet px py def).
Proof.
  pose proof drawLabel_appends. unfold drawPlanet. cbv zeta. appends_auto.
Qed.

Lemma drawSpecialPoint_appends (px py : R) (def : SpecialDef.t) :
  appends (drawSpecialPoint px py def).
Proof.
  pose proof drawLabel_appends. unfold drawSpecialPoint. cbv zeta.
  appends_auto.
Qed.

Lemma drawEarth_appends (w h altitude : R) : appends (drawEarth w h altitude).
Proof. unfold drawEarth. cbv zeta. appends_auto. Qed.

Lemma lineLoop_appends (cx cy scale sunRA : R) (line : list (R * R)) :
  forall started, appends (lineLoop cx cy scale sunRA started line).
Proof.
  induction line as [ | [ra dec] rest IH]; intro started; cbn [lineLoop].
  - apply appends_skip.
  - destruct (project ra dec sunRA) as [p | ].
    + cbv zeta. apply appends_bind; [ | intros _; apply IH ].
      destruct (negb started); apply appends_emit.
    + apply IH.
Qed.

Lemma earthLayer_appends (w h : R) (opts : Opts) :
  appends (earthLayer w h opts).
Proof. pose proof drawEarth_appends. unfold earthLayer. appends_auto. Qed.

Lemma constellationLayer_appends (cx cy scale : R) (opts : Opts) :
  appends (constellationLayer cx cy scale opts).
Proof.
  pose proof lineLoop_appends. unfold constellationLayer. cbv zeta.
  appends_auto.
Qed.

Lemma starLayer_appends (cx cy scale : R) (opts : Opts) :
  appends (starLayer cx cy scale opts).
Proof.
  pose proof drawStarShape4_appends. unfold starLayer. cbv zeta.
  appends_auto.
Qed.

Lemma planetLayer_appends (cx cy scale : R) (opts : Opts) :
  appends (planetLayer cx cy scale opts).
Proof.
  pose proof drawPlanet_appends. unfold planetLayer. appends_auto.
Qed.

Lemma specialsMoon_appends (cx cy scale sunRA : R) (sp : Specials.t) :
  appends (specialsMoon cx cy scale sunRA sp).
Proof. pose proof drawMoon_appends. unfold specialsMoon. appends_auto. Qed.

Lemma specialsPoints_appends (cx cy scale sunRA : R) (sp : Specials.t) :
  appends (specialsPoints cx cy scale sunRA sp).
Proof.
  pose proof drawSpecialPoint_appends. unfold specialsPoints. appends_auto.
Qed.

Lemma specialsLayer_appends (cx cy scale : R) (opts : Opts) :
  appends (specialsLayer cx cy scale opts).
Proof.
  pose proof specialsMoon_appends. pose proof specialsPoints_appends.
  unfold specialsLayer. appends_auto.
Qed.

Lemma sunLayer_appends (cx cy scale : R) (opts : Opts) :
  appends (sunLayer cx cy scale opts).
Proof. pose proof drawSun_appends. unfold sunLayer. appends_auto. Qed.

Lemma drawStarMap_appends (dpr : R) (opts : Opts) :
  appends (drawStarMap dpr opts).
Proof.
  pose proof earthLayer_appends. pose proof constellationLayer_appends.
  pose proof starLayer_appends. pose proof planetLayer_appends.
  pose proof specialsLayer_appends. pose proof sunLayer_appends.
  unfold drawStarMap. cbv zeta. appends_auto.
Qed.

(** What the [if (specials)] block issues: the Moon's operations, then the
    special points'. *)
Lemma specialsLayer_emitted (cx cy scale : R) (opts : Opts) (w h : R) :
  emitted (specialsLayer cx cy scale opts) w h
  = moonOps cx cy scale opts w h ++ specialPointOps cx cy scale opts w h.
Proof.
  unfold specialsLayer, moonOps, specialPointOps.
  destruct (specials opts) as [sp | ].
  - apply emitted_seq;
      [ apply specialsMoon_appends | apply specialsPoints_appends ].
  - reflexivity.
Qed.

(** The frame, layer by layer. *)
Lemma drawStarMap_layers (dpr : R) (opts : Opts) (cw ch : R) :
  let w := cw / js_or dpr 1 in
  let h := ch / js_or dpr 1 in
  let cx := w / 2 in
  let cy := h / 2 in
  let scale := Rmin w h * 0.45 in
  emitted (drawStarMap dpr opts) cw ch
  = [ClearRect 0 0 w h]
    ++ emitted (earthLayer w h opts) cw ch
    ++ emitted (constellationLayer cx cy scale opts) cw ch
    ++ emitted (starLayer cx cy scale opts) cw ch
    ++ emitted (planetLayer cx cy scale opts) cw ch
    ++ moonOps cx cy scale opts cw ch
    ++ specialPointOps cx cy scale opts cw ch
    ++ emitted (sunLayer cx cy scale opts) cw ch.
Proof.
  intros w h cx cy scale.
  pose proof (earthLayer_appends w h opts) as He.
  pose proof (constellationLayer_appends cx cy scale opts) as Hc.
  pose proof (starLayer_appends cx cy scale opts) as Hs.
  pose proof (planetLayer_appends cx cy scale opts) as Hp.
  pose proof (specialsLayer_appends cx cy scale opts) as Hx.
  pose proof (sunLayer_appends cx cy scale opts) as Hsun.
  change (emitted (drawStarMap dpr opts) cw ch)
    with (emitted (bind (emit (ClearRect 0 0 w h)) (fun _ =>
                   bind (earthLayer w h opts) (fun _ =>
                   bind (constellationLayer cx cy scale opts) (fun _ =>
                   bind (starLayer cx cy scale opts) (fun _ =>
                   bind (planetLayer cx cy scale opts) (fun _ =>
                   bind (specialsLayer cx cy scale opts) (fun _ =>
                   sunLayer cx cy scale opts)))))))
                  cw ch).
  rewrite !emitted_seq by appends_auto.
  rewrite emitted_emit, specialsLayer_emitted, <- app_assoc. reflexivity.
Qed.

End RenderingFullFacts.

(** ** Which operations a piece of drawing code can issue *)

Section IssuesFacts.
Import Canvas.
Local Open Scope list_scope.

Variable kind : Op -> bool.

Lemma issuesNo_appends {A : Type} (m : Draw A) : issuesNo kind m -> appends m.
Proof. now intros [H _]. Qed.

Lemma issuesNo_ret {A : Type} (a : A) : issuesNo kind (ret a).
Proof. split; [ apply appends_ret | reflexivity ]. Qed.

Lemma issuesNo_skip : issuesNo kind skip.
Proof. apply issuesNo_ret. Qed.

Lemma issuesNo_emit (op : Op) : kind op = false -> issuesNo kind (emit op).
Proof.
  intro H. split; [ apply appends_emit | ].
  intros w h. cbn. now rewrite H.
Qed.

Lemma issuesNo_bind {A B : Type} (m : Draw A) (k : A -> Draw B) :
  issuesNo kind m -> (forall a, issuesNo kind (k a)) ->
  issuesNo kind (bind m k).
Proof.
  intros [Hm Fm] Hk. split.
  - apply appends_bind; [ exact Hm | intro a; apply Hk ].
  - intros w h. unfold bind. rewrite (Hm w h []). cbn [app].
    destruct (Hk (fst (m (mkCtx w h [])))) as [Ha Fa].
    rewrite (Ha w h (calls _)). cbn [snd calls].
    rewrite forallb_app, Fm, Fa. reflexivity.
Qed.

Lemma issuesNo_forEach {A : Type} (l : list A) (f : A -> Draw unit) :
  (forall a, issuesNo kind (f a)) -> issuesNo kind (forEach l f).
Proof.
  intro Hf. induction l as [ | a rest IH]; cbn [forEach].
  - apply issuesNo_skip.
  - apply issuesNo_bind; [ apply Hf | intros _; exact IH ].
Qed.

Lemma issuesNo_emitted (m : Draw unit) (w h : R) :
  issuesNo kind m ->
  forallb (fun op => negb (kind op)) (emitted m w h) = true.
Proof. intros [_ H]. apply H. Qed.

End IssuesFacts.

Ltac issues_step :=
  match goal with
  | |- Canvas.issuesNo _ (Canvas.bind _ _) =>
      apply issuesNo_bind; [ | intro ]
  | |- Canvas.issuesNo _ (Canvas.forEach _ _) =>
      apply issuesNo_forEach; intro
  | |- Canvas.issuesNo _ (Canvas.emit _) =>
      apply issuesNo_emit; first [ reflexivity | assumption ]
  | |- Canvas.issuesNo _ Canvas.skip => apply issuesNo_skip
  | |- Canvas.issuesNo _ (match ?v with _ => _ end) => destruct v eqn:?
  | |- Canvas.issuesNo _ _ => solve [ auto ]
  end.

Ltac issues_auto := repeat issues_step.

Section OrderFacts.
Import Canvas.
Local Open Scope list_scope.

(** If the head of a trace has nothing of the second kind and the tail
    nothing of the first, the first kind comes before the second. *)
Lemma allBefore_app (first second : Op -> bool) (l1 l2 : list Op) :
  forallb (fun op => negb (second op)) l1 = true ->
  forallb (fun op => negb (first op)) l2 = true ->
  allBefore first second (l1 ++ l2).
Proof.
  intros H1 H2 i j a b Hi Hj Fa Sb.
  rewrite forallb_forall in H1, H2.
  destruct (Nat.lt_ge_cases i (List.length l1)) as [Li | Li].
  - destruct (Nat.lt_ge_cases j (List.length l1)) as [Lj | Lj]; [ | lia ].
    rewrite nth_error_app1 in Hj by exact Lj.
    apply nth_error_In, H1 in Hj. rewrite Sb in Hj. discriminate.
  - rewrite nth_error_app2 in Hi by exact Li.
    apply nth_error_In, H2 in Hi. rewrite Fa in Hi. discriminate.
Qed.

(** Two operations found in that order refute the opposite order. *)
Lemma not_allBefore (first second : Op -> bool) (trace : list Op)
  (i j : nat) (a b : Op) :
  nth_error trace i = Some a -> nth_error trace j = Some b ->
  second a = true -> first b = true -> (i < j)%nat ->
  ~ allBefore first second trace.
Proof.
  intros Hi Hj Sa Fb Hlt Hall.
  pose proof (Hall j i b a Hj Hi Fb Sa). lia.
Qed.

End OrderFacts.

(** ** The order of the layers of unnamed/part_000 *)

Section FullOrderFacts.
Import JsMath Canvas RenderingFull ProjectionSpec.
Local Open Scope string_scope.
Local Open Scope R_scope.
Local Open Scope list_scope.

(** No row of [PLANETS] is labelled like a special point, and no row of
    [SPECIALS] like the Moon. *)
Lemma planet_label_not_special (id : string) (def : PlanetDef.t) (a b : R) :
  lookup id PLANETS = Some def ->
  isSpecialPointDraw
    (FillText (PlanetDef.symbol def ++ " " ++ PlanetDef.name def)%string a b)
  = false.
Proof.
  unfold PLANETS. cbn [lookup].
  repeat (destruct (String.eqb _ id);
          [ intro E; inversion E; reflexivity | ]).
  discriminate.
Qed.

Lemma special_label_not_moon (key : string) (def : SpecialDef.t) (a b : R) :
  lookup key SPECIALS = Some def ->
  isMoonDraw
    (FillText (SpecialDef.symbol def ++ " " ++ SpecialDef.name def)%string a b)
  = false.
Proof.
  unfold SPECIALS. cbn [lookup].
  repeat (destruct (String.eqb _ key);
          [ intro E; inversion E; reflexivity | ]).
  discriminate.
Qed.

Lemma special_label_is_special (key : string) (def : SpecialDef.t) (a b : R) :
  lookup key SPECIALS = Some def ->
  isSpecialPointDraw
    (FillText (SpecialDef.symbol def ++ " " ++ SpecialDef.name def)%string a b)
  = true.
Proof.
  unfold SPECIALS. cbn [lookup].
  repeat (destruct (String.eqb _ key);
          [ intro E; inversion E; reflexivity | ]).
  discriminate.
Qed.

(** Nothing drawn up to and including the Moon is labelled like a special
    point. *)
Lemma drawLabel_issuesNo (kind : Op -> bool) (px py offset : R)
  (text color : string) :
  kind Save = false -> kind Restore = false ->
  (forall s, kind (SetFillStyle s) = false) ->
  (forall f, kind (SetFont f) = false) ->
  (forall a, kind (SetTextAlign a) = false) ->
  (forall c, kind (SetShadowColor c) = false) ->
  (forall v, kind (SetShadowBlur v) = false) ->
  kind (FillText text (px + offset + 6) (py + 4)) = false ->
  issuesNo kind (drawLabel px py offset text color).
Proof.
  intros. unfold drawLabel.
  repeat (apply issuesNo_bind; [ | intro ]); apply issuesNo_emit; auto.
Qed.

Lemma drawLabel_noSpecial (px py offset : R) (text color : string) :
  isSpecialPointDraw (FillText text (px + offset + 6) (py + 4)) = false ->
  issuesNo isSpecialPointDraw (drawLabel px py offset text color).
Proof. intro H. apply drawLabel_issuesNo; auto. Qed.

Lemma drawLabel_noMoon (px py offset : R) (text color : string) :
  isMoonDraw (FillText text (px + offset + 6) (py + 4)) = false ->
  issuesNo isMoonDraw (drawLabel px py offset text color).
Proof. intro H. apply drawLabel_issuesNo; auto. Qed.

Lemma drawEarth_noSpecial (w h altitude : R) :
  issuesNo isSpecialPointDraw (drawEarth w h altitude).
Proof. unfold drawEarth. cbv zeta. issues_auto. Qed.

Lemma lineLoop_noSpecial (cx cy scale sunRA : R) (line : list (R * R)) :
  forall started,
    issuesNo isSpecialPointDraw (lineLoop cx cy scale sunRA started line).
Proof.
  induction line as [ | [ra dec] rest IH]; intro started; cbn [lineLoop].
  - apply issuesNo_skip.
  - destruct (project ra dec sunRA) as [p | ].
    + cbv zeta. apply issuesNo_bind; [ | intros _; apply IH ].
      destruct (negb started); apply issuesNo_emit; reflexivity.
    + apply IH.
Qed.

Lemma constellationLayer_noSpecial (cx cy scale : R) (opts : Opts) :
  issuesNo isSpecialPointDraw (constellationLayer cx cy scale opts).
Proof.
  pose proof lineLoop_noSpecial. unfold constellationLayer. cbv zeta.
  issues_auto.
Qed.

Lemma drawStarShape4_noSpecial (px py size : R) (color : Css)
  (glow : option Css) :
  issuesNo isSpecialPointDraw (drawStarShape4 px py size color glow).
Proof. unfold drawStarShape4. issues_auto. Qed.

Lemma starLayer_noSpecial (cx cy scale : R) (opts : Opts) :
  issuesNo isSpecialPointDraw (starLayer cx cy scale opts).
Proof.
  pose proof drawStarShape4_noSpecial. unfold starLayer. cbv zeta.
  issues_auto.
Qed.

Lemma drawPlanet_noSpecial (px py : R) (def : PlanetDef.t) :
  (forall a b,
     isSpecialPointDraw
       (FillText (PlanetDef.symbol def ++ " " ++ PlanetDef.name def)%string
                 a b) = false) ->
  issuesNo isSpecialPointDraw (drawPlanet px py def).
Proof.
  intro H.
  pose proof (fun offset color =>
                drawLabel_noSpecial px py offset _ color (H _ _)) as HL.
  unfold drawPlanet. cbv zeta. issues_auto.
Qed.

Lemma planetLayer_noSpecial (cx cy scale : R) (opts : Opts) :
  issuesNo isSpecialPointDraw (planetLayer cx cy scale opts).
Proof.
  unfold planetLayer. destruct (planets opts) as [entries | ];
    [ | apply issuesNo_skip ].
  apply issuesNo_forEach. intros [id pos].
  destruct (lookup id PLANETS) as [def | ] eqn:E; [ | apply issuesNo_skip ].
  destruct pos as [pos | ]; [ | apply issuesNo_skip ].
  destruct (project _ _ _) as [p | ]; [ | apply issuesNo_skip ].
  apply drawPlanet_noSpecial. intros a b.
  exact (planet_label_not_special id def a b E).
Qed.

Lemma drawMoon_noSpecial (px py phase : R) :
  issuesNo isSpecialPointDraw (drawMoon px py phase).
Proof.
  pose proof (fun offset color =>
                drawLabel_noSpecial px py offset "☽ Moon" color eq_refl) as HL.
  unfold drawMoon. cbv zeta. issues_auto.
Qed.

Lemma specialsMoon_noSpecial (cx cy scale sunRA : R) (sp : Specials.t) :
  issuesNo isSpecialPointDraw (specialsMoon cx cy scale sunRA sp).
Proof.
  pose proof drawMoon_noSpecial. unfold specialsMoon. issues_auto.
Qed.

(** Nothing drawn after the Moon is labelled like the Moon. *)
Lemma drawSpecialPoint_noMoon (px py : R) (def : SpecialDef.t) :
  (forall a b,
     isMoonDraw
       (FillText (SpecialDef.symbol def ++ " " ++ SpecialDef.name def)%string
                 a b) = false) ->
  issuesNo isMoonDraw (drawSpecialPoint px py def).
Proof.
  intro H.
  pose proof (fun offset color =>
                drawLabel_noMoon px py offset _ color (H _ _)) as HL.
  unfold drawSpecialPoint. cbv zeta. issues_auto.
Qed.

Lemma specialsPoints_noMoon (cx cy scale sunRA : R) (sp : Specials.t) :
  issuesNo isMoonDraw (specialsPoints cx cy scale sunRA sp).
Proof.
  unfold specialsPoints. apply issuesNo_forEach. intro key.
  destruct (Specials.get sp key) as [pos | ]; [ | apply issuesNo_skip ].
  destruct (project _ _ _) as [p | ]; [ | apply issuesNo_skip ].
  destruct (lookup key SPECIALS) as [def | ] eqn:E; [ | apply issuesNo_skip ].
  apply drawSpecialPoint_noMoon. intros a b.
  exact (special_label_not_moon key def a b E).
Qed.

Lemma sunLayer_noMoon (cx cy scale : R) (opts : Opts) :
  issuesNo isMoonDraw (sunLayer cx cy scale opts).
Proof.
  unfold sunLayer. destruct (project _ _ _) as [p | ]; [ | apply issuesNo_skip ].
  unfold drawSun. cbv zeta. issues_auto.
Qed.

(** In every frame the Moon's label is issued before the label of any
    special point. *)
Lemma moon_before_points (dpr : R) (opts : Opts) (cw ch : R) :
  allBefore isMoonDraw isSpecialPointDraw
            (emitted (drawStarMap dpr opts) cw ch).
Proof.
  pose proof (drawStarMap_layers dpr opts cw ch) as L. cbv zeta in L.
  rewrite L. clear L.
  set (w := cw / js_or dpr 1). set (h := ch / js_or dpr 1).
  set (cx := w / 2). set (cy := h / 2). set (scale := Rmin w h * 0.45).
  rewrite !app_assoc. rewrite <- (app_assoc _ (specialPointOps _ _ _ _ _ _)).
  apply allBefore_app.
  - rewrite !forallb_app. cbn [forallb isSpecialPointDraw negb andb].
    rewrite (issuesNo_emitted _ _ _ _ (constellationLayer_noSpecial cx cy scale opts)).
    rewrite (issuesNo_emitted _ _ _ _ (starLayer_noSpecial cx cy scale opts)).
    rewrite (issuesNo_emitted _ _ _ _ (planetLayer_noSpecial cx cy scale opts)).
    assert (He : forallb (fun op => negb (isSpecialPointDraw op))
                         (emitted (earthLayer w h opts) cw ch) = true).
    { unfold earthLayer. destruct (altitude opts) as [a | ].
      - apply issuesNo_emitted, drawEarth_noSpecial.
      - reflexivity. }
    rewrite He.
    unfold moonOps. destruct (specials opts) as [sp | ]; [ | reflexivity ].
    rewrite (issuesNo_emitted _ _ _ _ (specialsMoon_noSpecial _ _ _ _ sp)).
    reflexivity.
  - rewrite forallb_app.
    rewrite (issuesNo_emitted _ _ _ _ (sunLayer_noMoon cx cy scale opts)).
    unfold specialPointOps. destruct (specials opts) as [sp | ]; [ | reflexivity ].
    rewrite (issuesNo_emitted _ _ _ _ (specialsPoints_noMoon _ _ _ _ sp)).
    reflexivity.
Qed.

End FullOrderFacts.

(** ** Labels that a frame does carry *)

Section FullLabelFacts.
Import JsMath Canvas RenderingFull ProjectionSpec.
Local Open Scope string_scope.
Local Open Scope R_scope.
Local Open Scope list_scope.

Lemma drawLabel_emitted (px py offset : R) (text color : string) (w h : R) :
  emitted (drawLabel px py offset text color) w h
  = [ Save; SetFillStyle (Color (Lit color)); SetFont "bold 11px sans-serif";
      SetTextAlign "left"; SetShadowColor (Lit "black"); SetShadowBlur 4;
      FillText text (px + offset + 6) (py + 4); Restore ].
Proof. reflexivity. Qed.

Lemma drawLabel_has_text (px py offset : R) (text color : string) (w h : R) :
  In (FillText text (px + offset + 6) (py + 4))
     (emitted (drawLabel px py offset text color) w h).
Proof. rewrite drawLabel_emitted. cbn [In]. tauto. Qed.

Lemma in_emitted_left (m1 m2 : Draw unit) (op : Op) (w h : R) :
  appends m1 -> appends m2 ->
  In op (emitted m1 w h) -> In op (emitted (m1 ;; m2)%draw w h).
Proof.
  intros H1 H2 Hin. rewrite emitted_seq by assumption.
  apply in_or_app. now left.
Qed.

Lemma in_emitted_right (m1 m2 : Draw unit) (op : Op) (w h : R) :
  appends m1 -> appends m2 ->
  In op (emitted m2 w h) -> In op (emitted (m1 ;; m2)%draw w h).
Proof.
  intros H1 H2 Hin. rewrite emitted_seq by assumption.
  apply in_or_app. now right.
Qed.

Ltac to_the_end :=
  repeat match goal with
  | |- In _ (emitted (bind _ _) _ _) =>
      apply in_emitted_right; [ appends_auto | appends_auto | ]
  end.

Lemma drawMoon_has_label (px py phase : R) (w h : R) :
  In (FillText "☽ Moon" (px + 10 + 6) (py + 4))
     (emitted (drawMoon px py phase) w h).
Proof.
  pose proof drawLabel_appends.
  unfold drawMoon. cbv zeta. to_the_end. apply drawLabel_has_text.
Qed.

Lemma drawSpecialPoint_has_label (px py : R) (def : SpecialDef.t) (w h : R) :
  In (FillText (SpecialDef.symbol def ++ " " ++ SpecialDef.name def)%string
               (px + SpecialDef.size def + 6) (py + 4))
     (emitted (drawSpecialPoint px py def) w h).
Proof.
  pose proof drawLabel_appends.
  unfold drawSpecialPoint. cbv zeta. to_the_end. apply drawLabel_has_text.
Qed.

(** A visible Moon puts its label into the frame. *)
Lemma moon_label_issued (dpr : R) (opts : Opts) (cw ch : R)
  (sp : Specials.t) (m : MoonState.t) (p : Point.t) :
  specials opts = Some sp -> Specials.moon sp = Some m ->
  project (MoonState.ra m) (MoonState.dec m) (sunRA opts) = Some p ->
  exists op, In op (emitted (drawStarMap dpr opts) cw ch)
             /\ isMoonDraw op = true.
Proof.
  intros Hs Hm Hp.
  pose proof (drawStarMap_layers dpr opts cw ch) as L. cbv zeta in L.
  rewrite L. clear L. unfold moonOps, specialsMoon. rewrite Hs, Hm, Hp.
  eexists. split.
  - rewrite !in_app_iff. do 5 right. left. apply drawMoon_has_label.
  - reflexivity.
Qed.

(** A visible Lilith puts its label into the frame. *)
Lemma lilith_label_issued (dpr : R) (opts : Opts) (cw ch : R)
  (sp : Specials.t) (pos : Equatorial.t) (p : Point.t) :
  specials opts = Some sp -> Specials.lilith sp = Some pos ->
  project (Equatorial.ra pos) (Equatorial.dec pos) (sunRA opts) = Some p ->
  exists op, In op (emitted (drawStarMap dpr opts) cw ch)
             /\ isSpecialPointDraw op = true.
Proof.
  intros Hs Hl Hp.
  pose proof (drawStarMap_layers dpr opts cw ch) as L. cbv zeta in L.
  rewrite L. clear L. unfold specialPointOps. rewrite Hs.
  eexists. split.
  - rewrite !in_app_iff. do 6 right. left.
    pose proof drawSpecialPoint_appends.
    unfold specialsPoints. cbn [forEach].
    apply in_emitted_left; [ appends_auto | appends_auto | ].
    change (Specials.get sp "lilith") with (Specials.lilith sp).
    rewrite Hl, Hp.
    change (lookup "lilith" SPECIALS)
      with (Some (SpecialDef.mk "Lilith" "⛰" "#a855f7" 2.5 false)).
    apply drawSpecialPoint_has_label.
  - reflexivity.
Qed.

(** Within a quarter turn of the view centre, and off the poles, a body is
    visible. *)
Lemma visible_near_center (ra dec centerRA : R) :
  -90 < dec < 90 -> -90 < ra - centerRA < 90 ->
  project ra dec centerRA = Some (stereographic ra dec centerRA).
Proof.
  intros Hd Ha. rewrite project_full_closed. apply projectClosed_Some.
  unfold cosDistOf. pose proof PI_RGT_0 as Hpi.
  assert (0 < cos (toRad dec)).
  { apply cos_gt_0; unfold toRad; nra. }
  assert (0 < cos (toRad (ra - centerRA))).
  { apply cos_gt_0; unfold toRad; nra. }
  nra.
Qed.

End FullLabelFacts.

(** ** The frame of [drawStarMap] *)

Section RenderingClaims.
Import JsMath Canvas ProjectionSpec.
Local Open Scope string_scope.
Local Open Scope R_scope.
Local Open Scope list_scope.

(** C5, as the code has it.  A frame of unnamed/part_000 is the clearing of
    the canvas followed by the layers in this order: horizon (only when an
    altitude is given), constellation lines, stars, planets, the Moon, the
    special points, and the Sun last.  The Moon is drawn before the special
    points: its label is issued before the label of any special point. *)
Theorem C5_layer_order (dpr : R) (opts : RenderingFull.Opts) (cw ch : R) :
  let w := cw / js_or dpr 1 in
  let h := ch / js_or dpr 1 in
  let cx := w / 2 in
  let cy := h / 2 in
  let scale := Rmin w h * 0.45 in
  let trace := emitted (RenderingFull.drawStarMap dpr opts) cw ch in
  trace
  = [ClearRect 0 0 w h]
    ++ emitted (RenderingFull.earthLayer w h opts) cw ch
    ++ emitted (RenderingFull.constellationLayer cx cy scale opts) cw ch
    ++ emitted (RenderingFull.starLayer cx cy scale opts) cw ch
    ++ emitted (RenderingFull.planetLayer cx cy scale opts) cw ch
    ++ RenderingFull.moonOps cx cy scale opts cw ch
    ++ RenderingFull.specialPointOps cx cy scale opts cw ch
    ++ emitted (RenderingFull.sunLayer cx cy scale opts) cw ch
  /\ emitted (RenderingFull.earthLayer w h opts) cw ch
     = match RenderingFull.altitude opts with
       | Some a => emitted (RenderingFull.drawEarth w h a) cw ch
       | None => []
       end
  /\ emitted (RenderingFull.sunLayer cx cy scale opts) cw ch
     = match RenderingFull.project (RenderingFull.sunRA opts)
               (RenderingFull.sunDec opts) (RenderingFull.sunRA opts) with
       | Some sunP =>
           emitted (RenderingFull.drawSun (cx + Point.x sunP * scale)
                                          (cy + Point.y sunP * scale)) cw ch
       | None => []
       end
  /\ allBefore RenderingFull.isMoonDraw RenderingFull.isSpecialPointDraw trace.
Proof.
  cbv zeta. split; [ apply drawStarMap_layers | ].
  split; [ unfold RenderingFull.earthLayer;
           now destruct (RenderingFull.altitude opts) | ].
  split; [ unfold RenderingFull.sunLayer;
           now destruct (RenderingFull.project _ _ _) | ].
  apply moon_before_points.
Qed.

(** C5, as stated, fails: in the frame of a scene with a visible Moon and a
    visible Lilith, the Moon's label is issued before Lilith's, so it is not
    the case that every special-point draw precedes the Moon draw. *)
Lemma C5_special_points_before_moon_counterexample :
  let trace :=
    emitted (RenderingFull.drawStarMap 1 RenderingFull.exampleScene) 800 600 in
  (exists (i j : nat) (a b : Op),
      nth_error trace i = Some a /\ nth_error trace j = Some b
      /\ RenderingFull.isMoonDraw a = true
      /\ RenderingFull.isSpecialPointDraw b = true
      /\ (i < j)%nat)
  /\ ~ allBefore RenderingFull.isSpecialPointDraw RenderingFull.isMoonDraw
                 trace.
Proof.
  cbv zeta.
  destruct (moon_label_issued 1 RenderingFull.exampleScene 800 600 _ _ _
              eq_refl eq_refl
              (visible_near_center 310 5 280 ltac:(lra) ltac:(lra)))
    as (a & Ha & Ma).
  destruct (lilith_label_issued 1 RenderingFull.exampleScene 800 600 _ _ _
              eq_refl eq_refl
              (visible_near_center 250 (-10) 280 ltac:(lra) ltac:(lra)))
    as (b & Hb & Sb).
  apply In_nth_error in Ha. destruct Ha as [i Hi].
  apply In_nth_error in Hb. destruct Hb as [j Hj].
  pose proof (moon_before_points 1 RenderingFull.exampleScene 800 600
                i j a b Hi Hj Ma Sb) as Hlt.
  split.
  - exists i, j, a, b. tauto.
  - exact (not_allBefore _ _ _ i j a b Hi Hj Ma Sb Hlt).
Qed.

End RenderingClaims.

(** * Further properties of the code *)

(** ** Angle normalisation *)

Section Mod360Facts.
Import JsMath.
Local Open Scope R_scope.

Lemma js_rem_congruent (a b : R) : exists k : Z, js_rem a b = a + b * IZR k.
Proof.
  exists (- Rtrunc (a / b))%Z. unfold js_rem. rewrite opp_IZR. ring.
Qed.

(** X1. [mod360] returns a number of [[0, 360)] for every input, negative
    ones included.  It takes the second remainder to do so: a single
    [d % 360] keeps the sign of [d], so it lies in [[0, 360)] for [d >= 0]
    but in [(-360, 0]] for [d < 0], and on [(-360, 0)] it is [d] itself. *)
Theorem X1_mod360_range (d : R) :
  0 <= mod360 d < 360
  /\ (0 <= d -> 0 <= js_rem d 360 < 360)
  /\ (d < 0 -> -360 < js_rem d 360 <= 0)
  /\ (-360 < d < 0 -> js_rem d 360 = d).
Proof.
  split; [ apply mod360_range | ].
  split; [ intro H; apply js_rem_nonneg; lra | ].
  split; [ intro H; apply js_rem_neg; lra | ].
  intros [Hlo Hhi].
  destruct (js_rem_congruent d 360) as [k Hk].
  pose proof (js_rem_neg d 360 ltac:(lra) Hhi) as Hr.
  assert (E : k = 0%Z).
  { apply one_IZR_lt1. split; lra. }
  rewrite Hk, E. lra.
Qed.

Lemma X1_mod360_range_witness : js_rem (-30) 360 = -30.
Proof.
  apply (proj2 (proj2 (proj2 (X1_mod360_range (-30))))). lra.
Defined.

End Mod360Facts.

(** ** Positions returned by the astronomy modules *)

Section PositionFacts.
Import JsMath.
Local Open Scope R_scope.

Lemma mean_eclToEq_normalised (lon n : R) :
  normalised (Equatorial.ra (AstronomyMean.eclToEq lon n))
             (Equatorial.dec (AstronomyMean.eclToEq lon n)).
Proof.
  unfold AstronomyMean.eclToEq; cbn [Equatorial.ra Equatorial.dec].
  split; [ apply mod360_range | apply toDeg_asin_range ].
Qed.

Lemma engine_eclToEq_normalised (lon lat : R) :
  normalised (Equatorial.ra (AstronomyEngine.eclToEq lon lat))
             (Equatorial.dec (AstronomyEngine.eclToEq lon lat)).
Proof.
  unfold AstronomyEngine.eclToEq; cbn [Equatorial.ra Equatorial.dec].
  split; [ apply mod360_range | apply toDeg_asin_range ].
Qed.

Lemma sin_scaled (k v : R) : 0 <= k -> - k <= k * sin v <= k.
Proof. intro Hk. pose proof (SIN_bound v). nra. Qed.

(** X2. Every position the mean-element module returns is in the ranges of
    the data model: right ascension and ecliptic longitude in [[0, 360)],
    declination in [[-90, 90]], for the Sun, the Moon (whose declination
    stays within 5.145 degrees of the equator), the three special points and
    every planet the module knows. *)
Theorem X2_mean_positions_normalised (date : Date) :
  (normalised (SunState.ra (AstronomyMean.getSunPosition date))
              (SunState.dec (AstronomyMean.getSunPosition date))
   /\ 0 <= SunState.lon (AstronomyMean.getSunPosition date) < 360)
  /\ (0 <= MoonState.ra (AstronomyMean.getMoon date) < 360
      /\ -5.145 <= MoonState.dec (AstronomyMean.getMoon date) <= 5.145)
  /\ (forall get,
        In get [AstronomyMean.getNorthNode; AstronomyMean.getLilith;
                AstronomyMean.getChiron] ->
        normalised (SunState.ra (get date)) (SunState.dec (get date))
        /\ 0 <= SunState.lon (get date) < 360)
  /\ (forall planet pos,
        AstronomyMean.getPlanetPosition planet date = Some pos ->
        normalised (SunState.ra pos) (SunState.dec pos)
        /\ 0 <= SunState.lon pos < 360).
Proof.
  split; [ | split; [ | split ] ].
  - unfold AstronomyMean.getSunPosition;
      cbn [SunState.ra SunState.dec SunState.lon].
    split; [ apply mean_eclToEq_normalised | apply mod360_range ].
  - unfold AstronomyMean.getMoon; cbn [MoonState.ra MoonState.dec].
    split; [ apply mod360_range | ].
    match goal with
    | |- _ <= 5.145 * sin ?v <= _ =>
        pose proof (sin_scaled 5.145 v ltac:(lra)); lra
    end.
  - intros get [<- | [<- | [<- | []]]];
      unfold AstronomyMean.getNorthNode, AstronomyMean.getLilith,
        AstronomyMean.getChiron;
      cbn [SunState.ra SunState.dec SunState.lon];
      (split; [ apply mean_eclToEq_normalised | apply mod360_range ]).
  - intros planet pos. unfold AstronomyMean.getPlanetPosition.
    destruct (RenderingFull.lookup planet AstronomyMean.PLANET_EL)
      as [el | ]; [ | discriminate ].
    intro E. inversion E; subst pos; clear E.
    cbn [SunState.ra SunState.dec SunState.lon].
    split; [ apply mean_eclToEq_normalised | apply mod360_range ].
Qed.

Lemma X2_mean_positions_normalised_witness :
  normalised (SunState.ra (AstronomyMean.getNorthNode (mkDate 0 0 1 0 0)))
             (SunState.dec (AstronomyMean.getNorthNode (mkDate 0 0 1 0 0)))
  /\ 0 <= SunState.lon (AstronomyMean.getNorthNode (mkDate 0 0 1 0 0)) < 360.
Proof.
  apply (proj1 (proj2 (proj2 (X2_mean_positions_normalised (mkDate 0 0 1 0 0))))
           AstronomyMean.getNorthNode).
  left. reflexivity.
Defined.

(** X3. Whatever the ephemeris library reports, every position the
    astronomy-engine revision returns has its right ascension in
    [[0, 360)] and its declination in [[-90, 90]]; the longitudes of the
    three special points, which the module computes itself, are in
    [[0, 360)]. *)
Theorem X3_engine_positions_normalised (Astronomy : AstronomyLib)
  (date : Date) :
  normalised (SunState.ra (AstronomyEngine.getSunPosition Astronomy date))
             (SunState.dec (AstronomyEngine.getSunPosition Astronomy date))
  /\ normalised (MoonState.ra (AstronomyEngine.getMoon Astronomy date))
                (MoonState.dec (AstronomyEngine.getMoon Astronomy date))
  /\ (forall get,
        In get [AstronomyEngine.getNorthNode; AstronomyEngine.getLilith;
                AstronomyEngine.getChiron] ->
        normalised (SunState.ra (get date)) (SunState.dec (get date))
        /\ 0 <= SunState.lon (get date) < 360)
  /\ (forall planet pos,
        AstronomyEngine.getPlanetPosition Astronomy planet date = Some pos ->
        normalised (Equatorial.ra pos) (Equatorial.dec pos)).
Proof.
  split; [ | split; [ | split ] ].
  - unfold AstronomyEngine.getSunPosition; cbn [SunState.ra SunState.dec].
    apply engine_eclToEq_normalised.
  - unfold AstronomyEngine.getMoon; cbn [MoonState.ra MoonState.dec].
    apply engine_eclToEq_normalised.
  - intros get [<- | [<- | [<- | []]]];
      unfold AstronomyEngine.getNorthNode, AstronomyEngine.getLilith,
        AstronomyEngine.getChiron;
      cbn [SunState.ra SunState.dec SunState.lon];
      (split; [ apply engine_eclToEq_normalised | apply mod360_range ]).
  - intros planet pos. unfold AstronomyEngine.getPlanetPosition.
    destruct (RenderingFull.lookup planet AstronomyEngine.PLANET_BODY)
      as [body | ]; [ | discriminate ].
    intro E. inversion E. apply engine_eclToEq_normalised.
Qed.

Lemma X3_engine_positions_normalised_witness :
  normalised
    (SunState.ra (AstronomyEngine.getChiron (mkDate 946728000000 0 1 12 0)))
    (SunState.dec (AstronomyEngine.getChiron (mkDate 946728000000 0 1 12 0)))
  /\ 0 <= SunState.lon
            (AstronomyEngine.getChiron (mkDate 946728000000 0 1 12 0)) < 360.
Proof.
  apply (proj1 (proj2 (proj2
           (X3_engine_positions_normalised
              (mkAstronomyLib unit (fun _ => mkEcl 0 0) (fun _ _ _ => tt)
                              (fun _ => mkEcl 0 0) (fun _ => 0))
              (mkDate 946728000000 0 1 12 0))))
           AstronomyEngine.getChiron).
  right. right. left. reflexivity.
Defined.

End PositionFacts.

(** ** The Sun's declination and the obliquity *)

Section ObliquityFacts.
Import JsMath.
Local Open Scope R_scope.

Lemma toDeg_toRad (d : R) : toDeg (toRad d) = d.
Proof. unfold toDeg, toRad. field. apply PI_neq0. Qed.

Lemma toDeg_le (r1 r2 : R) : r1 <= r2 -> toDeg r1 <= toDeg r2.
Proof.
  intro H. unfold toDeg. pose proof PI_RGT_0 as Hpi.
  apply Rmult_le_compat_r; [ left; now apply Rinv_0_lt_compat | lra ].
Qed.

Lemma toRad_quarter (d : R) :
  -90 <= d <= 90 -> - (PI / 2) <= toRad d <= PI / 2.
Proof. intros [H1 H2]. unfold toRad. pose proof PI_RGT_0. split; nra. Qed.

Lemma asin_le (v1 v2 : R) :
  -1 <= v1 <= 1 -> -1 <= v2 <= 1 -> v1 <= v2 -> asin v1 <= asin v2.
Proof.
  intros H1 H2 Hle.
  destruct (asin_bound v1), (asin_bound v2).
  apply sin_incr_0; try assumption.
  now rewrite !sin_asin.
Qed.

(** The declination of a point of the ecliptic never exceeds the
    obliquity. *)
Lemma dec_within_obliquity (eps l : R) :
  0 <= eps <= 90 ->
  - eps <= toDeg (asin (sin (toRad eps) * sin l)) <= eps.
Proof.
  intro He.
  pose proof (toRad_quarter eps ltac:(lra)) as Hq.
  assert (Hpos : 0 <= toRad eps).
  { unfold toRad. pose proof PI_RGT_0. nra. }
  assert (Hs0 : 0 <= sin (toRad eps)).
  { apply sin_ge_0; [ exact Hpos | pose proof PI_RGT_0; lra ]. }
  pose proof (SIN_bound (toRad eps)) as Hs1.
  pose proof (sin_scaled (sin (toRad eps)) l Hs0) as Hv.
  split.
  - rewrite <- (toDeg_toRad eps) at 1.
    replace (- toDeg (toRad eps)) with (toDeg (- toRad eps))
      by (unfold toDeg; field; apply PI_neq0).
    apply toDeg_le.
    rewrite <- (asin_sin (- toRad eps)) by lra.
    apply asin_le; rewrite ?sin_neg; lra.
  - rewrite <- (toDeg_toRad eps) at 2.
    apply toDeg_le.
    rewrite <- (asin_sin (toRad eps)) at 2 by lra.
    apply asin_le; lra.
Qed.

(** On the ecliptic (latitude 0) the general conversion of the
    astronomy-engine revision reduces to the Sun's formula, and its clamp
    does nothing. *)
Lemma engine_eclToEq_ecliptic (lon : R) :
  Equatorial.dec (AstronomyEngine.eclToEq lon 0)
  = toDeg (asin (sin (toRad 23.4393) * sin (toRad lon))).
Proof.
  unfold AstronomyEngine.eclToEq; cbn [Equatorial.dec].
  rewrite toRad_0, sin_0, cos_0.
  pose proof (toRad_quarter 23.4393 ltac:(lra)) as Hq.
  assert (Hs0 : 0 <= sin (toRad 23.4393)).
  { apply sin_ge_0; [ unfold toRad; pose proof PI_RGT_0; nra
                    | pose proof PI_RGT_0; lra ]. }
  pose proof (SIN_bound (toRad 23.4393)) as Hs1.
  pose proof (sin_scaled (sin (toRad 23.4393)) (toRad lon) Hs0) as Hv.
  replace (0 * cos (toRad 23.4393)
           + 1 * sin (toRad 23.4393) * sin (toRad lon))
    with (sin (toRad 23.4393) * sin (toRad lon)) by ring.
  rewrite Rmin_right by lra. rewrite Rmax_right by lra. reflexivity.
Qed.

(** X5. The declination of the Sun never exceeds the obliquity of the
    ecliptic: in the astronomy-engine revision the Sun and the three special
    points stay within 23.4393 degrees of the equator for every date and every
    longitude the library reports; in the mean-element revision the Sun stays
    within the obliquity of the date, as long as that obliquity is between 0
    and 90 degrees. *)
Theorem X5_declination_within_obliquity (date : Date) :
  (forall Astronomy : AstronomyLib,
      -23.4393 <= SunState.dec (AstronomyEngine.getSunPosition Astronomy date)
      <= 23.4393)
  /\ (forall get,
        In get [AstronomyEngine.getNorthNode; AstronomyEngine.getLilith;
                AstronomyEngine.getChiron] ->
        -23.4393 <= SunState.dec (get date) <= 23.4393)
  /\ (0 <= AstronomyMean.obliquity (AstronomyMean.daysSinceJ2000 date) <= 90 ->
      - AstronomyMean.obliquity (AstronomyMean.daysSinceJ2000 date)
      <= SunState.dec (AstronomyMean.getSunPosition date)
      <= AstronomyMean.obliquity (AstronomyMean.daysSinceJ2000 date)).
Proof.
  split; [ | split ].
  - intro Astronomy.
    unfold AstronomyEngine.getSunPosition; cbn [SunState.dec].
    rewrite engine_eclToEq_ecliptic.
    pose proof (dec_within_obliquity 23.4393
                  (toRad (elon (SunPosition Astronomy date))) ltac:(lra)).
    lra.
  - intros get [<- | [<- | [<- | []]]];
      unfold AstronomyEngine.getNorthNode, AstronomyEngine.getLilith,
        AstronomyEngine.getChiron;
      cbn [SunState.dec]; rewrite engine_eclToEq_ecliptic;
      match goal with
      | |- _ <= toDeg (asin (_ * sin ?l)) <= _ =>
          pose proof (dec_within_obliquity 23.4393 l ltac:(lra)); lra
      end.
  - intro H.
    unfold AstronomyMean.getSunPosition, AstronomyMean.eclToEq;
      cbn [SunState.dec Equatorial.dec].
    apply dec_within_obliquity. exact H.
Qed.

Lemma X5_declination_within_obliquity_witness :
  - AstronomyMean.obliquity
      (AstronomyMean.daysSinceJ2000 (mkDate 946728000000 0 1 12 0))
  <= SunState.dec (AstronomyMean.getSunPosition (mkDate 946728000000 0 1 12 0))
  <= AstronomyMean.obliquity
       (AstronomyMean.daysSinceJ2000 (mkDate 946728000000 0 1 12 0)).
Proof.
  apply (proj2 (proj2 (X5_declination_within_obliquity
                         (mkDate 946728000000 0 1 12 0)))).
  unfold AstronomyMean.obliquity, AstronomyMean.daysSinceJ2000,
    AstronomyMean.J2000; cbn [getTime].
  lra.
Defined.

End ObliquityFacts.

(** ** Planets *)

Section PlanetFacts.
Import JsMath.
Local Open Scope string_scope.
Local Open Scope R_scope.

(** A key is missing from a table exactly when it is none of its keys. *)
Lemma lookup_None_iff {A : Type} (key : string) (table : list (string * A)) :
  RenderingFull.lookup key table = None <-> ~ In key (map fst table).
Proof.
  induction table as [ | [k v] rest IH]; cbn [RenderingFull.lookup map fst In].
  - tauto.
  - destruct (String.eqb k key) eqn:E.
    + apply String.eqb_eq in E. split; [ discriminate | tauto ].
    + apply String.eqb_neq in E. rewrite IH. tauto.
Qed.

Lemma lookup_Some_In {A : Type} (key : string) (table : list (string * A)) :
  In key (map fst table) -> exists v, RenderingFull.lookup key table = Some v.
Proof.
  intro H. destruct (RenderingFull.lookup key table) as [v | ] eqn:E.
  - now exists v.
  - apply lookup_None_iff in E. contradiction.
Qed.

(** X6. The seven planets app.js asks for are the keys, in the same order,
    of the element table of the mean-element module, of the body table of
    the astronomy-engine module and of the renderer's [PLANETS]: for each of
    them [getPlanetPosition] returns a position and the planet layer finds a
    drawing definition.  For any other key, the names inherited from
    [Object.prototype] apart, [getPlanetPosition] returns [null] and
    [PLANETS] has no definition. *)
Theorem X6_planet_keys (planet : string) (date : Date) :
  (map fst AstronomyMean.PLANET_EL = App.PLANET_KEYS
   /\ map fst AstronomyEngine.PLANET_BODY = App.PLANET_KEYS
   /\ map fst RenderingFull.PLANETS = App.PLANET_KEYS)
  /\ (In planet App.PLANET_KEYS ->
      (exists pos, AstronomyMean.getPlanetPosition planet date = Some pos)
      /\ (forall Astronomy : AstronomyLib,
            exists pos,
              AstronomyEngine.getPlanetPosition Astronomy planet date
              = Some pos)
      /\ (exists def, RenderingFull.lookup planet RenderingFull.PLANETS
                      = Some def))
  /\ (~ In planet App.PLANET_KEYS ->
      RenderingFull.inheritedKey planet = false ->
      AstronomyMean.getPlanetPosition planet date = None
      /\ (forall Astronomy : AstronomyLib,
            AstronomyEngine.getPlanetPosition Astronomy planet date = None)
      /\ RenderingFull.lookup planet RenderingFull.PLANETS = None).
Proof.
  split; [ repeat split; reflexivity | ].
  split.
  - intro H. split; [ | split ].
    + destruct (lookup_Some_In planet AstronomyMean.PLANET_EL H) as [el E].
      unfold AstronomyMean.getPlanetPosition. rewrite E. eexists. reflexivity.
    + intro Astronomy.
      destruct (lookup_Some_In planet AstronomyEngine.PLANET_BODY H)
        as [body E].
      unfold AstronomyEngine.getPlanetPosition. rewrite E.
      eexists. reflexivity.
    + exact (lookup_Some_In planet RenderingFull.PLANETS H).
  - intros H _. split; [ | split ].
    + unfold AstronomyMean.getPlanetPosition.
      rewrite (proj2 (lookup_None_iff planet AstronomyMean.PLANET_EL) H).
      reflexivity.
    + intro Astronomy. unfold AstronomyEngine.getPlanetPosition.
      rewrite (proj2 (lookup_None_iff planet AstronomyEngine.PLANET_BODY) H).
      reflexivity.
    + exact (proj2 (lookup_None_iff planet RenderingFull.PLANETS) H).
Qed.

Lemma X6_planet_keys_witness :
  ((exists pos,
       AstronomyMean.getPlanetPosition "saturn" (mkDate 0 0 1 0 0) = Some pos)
   /\ (forall Astronomy : AstronomyLib,
         exists pos,
           AstronomyEngine.getPlanetPosition Astronomy "saturn"
             (mkDate 0 0 1 0 0) = Some pos)
   /\ (exists def, RenderingFull.lookup "saturn" RenderingFull.PLANETS
                   = Some def))
  /\ AstronomyMean.getPlanetPosition "pluto" (mkDate 0 0 1 0 0) = None.
Proof.
  split.
  - apply (proj1 (proj2 (X6_planet_keys "saturn" (mkDate 0 0 1 0 0)))).
    cbn. tauto.
  - apply (proj2 (proj2 (X6_planet_keys "pluto" (mkDate 0 0 1 0 0)))).
    + cbn. intuition discriminate.
    + reflexivity.
Defined.

(** The distance between two points on concentric circles of radii [r] and
    1 lies between [|r - 1|] and [r + 1]. *)
Lemma concentric_distance (r p e : R) :
  0 <= r ->
  (r - 1) * (r - 1)
  <= (r * cos p - 1 * cos e) * (r * cos p - 1 * cos e)
     + (r * sin p - 1 * sin e) * (r * sin p - 1 * sin e)
  <= (r + 1) * (r + 1).
Proof.
  intro Hr.
  assert (Hp : sin p * sin p + cos p * cos p = 1).
  { generalize (sin2_cos2 p). unfold Rsqr. tauto. }
  assert (He : sin e * sin e + cos e * cos e = 1).
  { generalize (sin2_cos2 e). unfold Rsqr. tauto. }
  pose proof (Rle_0_sqr (cos p - cos e)) as Q1.
  pose proof (Rle_0_sqr (sin p - sin e)) as Q2.
  pose proof (Rle_0_sqr (cos p + cos e)) as Q3.
  pose proof (Rle_0_sqr (sin p + sin e)) as Q4.
  unfold Rsqr in Q1, Q2, Q3, Q4.
  set (c := cos p * cos e + sin p * sin e).
  assert (Hup : c <= 1) by (unfold c; lra).
  assert (Hlo : -1 <= c) by (unfold c; lra).
  assert (Hu : 0 <= r * (1 - c)) by (apply Rmult_le_pos; lra).
  assert (Hl : 0 <= r * (1 + c)) by (apply Rmult_le_pos; lra).
  assert (Hexp : (r * cos p - 1 * cos e) * (r * cos p - 1 * cos e)
                 + (r * sin p - 1 * sin e) * (r * sin p - 1 * sin e)
                 = r * r * (sin p * sin p + cos p * cos p)
                   + (sin e * sin e + cos e * cos e) - 2 * (r * c))
    by (unfold c; ring).
  rewrite Hexp, Hp, He. split; lra.
Qed.

(** X7. In the mean-element model a planet never coincides with the Earth:
    the geocentric vector [(gx, gy)] whose direction [getPlanetPosition] takes
    with [atan2] has a length between [|a - 1|] and [a + 1], and [a] is not 1
    for any of the seven planets, so the direction is always defined. *)
Theorem X7_planet_vector_nonzero (planet : string) (el : AstronomyMean.Elements)
  (date : Date) :
  RenderingFull.lookup planet AstronomyMean.PLANET_EL = Some el ->
  let n := AstronomyMean.daysSinceJ2000 date in
  let Lp := AstronomyMean.helioLon el n in
  let Le := AstronomyMean.helioLon AstronomyMean.EARTH_EL n in
  let gx := AstronomyMean.a el * cos Lp
            - AstronomyMean.a AstronomyMean.EARTH_EL * cos Le in
  let gy := AstronomyMean.a el * sin Lp
            - AstronomyMean.a AstronomyMean.EARTH_EL * sin Le in
  (AstronomyMean.a el - 1) * (AstronomyMean.a el - 1) <= gx * gx + gy * gy
  /\ gx * gx + gy * gy <= (AstronomyMean.a el + 1) * (AstronomyMean.a el + 1)
  /\ 0 < gx * gx + gy * gy
  /\ exists pos,
       AstronomyMean.getPlanetPosition planet date = Some pos
       /\ SunState.lon pos = mod360 (toDeg (atan2 gy gx)).
Proof.
  intro E. cbv zeta.
  assert (Ha : 0 <= AstronomyMean.a el
               /\ 0 < (AstronomyMean.a el - 1) * (AstronomyMean.a el - 1)).
  { revert E. unfold AstronomyMean.PLANET_EL. cbn [RenderingFull.lookup].
    repeat (destruct (String.eqb _ planet);
            [ intro E; injection E as <-; cbn [AstronomyMean.a]; split; lra
            | ]).
    discriminate. }
  destruct Ha as [Ha0 Ha1].
  cbn [AstronomyMean.a AstronomyMean.EARTH_EL].
  replace 1.000 with 1 by lra.
  pose proof (concentric_distance (AstronomyMean.a el)
                (AstronomyMean.helioLon el (AstronomyMean.daysSinceJ2000 date))
                (AstronomyMean.helioLon (AstronomyMean.mkEl 1 100.46 365.256)
                   (AstronomyMean.daysSinceJ2000 date)) Ha0) as [Hlo Hhi].
  split; [ exact Hlo | ]. split; [ exact Hhi | ].
  split; [ exact (Rlt_le_trans _ _ _ Ha1 Hlo) | ].
  unfold AstronomyMean.getPlanetPosition. rewrite E.
  eexists. split; [ reflexivity | ].
  cbn [SunState.lon AstronomyMean.a AstronomyMean.EARTH_EL].
  replace 1.000 with 1 by lra. reflexivity.
Qed.

Lemma X7_planet_vector_nonzero_witness :
  exists pos,
    AstronomyMean.getPlanetPosition "mars" (mkDate 946728000000 0 1 12 0)
    = Some pos.
Proof.
  destruct (X7_planet_vector_nonzero "mars"
              (AstronomyMean.mkEl 1.524 355.45 686.980)
              (mkDate 946728000000 0 1 12 0) eq_refl)
    as (_ & _ & _ & pos & E & _).
  exists pos. exact E.
Defined.

End PlanetFacts.

(** ** The lookup on every longitude, and behind [getFullResult] *)

Section ZodiacTotalFacts.
Import Zodiac.
Local Open Scope string_scope.
Local Open Scope list_scope.

Lemma inBoundAt_spec (lon : R) (z : Bound) :
  inBoundAt lon z = true <-> (Q2R (from z) <= lon /\ lon < Q2R (to z))%R.
Proof.
  unfold inBoundAt.
  destruct (Rle_dec _ _), (Rlt_dec _ _); cbn [andb]; split;
    first [ tauto | discriminate | intros [? ?]; contradiction ].
Qed.

(** The real and the rational reading of the loop agree on rationals. *)
Lemma inBoundAt_Q2R (q : Q) (z : Bound) : inBoundAt (Q2R q) z = inBound q z.
Proof.
  destruct (inBound q z) eqn:E.
  - apply inBound_spec in E. apply inBoundAt_spec.
    split; [ apply Qle_Rle | apply Qlt_Rlt ]; tauto.
  - destruct (inBoundAt (Q2R q) z) eqn:E'; [ | reflexivity ].
    apply inBoundAt_spec in E'. destruct E' as [H1 H2].
    apply Rle_Qle in H1. apply Rlt_Qlt in H2.
    rewrite (proj2 (inBound_spec q z) (conj H1 H2)) in E. discriminate.
Qed.

Lemma scanAt_Q2R (table : list Bound) (q : Q) :
  scanAt table (Q2R q) = scan table q.
Proof.
  induction table as [ | z rest IH]; cbn [scanAt scan].
  - reflexivity.
  - rewrite inBoundAt_Q2R, IH. reflexivity.
Qed.

Lemma scanAt_matching (table : list Bound) (lon : R) :
  scanAt table lon = option_map id (hd_error (matchingAt table lon)).
Proof.
  unfold matchingAt. induction table as [ | z rest IH]; cbn [scanAt filter].
  - reflexivity.
  - destruct (inBoundAt lon z); [ reflexivity | exact IH ].
Qed.

Lemma scan_In (table : list Bound) (q : Q) (i : string) :
  scan table q = Some i -> exists z, In z table /\ i = id z.
Proof.
  induction table as [ | z rest IH]; cbn [scan]; [ discriminate | ].
  destruct (inBound q z).
  - intro E. inversion E. exists z. split; [ now left | reflexivity ].
  - intro E. destruct (IH E) as (z' & Hz & Hi). exists z'. split;
      [ now right | exact Hi ].
Qed.

Lemma scanAt_In (table : list Bound) (lon : R) (i : string) :
  scanAt table lon = Some i -> exists z, In z table /\ i = id z.
Proof.
  induction table as [ | z rest IH]; cbn [scanAt]; [ discriminate | ].
  destruct (inBoundAt lon z).
  - intro E. inversion E. exists z. split; [ now left | reflexivity ].
  - intro E. destruct (IH E) as (z' & Hz & Hi). exists z'. split;
      [ now right | exact Hi ].
Qed.

(** Every code has an entry in [CONSTELLATION_NAMES]. *)
Lemma nameOf_code (c : string) :
  In c CONSTELLATION_CODES -> exists e, nameOf c = Some e.
Proof.
  unfold CONSTELLATION_CODES. cbn [In].
  intro H.
  repeat (destruct H as [<- | H]; [ eexists; reflexivity | ]).
  contradiction.
Qed.

Lemma result_known (table : list Bound) (r : option string) :
  idsKnown table = true ->
  (forall i, r = Some i -> exists z, In z table /\ i = id z) ->
  In (match r with Some i => i | None => "Sgr" end) CONSTELLATION_CODES.
Proof.
  intros Hids Hr. destruct r as [i | ].
  - destruct (Hr i eq_refl) as (z & Hz & ->).
    exact (idsKnown_In _ _ Hids Hz).
  - cbn. tauto.
Qed.

(** X8. [getZodiacConstellation] is total: for every longitude whatsoever,
    in [[0, 360)] or not, rational or real, each revision returns one of the
    13 codes, so the lookup of the result in [CONSTELLATION_NAMES] never
    misses; and on a rational longitude the real and the rational reading of
    the function agree. *)
Theorem X8_zodiac_total :
  (forall q : Q,
      (In (AstronomyBasic.getZodiacConstellation q) CONSTELLATION_CODES
       /\ exists e, nameOf (AstronomyBasic.getZodiacConstellation q) = Some e)
      /\ (In (AstronomyMean.getZodiacConstellation q) CONSTELLATION_CODES
          /\ exists e, nameOf (AstronomyMean.getZodiacConstellation q) = Some e)
      /\ (In (AstronomyEngine.getZodiacConstellation q) CONSTELLATION_CODES
          /\ exists e,
               nameOf (AstronomyEngine.getZodiacConstellation q) = Some e))
  /\ (forall lon : R,
        (In (AstronomyBasic.getZodiacConstellationAt lon) CONSTELLATION_CODES
         /\ exists e,
              nameOf (AstronomyBasic.getZodiacConstellationAt lon) = Some e)
        /\ (In (AstronomyMean.getZodiacConstellationAt lon) CONSTELLATION_CODES
            /\ exists e,
                 nameOf (AstronomyMean.getZodiacConstellationAt lon) = Some e)
        /\ (In (AstronomyEngine.getZodiacConstellationAt lon)
               CONSTELLATION_CODES
            /\ exists e,
                 nameOf (AstronomyEngine.getZodiacConstellationAt lon)
                 = Some e))
  /\ (forall q : Q,
        AstronomyBasic.getZodiacConstellationAt (Q2R q)
        = AstronomyBasic.getZodiacConstellation q
        /\ AstronomyMean.getZodiacConstellationAt (Q2R q)
           = AstronomyMean.getZodiacConstellation q
        /\ AstronomyEngine.getZodiacConstellationAt (Q2R q)
           = AstronomyEngine.getZodiacConstellation q).
Proof.
  assert (known : forall c, In c CONSTELLATION_CODES ->
                    In c CONSTELLATION_CODES /\ exists e, nameOf c = Some e).
  { intros c H. split; [ exact H | now apply nameOf_code ]. }
  split; [ | split ].
  - intro q. split; [ | split ]; apply known.
    + apply (result_known AstronomyBasic.ZODIAC_BOUNDARIES (scan _ q));
        [ reflexivity | apply scan_In ].
    + apply (result_known AstronomyMean.ZODIAC_BOUNDS (scan _ q));
        [ reflexivity | apply scan_In ].
    + apply (result_known AstronomyEngine.ZODIAC_BOUNDS (scan _ q));
        [ reflexivity | apply scan_In ].
  - intro lon. split; [ | split ]; apply known.
    + apply (result_known AstronomyBasic.ZODIAC_BOUNDARIES (scanAt _ lon));
        [ reflexivity | apply scanAt_In ].
    + apply (result_known AstronomyMean.ZODIAC_BOUNDS (scanAt _ lon));
        [ reflexivity | apply scanAt_In ].
    + apply (result_known AstronomyEngine.ZODIAC_BOUNDS (scanAt _ lon));
        [ reflexivity | apply scanAt_In ].
  - intro q.
    unfold AstronomyBasic.getZodiacConstellationAt,
      AstronomyMean.getZodiacConstellationAt,
      AstronomyEngine.getZodiacConstellationAt.
    rewrite !scanAt_Q2R. repeat split.
Qed.

End ZodiacTotalFacts.

Section FullResultFacts.
Import Zodiac.
Local Open Scope string_scope.
Local Open Scope list_scope.
Local Open Scope R_scope.

Lemma inBoundAt_false (lon : R) (z : Bound) :
  lon < Q2R (from z) \/ Q2R (to z) <= lon -> inBoundAt lon z = false.
Proof.
  intro H. destruct (inBoundAt lon z) eqn:E; [ | reflexivity ].
  apply inBoundAt_spec in E. lra.
Qed.

Lemma matchingAt_app (t1 t2 : list Bound) (lon : R) :
  matchingAt (t1 ++ t2) lon = matchingAt t1 lon ++ matchingAt t2 lon.
Proof. unfold matchingAt. apply filter_app. Qed.

Lemma chainAt_below (table : list Bound) (lon : R) :
  forall lo hi, chain lo table hi -> lon < Q2R lo -> matchingAt table lon = [].
Proof.
  unfold matchingAt.
  induction table as [ | z rest IH]; cbn [chain filter]; intros lo hi H Hlon.
  - reflexivity.
  - destruct H as (Hfrom & Hlt & Hrest).
    apply Qeq_eqR in Hfrom. apply Qlt_Rlt in Hlt.
    rewrite inBoundAt_false by lra.
    apply (IH _ _ Hrest). lra.
Qed.

Lemma chainAt_above (table : list Bound) (lon : R) :
  forall lo hi, chain lo table hi -> Q2R hi <= lon -> matchingAt table lon = [].
Proof.
  unfold matchingAt.
  induction table as [ | z rest IH]; cbn [chain filter]; intros lo hi H Hlon.
  - reflexivity.
  - destruct H as (Hfrom & Hlt & Hrest).
    pose proof (Qle_Rle _ _ (chain_le _ _ _ Hrest)) as Hle.
    rewrite inBoundAt_false by lra.
    apply (IH _ _ Hrest). exact Hlon.
Qed.

Lemma chainAt_inside (table : list Bound) (lon : R) :
  forall lo hi, chain lo table hi -> Q2R lo <= lon -> lon < Q2R hi ->
  exists z, matchingAt table lon = [z] /\ In z table.
Proof.
  induction table as [ | z rest IH]; cbn [chain]; intros lo hi H Hlo Hhi.
  - apply Qeq_eqR in H. lra.
  - destruct H as (Hfrom & Hlt & Hrest).
    apply Qeq_eqR in Hfrom.
    unfold matchingAt; cbn [filter]; fold (matchingAt rest lon).
    destruct (Rlt_le_dec lon (Q2R (to z))) as [Hin | Hout].
    + rewrite (proj2 (inBoundAt_spec lon z)) by lra.
      rewrite (chainAt_below _ _ _ _ Hrest Hin).
      exists z. split; [ reflexivity | now left ].
    + rewrite inBoundAt_false by lra.
      destruct (IH _ _ Hrest Hout Hhi) as (z' & Hm & Hz').
      exists z'. split; [ exact Hm | now right ].
Qed.

Lemma Q2R_360 : Q2R 360 = 360.
Proof. unfold Q2R. cbn. lra. Qed.

Lemma two_chains_tile_at (upper lower : list Bound) (mid : Q) (lon : R) :
  chain mid upper 360 -> chain 0 lower mid ->
  0 <= lon < 360 ->
  exists z, matchingAt (upper ++ lower) lon = [z] /\ In z (upper ++ lower).
Proof.
  intros Hu Hl [H0 H360]. rewrite matchingAt_app.
  destruct (Rlt_le_dec lon (Q2R mid)) as [Hlow | Hup].
  - rewrite (chainAt_below _ _ _ _ Hu Hlow). cbn [app].
    destruct (chainAt_inside lower lon 0%Q mid Hl) as (z & Hm & Hz);
      [ rewrite RMicromega.Q2R_0; lra | exact Hlow | ].
    exists z. split; [ exact Hm | apply in_or_app; now right ].
  - rewrite (chainAt_above _ _ _ _ Hl Hup). rewrite app_nil_r.
    destruct (chainAt_inside upper lon mid 360%Q Hu Hup) as (z & Hm & Hz);
      [ rewrite Q2R_360; lra | ].
    exists z. split; [ exact Hm | apply in_or_app; now left ].
Qed.

(** On a longitude of [[0, 360)] the loop stops at the one row that holds
    it. *)
Lemma basic_lookup_at (lon : R) :
  0 <= lon < 360 ->
  exists z, matchingAt AstronomyBasic.ZODIAC_BOUNDARIES lon = [z]
            /\ AstronomyBasic.getZodiacConstellationAt lon = id z.
Proof.
  intro H. unfold AstronomyBasic.getZodiacConstellationAt.
  rewrite scanAt_matching.
  rewrite <- (firstn_skipn 3 AstronomyBasic.ZODIAC_BOUNDARIES).
  destruct (two_chains_tile_at _ _ 300%Q lon basic_upper basic_lower H)
    as (z & Hm & _).
  exists z. rewrite Hm. split; reflexivity.
Qed.

Lemma mean_lookup_at (lon : R) :
  0 <= lon < 360 ->
  exists z, matchingAt AstronomyMean.ZODIAC_BOUNDS lon = [z]
            /\ AstronomyMean.getZodiacConstellationAt lon = id z.
Proof.
  intro H. unfold AstronomyMean.getZodiacConstellationAt.
  rewrite scanAt_matching.
  rewrite <- (firstn_skipn 4 AstronomyMean.ZODIAC_BOUNDS).
  destruct (two_chains_tile_at _ _ 266.3%Q lon mean_upper mean_lower H)
    as (z & Hm & _).
  exists z. rewrite Hm. split; reflexivity.
Qed.

(** X9. [getFullResult] never takes the fallback of the zodiac lookup and
    never returns an undefined constellation: for every date the Sun
    longitude of the two own Sun models is in [[0, 360)], exactly one row of
    the table holds it, [astroId] is the [id] of that row and
    [astronomical] is its entry of [CONSTELLATION_NAMES]; with the
    astronomy-engine library the same holds whenever the library reports a
    longitude of [[0, 360)], and [astronomical] is defined in any case. *)
Theorem X9_full_result_defined (date : Date) :
  (exists z e,
      matchingAt AstronomyBasic.ZODIAC_BOUNDARIES
        (SunState.lon (AstronomyBasic.sun (AstronomyBasic.getFullResult date)))
      = [z]
      /\ nameOf (id z) = Some e
      /\ AstronomyBasic.astronomical (AstronomyBasic.getFullResult date)
         = Some e)
  /\ (exists z e,
        matchingAt AstronomyMean.ZODIAC_BOUNDS
          (SunState.lon (AstronomyMean.sun (AstronomyMean.getFullResult date)))
        = [z]
        /\ AstronomyMean.astroId (AstronomyMean.getFullResult date) = id z
        /\ AstronomyMean.astronomical (AstronomyMean.getFullResult date)
           = Some e
        /\ nameOf (id z) = Some e)
  /\ (forall Astronomy : AstronomyLib,
        (exists e,
            AstronomyEngine.astronomical
              (AstronomyEngine.getFullResult Astronomy date) = Some e)
        /\ (0 <= elon (SunPosition Astronomy date) < 360 ->
            exists z,
              matchingAt AstronomyEngine.ZODIAC_BOUNDS
                (elon (SunPosition Astronomy date)) = [z]
              /\ AstronomyEngine.astroId
                   (AstronomyEngine.getFullResult Astronomy date) = id z)).
Proof.
  split; [ | split ].
  - unfold AstronomyBasic.getFullResult;
      cbn [AstronomyBasic.sun AstronomyBasic.astronomical].
    destruct (basic_lookup_at
                (SunState.lon (AstronomyBasic.getSunPosition date)))
      as (z & Hm & Hz).
    { unfold AstronomyBasic.getSunPosition; cbn [SunState.lon].
      apply mod360_range. }
    rewrite Hz.
    destruct (nameOf_code (id z)) as [e He].
    { rewrite <- Hz.
      apply (result_known AstronomyBasic.ZODIAC_BOUNDARIES (scanAt _ _));
        [ reflexivity | apply scanAt_In ]. }
    exists z, e. tauto.
  - unfold AstronomyMean.getFullResult;
      cbn [AstronomyMean.sun AstronomyMean.astronomical AstronomyMean.astroId].
    destruct (mean_lookup_at
                (SunState.lon (AstronomyMean.getSunPosition date)))
      as (z & Hm & Hz).
    { unfold AstronomyMean.getSunPosition; cbn [SunState.lon].
      apply mod360_range. }
    rewrite Hz.
    destruct (nameOf_code (id z)) as [e He].
    { rewrite <- Hz.
      apply (result_known AstronomyMean.ZODIAC_BOUNDS (scanAt _ _));
        [ reflexivity | apply scanAt_In ]. }
    exists z, e. tauto.
  - intro Astronomy.
    unfold AstronomyEngine.getFullResult, AstronomyEngine.getSunPosition;
      cbn [AstronomyEngine.astronomical AstronomyEngine.astroId SunState.lon].
    split.
    + apply nameOf_code.
      apply (result_known AstronomyEngine.ZODIAC_BOUNDS (scanAt _ _));
        [ reflexivity | apply scanAt_In ].
    + intro H. exact (mean_lookup_at _ H).
Qed.

Lemma X9_full_result_defined_witness :
  exists z,
    matchingAt AstronomyEngine.ZODIAC_BOUNDS 100 = [z]
    /\ AstronomyEngine.astroId
         (AstronomyEngine.getFullResult
            (mkAstronomyLib unit (fun _ => mkEcl 100 0) (fun _ _ _ => tt)
                            (fun _ => mkEcl 0 0) (fun _ => 0))
            (mkDate 0 0 1 0 0)) = id z.
Proof.
  apply (proj2 (proj2 (proj2 (X9_full_result_defined (mkDate 0 0 1 0 0)))
                  (mkAstronomyLib unit (fun _ => mkEcl 100 0)
                                  (fun _ _ _ => tt)
                                  (fun _ => mkEcl 0 0) (fun _ => 0)))).
  cbn [SunPosition elon]. lra.
Defined.

End FullResultFacts.

(** ** The tropical table on every date *)

Section TropicalTotalFacts.
Import Tropical.
Local Open Scope string_scope.
Local Open Scope Z_scope.

Ltac split_day_tests :=
  repeat match goal with
  | |- context [ ?d >=? ?k ] => destruct (Z.geb_spec d k)
  | |- context [ ?d <=? ?k ] => destruct (Z.leb_spec d k)
  end.

(** In a month of 1..12 exactly one row holds the date. *)
Lemma one_row_per_date (m d : Z) :
  1 <= m <= 12 -> exists s, matching m d = [s].
Proof.
  intro Hm.
  assert (Hc : m = 1 \/ m = 2 \/ m = 3 \/ m = 4 \/ m = 5 \/ m = 6 \/ m = 7
               \/ m = 8 \/ m = 9 \/ m = 10 \/ m = 11 \/ m = 12) by lia.
  unfold matching.
  repeat (destruct Hc as [Hc | Hc]); subst m;
    cbn [filter TROPICAL inRange from to Z.eqb Z.gtb Z.ltb Z.compare
         Pos.compare Pos.compare_cont Pos.eqb andb orb];
    split_day_tests; cbn [andb orb];
    first [ exfalso; lia | eexists; reflexivity ].
Qed.

Lemma scan_first_match (table : list Sign) (m d : Z) :
  scan table m d = hd_error (filter (inRange m d) table).
Proof.
  induction table as [ | s rest IH]; cbn [scan filter].
  - reflexivity.
  - destruct (inRange m d s); [ reflexivity | exact IH ].
Qed.

(** X10. The tropical table covers the calendar: for a date whose month is
    one of the twelve, whatever its day number, exactly one row of the table
    passes the range test, [getTropicalSign] returns that row, and the
    fallback after the loop is not reached. *)
Theorem X10_tropical_total (date : Date) :
  0 <= getUTCMonth date <= 11 ->
  In (getTropicalSign date) TROPICAL
  /\ scan TROPICAL (getUTCMonth date + 1) (getUTCDate date)
     = Some (getTropicalSign date)
  /\ matching (getUTCMonth date + 1) (getUTCDate date)
     = [getTropicalSign date].
Proof.
  intro Hm. unfold getTropicalSign.
  set (m := getUTCMonth date + 1). set (d := getUTCDate date).
  destruct (one_row_per_date m d ltac:(lia)) as [s Hs].
  rewrite scan_first_match. unfold matching in *. rewrite Hs. cbn [hd_error].
  assert (Hin : In s TROPICAL).
  { assert (H : In s (filter (inRange m d) TROPICAL))
      by (rewrite Hs; now left).
    apply filter_In in H. tauto. }
  repeat split; assumption.
Qed.

Lemma X10_tropical_total_witness :
  calendarFields (mkDate 0 6 4 0 0)
  /\ matching (getUTCMonth (mkDate 0 6 4 0 0) + 1)
              (getUTCDate (mkDate 0 6 4 0 0))
     = [getTropicalSign (mkDate 0 6 4 0 0)].
Proof.
  split.
  - unfold calendarFields. cbn. lia.
  - apply (proj2 (proj2 (X10_tropical_total (mkDate 0 6 4 0 0)
                           ltac:(cbn; lia)))).
Defined.

Lemma notAfter_spec (a b : Z * Z) :
  notAfter a b = true
  <-> fst a < fst b \/ (fst a = fst b /\ snd a <= snd b).
Proof.
  unfold notAfter.
  rewrite orb_true_iff, andb_true_iff, Z.ltb_lt, Z.eqb_eq, Z.leb_le.
  tauto.
Qed.

(** X11. The range test of a row is membership in calendar order: for any
    row whose range does not begin and end in the same month, wrapping over
    the year boundary or not, the test holds exactly for the dates from
    [from] through [to] in calendar order.  Every row of the table is such a
    row; for a range inside one month the test would hold on every day of
    that month. *)
Theorem X11_range_test_is_calendar_order :
  (forall (m d : Z) (s : Sign),
      fst (from s) <> fst (to s) ->
      inRange m d s = inCalendarRange m d s)
  /\ Forall (fun s => fst (from s) <> fst (to s)) TROPICAL
  /\ (inRange 5 20 (mkSign "" "" (5, 1) (5, 10)) = true
      /\ inCalendarRange 5 20 (mkSign "" "" (5, 1) (5, 10)) = false).
Proof.
  split; [ | split ].
  - intros m d [nm sy [fm fd] [tm td]]. cbn [from to fst snd]. intro Hne.
    apply Bool.eq_iff_eq_true.
    unfold inRange, inCalendarRange; cbn [from to].
    destruct (notAfter (fm, fd) (tm, td)) eqn:Eo;
      [ apply notAfter_spec in Eo
      | apply Bool.not_true_iff_false in Eo; rewrite notAfter_spec in Eo ];
      cbn [fst snd] in Eo;
      destruct (Z.gtb_spec fm tm);
      rewrite ?orb_true_iff, ?andb_true_iff, ?notAfter_spec;
      cbn [fst snd];
      rewrite ?orb_true_iff, ?andb_true_iff, ?Z.eqb_eq, ?Z.ltb_lt,
        ?Z.leb_le, ?Z.geb_le, ?Z.gtb_lt;
      lia.
  - unfold TROPICAL. repeat constructor; cbn; lia.
  - split; reflexivity.
Qed.

Lemma X11_range_test_is_calendar_order_witness :
  inRange 1 10 (mkSign "Capricorn" "♑" (12, 22) (1, 19))
  = inCalendarRange 1 10 (mkSign "Capricorn" "♑" (12, 22) (1, 19)).
Proof.
  apply (proj1 X11_range_test_is_calendar_order 1 10
           (mkSign "Capricorn" "♑" (12, 22) (1, 19))).
  cbn. lia.
Defined.

End TropicalTotalFacts.

(** ** Orientation of the projection *)

Section ProjectionMoreFacts.
Import JsMath ProjectionSpec.
Local Open Scope R_scope.

Lemma projected_abs (ra dec centerRA : R) (p : Point.t) :
  projectClosed ra dec centerRA = Some p ->
  Rabs (Point.x p) <= 1.011 /\ Rabs (Point.y p) <= 1.011.
Proof.
  intro Hp. apply projectClosed_inv in Hp. destruct Hp as [Hc ->].
  pose proof (stereographic_radius ra dec centerRA ltac:(lra)) as Hr.
  pose proof (radius_bound _ Hc) as Hb. rewrite <- Hr in Hb.
  split.
  - exact (coordinate_bound _ _ Hb).
  - apply (coordinate_bound _ (Point.x (stereographic ra dec centerRA))). lra.
Qed.

(** X13. Where a projected point falls: it is inside the unit circle
    exactly when the target is in the front hemisphere ([cosDist >= 0]);
    northern declinations are drawn above the centre line ([y < 0]) and
    southern ones below; for a target off the poles, right ascensions east of
    the view centre (by less than half a turn) are drawn to the right
    ([x > 0]) and western ones to the left. *)
Theorem X13_projection_orientation (ra dec centerRA fov : R) (p : Point.t) :
  RenderingFull.project ra dec centerRA = Some p
  \/ RenderingBasic.project ra dec centerRA fov = Some p ->
  (Point.x p * Point.x p + Point.y p * Point.y p <= 1
   <-> 0 <= cos (toRad dec) * cos (toRad (ra - centerRA)))
  /\ (0 < dec < 180 -> Point.y p < 0)
  /\ (-180 < dec < 0 -> 0 < Point.y p)
  /\ (-90 < dec < 90 -> 0 < ra - centerRA < 180 -> 0 < Point.x p)
  /\ (-90 < dec < 90 -> -180 < ra - centerRA < 0 -> Point.x p < 0).
Proof.
  rewrite project_full_closed, project_basic_closed. intro H.
  assert (Hp : projectClosed ra dec centerRA = Some p) by tauto. clear H.
  apply projectClosed_inv in Hp. destruct Hp as [Hc ->].
  pose proof (stereographic_radius ra dec centerRA ltac:(lra)) as Hr.
  pose proof PI_RGT_0 as Hpi.
  fold (cosDistOf ra dec centerRA).
  set (c := cosDistOf ra dec centerRA) in *.
  assert (Hd : 0 < / (1 + c)) by (apply Rinv_0_lt_compat; lra).
  assert (Hdd : (1 + c) * / (1 + c) = 1) by (apply Rinv_r; lra).
  split; [ | split; [ | split; [ | split ] ] ].
  - rewrite Hr. unfold Rdiv. split; intro H; nra.
  - intro Hdec. unfold stereographic; cbn [Point.y]. fold c.
    assert (0 < sin (toRad dec))
      by (apply sin_gt_0; unfold toRad; nra).
    unfold Rdiv. nra.
  - intro Hdec. unfold stereographic; cbn [Point.y]. fold c.
    assert (sin (toRad dec) < 0)
      by (apply sin_lt_0_var; unfold toRad; nra).
    unfold Rdiv. nra.
  - intros Hdec Hra. unfold stereographic; cbn [Point.x]. fold c.
    assert (0 < cos (toRad dec)) by (apply cos_gt_0; unfold toRad; nra).
    assert (0 < sin (toRad (ra - centerRA)))
      by (apply sin_gt_0; unfold toRad; nra).
    assert (0 < cos (toRad dec) * sin (toRad (ra - centerRA)))
      by (apply Rmult_lt_0_compat; assumption).
    unfold Rdiv. nra.
  - intros Hdec Hra. unfold stereographic; cbn [Point.x]. fold c.
    assert (0 < cos (toRad dec)) by (apply cos_gt_0; unfold toRad; nra).
    assert (sin (toRad (ra - centerRA)) < 0)
      by (apply sin_lt_0_var; unfold toRad; nra).
    assert (cos (toRad dec) * sin (toRad (ra - centerRA)) < 0) by nra.
    unfold Rdiv. nra.
Qed.

Lemma X13_projection_orientation_witness :
  0 < Point.x (stereographic 30 45 0) /\ Point.y (stereographic 30 45 0) < 0.
Proof.
  destruct (X13_projection_orientation 30 45 0 180 (stereographic 30 45 0))
    as (_ & Hy & _ & Hx & _).
  - left. apply visible_near_center; lra.
  - split; [ apply Hx; lra | apply Hy; lra ].
Defined.

End ProjectionMoreFacts.

(** ** The field-of-view option of src/src/rendering.js *)

Section FovFacts.
Import JsMath Canvas RenderingBasic.
Local Open Scope R_scope.
Local Open Scope list_scope.

Lemma bind_ext {A B : Type} (m m' : Draw A) (k k' : A -> Draw B) (ctx : Ctx) :
  (forall c, m c = m' c) -> (forall a c, k a c = k' a c) ->
  bind m k ctx = bind m' k' ctx.
Proof.
  intros Hm Hk. unfold bind. rewrite Hm. destruct (m' ctx) as [a ctx'].
  apply Hk.
Qed.

Lemma forEach_ext {A : Type} (l : list A) (f g : A -> Draw unit) :
  (forall a c, f a c = g a c) -> forall ctx, forEach l f ctx = forEach l g ctx.
Proof.
  intro H. induction l as [ | a rest IH]; intro ctx; cbn [forEach].
  - reflexivity.
  - apply bind_ext; [ apply H | intros _; exact IH ].
Qed.

Lemma basic_project_fov (ra dec centerRA fov fov' : R) :
  project ra dec centerRA fov = project ra dec centerRA fov'.
Proof. reflexivity. Qed.

Lemma basic_lineLoop_fov (cx cy scale sunRA fov fov' : R)
  (line : list (R * R)) :
  forall started ctx,
    lineLoop cx cy scale sunRA fov started line ctx
    = lineLoop cx cy scale sunRA fov' started line ctx.
Proof.
  induction line as [ | [ra dec] rest IH]; intros started ctx;
    cbn [lineLoop].
  - reflexivity.
  - rewrite (basic_project_fov ra dec sunRA fov fov').
    destruct (project ra dec sunRA fov') as [p | ].
    + apply bind_ext; [ reflexivity | intros _; apply IH ].
    + apply IH.
Qed.

(** The frame for a given value of [fov], as [drawStarMap] runs it once the
    default is filled in. *)
Lemma basic_frame_fov (opts : Opts) (f f' : option R) (ctx : Ctx) :
  drawStarMap (withFov opts f) ctx = drawStarMap (withFov opts f') ctx.
Proof.
  unfold drawStarMap.
  cbn [withFov stars constellations sunRA sunDec activeConstId
       RenderingBasic.fov].
  set (v := match f with Some x => x | None => 180 end).
  set (v' := match f' with Some x => x | None => 180 end).
  clearbody v v'.
  apply bind_ext; [ reflexivity | intros cw ? ].
  apply bind_ext; [ reflexivity | intros ch ? ].
  apply bind_ext; [ reflexivity | intros _ ? ].
  apply bind_ext.
  - apply forEach_ext. intros cn ?.
    do 4 (apply bind_ext; [ reflexivity | intros _ ? ]).
    apply forEach_ext. intros line ?.
    apply bind_ext; [ reflexivity | intros _ ? ].
    apply bind_ext; [ apply basic_lineLoop_fov | reflexivity ].
  - intros _ ?.
    apply bind_ext; [ reflexivity | intros _ ? ].
    apply bind_ext.
    + apply forEach_ext. intros st ?.
      rewrite (basic_project_fov _ _ _ v v'). reflexivity.
    + intros _ ?. rewrite (basic_project_fov _ _ _ v v'). reflexivity.
Qed.

(** X12. The [fov] option of src/src/rendering.js has no effect: [project]
    returns the same point for every value of its [fov] argument, and
    [drawStarMap] issues the same operations on the same context whatever
    [fov] it is given, the default included. *)
Theorem X12_fov_has_no_effect (opts : Opts) (f : option R) :
  (forall ra dec centerRA fov fov',
      project ra dec centerRA fov = project ra dec centerRA fov')
  /\ (forall ctx, drawStarMap (withFov opts f) ctx = drawStarMap opts ctx)
  /\ (forall w h,
        emitted (drawStarMap (withFov opts f)) w h
        = emitted (drawStarMap opts) w h).
Proof.
  assert (E : forall ctx,
             drawStarMap (withFov opts f) ctx = drawStarMap opts ctx).
  { intro ctx. rewrite (basic_frame_fov opts f (RenderingBasic.fov opts)).
    destruct opts; reflexivity. }
  split; [ intros; apply basic_project_fov | ].
  split; [ exact E | ].
  intros w h. unfold emitted. now rewrite E.
Qed.

End FovFacts.

(** ** Everything projected is drawn inside the canvas *)

Section PixelFacts.
Import JsMath Canvas RenderingFull ProjectionSpec.
Local Open Scope R_scope.

Lemma inside_true (w h px py : R) :
  0 < px < w -> 0 < py < h -> inside w h px py = true.
Proof.
  intros [H1 H2] [H3 H4]. unfold inside.
  destruct (Rlt_dec 0 px), (Rlt_dec px w), (Rlt_dec 0 py), (Rlt_dec py h);
    try reflexivity; contradiction.
Qed.

Lemma inside_spec (w h px py : R) :
  inside w h px py = true -> 0 < px < w /\ 0 < py < h.
Proof.
  unfold inside.
  destruct (Rlt_dec 0 px), (Rlt_dec px w), (Rlt_dec 0 py), (Rlt_dec py h);
    cbn; intro H; try discriminate H; tauto.
Qed.

(** The scale is 0.45 of the shorter side and a projected point is within
    1.011 of the origin, so its pixel stays clear of the border. *)
Lemma pixel_inside (w h ra dec centerRA : R) (p : Point.t) :
  0 < w -> 0 < h ->
  project ra dec centerRA = Some p ->
  inside w h (w / 2 + Point.x p * (Rmin w h * 0.45))
             (h / 2 + Point.y p * (Rmin w h * 0.45)) = true.
Proof.
  intros Hw Hh Hp. rewrite project_full_closed in Hp.
  destruct (projected_abs _ _ _ _ Hp) as [Hx Hy].
  assert (Hx' : -1.011 <= Point.x p <= 1.011).
  { pose proof (Rle_abs (Point.x p)). pose proof (Rle_abs (- Point.x p)).
    rewrite Rabs_Ropp in *. lra. }
  assert (Hy' : -1.011 <= Point.y p <= 1.011).
  { pose proof (Rle_abs (Point.y p)). pose proof (Rle_abs (- Point.y p)).
    rewrite Rabs_Ropp in *. lra. }
  pose proof (Rmin_l w h) as Hl. pose proof (Rmin_r w h) as Hr.
  assert (Hm : 0 < Rmin w h) by (apply Rmin_glb_lt; assumption).
  set (mn := Rmin w h) in *.
  assert (Bx : - (1.011 * mn) <= Point.x p * mn <= 1.011 * mn) by nra.
  assert (By : - (1.011 * mn) <= Point.y p * mn <= 1.011 * mn) by nra.
  apply inside_true; split; nra.
Qed.

Lemma lineLoop_no_stray (w h sunRA : R) (line : list (R * R)) :
  0 < w -> 0 < h ->
  forall started,
    issuesNo (strayVertex w h)
             (lineLoop (w / 2) (h / 2) (Rmin w h * 0.45) sunRA started line).
Proof.
  intros Hw Hh.
  induction line as [ | [ra dec] rest IH]; intro started; cbn [lineLoop].
  - apply issuesNo_skip.
  - destruct (project ra dec sunRA) as [p | ] eqn:E.
    + cbv zeta. apply issuesNo_bind; [ | intros _; apply IH ].
      pose proof (pixel_inside w h ra dec sunRA p Hw Hh E) as Hin.
      destruct (negb started); apply issuesNo_emit;
        cbn [strayVertex]; now rewrite Hin.
    + apply IH.
Qed.

(** X14. On a drawing area of positive width and height, every vertex of
    every constellation line and the origin of every star that the frame
    draws lies strictly inside the area: the scale of 0.45 of the shorter
    side keeps even points on the limb of the projection off the border. *)
Theorem X14_drawn_inside_canvas (w h : R) (opts : Opts) (cw ch : R) :
  0 < w -> 0 < h ->
  (forall px py,
      In (MoveTo px py)
         (emitted (constellationLayer (w / 2) (h / 2) (Rmin w h * 0.45) opts)
                  cw ch)
      \/ In (LineTo px py)
            (emitted (constellationLayer (w / 2) (h / 2) (Rmin w h * 0.45)
                                         opts) cw ch) ->
      0 < px < w /\ 0 < py < h)
  /\ (forall px py,
        In (Translate px py)
           (emitted (starLayer (w / 2) (h / 2) (Rmin w h * 0.45) opts) cw ch) ->
        0 < px < w /\ 0 < py < h).
Proof.
  intros Hw Hh. split.
  - assert (Hc : issuesNo (strayVertex w h)
                   (constellationLayer (w / 2) (h / 2) (Rmin w h * 0.45)
                                       opts)).
    { pose proof (lineLoop_no_stray w h (sunRA opts)) as HL.
      unfold constellationLayer. cbv zeta.
      repeat issues_step; apply HL; assumption. }
    pose proof (issuesNo_emitted _ _ cw ch Hc) as Hall.
    rewrite forallb_forall in Hall.
    intros px py [Hin | Hin]; apply Hall in Hin;
      cbn [strayVertex] in Hin; rewrite Bool.negb_involutive in Hin;
      now apply inside_spec.
  - assert (Hs : issuesNo (strayOrigin w h)
                   (starLayer (w / 2) (h / 2) (Rmin w h * 0.45) opts)).
    { unfold starLayer. apply issuesNo_forEach. intro s.
      destruct (project (Star.ra s) (Star.dec s) (sunRA opts)) as [p | ] eqn:E;
        [ | apply issuesNo_skip ].
      cbv zeta.
      pose proof (pixel_inside w h _ _ _ p Hw Hh E) as Hin.
      assert (Ht : strayOrigin w h
                     (Translate (w / 2 + Point.x p * (Rmin w h * 0.45))
                                (h / 2 + Point.y p * (Rmin w h * 0.45)))
                   = false)
        by (cbn [strayOrigin]; now rewrite Hin).
      unfold drawStarShape4. issues_auto. }
    pose proof (issuesNo_emitted _ _ cw ch Hs) as Hall.
    rewrite forallb_forall in Hall.
    intros px py Hin. apply Hall in Hin.
    cbn [strayOrigin] in Hin. rewrite Bool.negb_involutive in Hin.
    now apply inside_spec.
Qed.

Lemma X14_drawn_inside_canvas_witness :
  0 < 800 / 2 + Point.x (stereographic 300 10 280) * (Rmin 800 600 * 0.45)
    < 800
  /\ 0 < 600 / 2 + Point.y (stereographic 300 10 280) * (Rmin 800 600 * 0.45)
      < 600.
Proof.
  apply (proj2 (X14_drawn_inside_canvas 800 600
                  (mkOpts [Star.mk 300 10 2 0.5] [] 280 (-23) "Sgr"%string
                          None None None None)
                  800 600 ltac:(lra) ltac:(lra))).
  unfold starLayer. cbn [stars sunRA forEach Star.ra Star.dec Star.mag Star.bv].
  rewrite (visible_near_center 300 10 280) by lra.
  pose proof drawStarShape4_appends.
  apply in_emitted_left; [ appends_auto | apply appends_skip | ].
  cbv zeta. unfold drawStarShape4.
  apply in_emitted_right; [ appends_auto | appends_auto | ].
  apply in_emitted_left; [ appends_auto | appends_auto | ].
  left. reflexivity.
Defined.

End PixelFacts.

(** ** The Sun and the constellation lines in the frame *)

Section SunAndLinesFacts.
Import JsMath Canvas RenderingFull ProjectionSpec.
Local Open Scope R_scope.
Local Open Scope list_scope.

(** X15. The Sun is always drawn, and always on the vertical centre line:
    for a declination between -90 and 90 degrees (as every Sun model of the
    repository returns) the Sun layer is [drawSun] at [x = cx], whatever the
    right ascension passed as view centre, a dragged one included; its height
    depends on the declination alone. *)
Theorem X15_sun_always_centred (cx cy scale : R) (opts : Opts) (cw ch : R) :
  -90 <= sunDec opts <= 90 ->
  project (sunRA opts) (sunDec opts) (sunRA opts)
  = Some (Point.mk 0 (- sin (toRad (sunDec opts))
                      / (1 + cos (toRad (sunDec opts)))))
  /\ emitted (sunLayer cx cy scale opts) cw ch
     = emitted (drawSun cx (cy + - sin (toRad (sunDec opts))
                                 / (1 + cos (toRad (sunDec opts))) * scale))
               cw ch.
Proof.
  intro Hd.
  pose proof (toRad_quarter _ Hd) as [Hq1 Hq2].
  pose proof (cos_ge_0 _ Hq1 Hq2) as Hc.
  assert (E : project (sunRA opts) (sunDec opts) (sunRA opts)
              = Some (Point.mk 0 (- sin (toRad (sunDec opts))
                                  / (1 + cos (toRad (sunDec opts)))))).
  { rewrite project_full_closed. unfold projectClosed, stereographic, cosDistOf.
    replace (sunRA opts - sunRA opts) with 0 by lra.
    rewrite toRad_0, cos_0, sin_0, Rmult_1_r.
    destruct (Rlt_dec _ _) as [Hlt | _]; [ lra | ].
    f_equal. f_equal. unfold Rdiv. ring. }
  split; [ exact E | ].
  unfold sunLayer. rewrite E. cbn [Point.x Point.y].
  replace (cx + 0 * scale) with cx by ring. reflexivity.
Qed.

Lemma X15_sun_always_centred_witness :
  emitted (sunLayer 400 300 270 exampleScene) 800 600
  = emitted (drawSun 400 (300 + - sin (toRad (sunDec exampleScene))
                                / (1 + cos (toRad (sunDec exampleScene)))
                                * 270)) 800 600.
Proof.
  apply (proj2 (X15_sun_always_centred 400 300 270 exampleScene 800 600
                  ltac:(cbn; lra))).
Defined.

Lemma emitted_cons (op : Op) (m : Draw unit) (w h : R) :
  appends m -> emitted (emit op ;; m)%draw w h = op :: emitted m w h.
Proof.
  intro H. rewrite emitted_seq by (auto using appends_emit). reflexivity.
Qed.

Lemma lineLoop_step (cx cy scale sunRA : R) (started : bool)
  (v : R * R) (rest : list (R * R)) (w h : R) :
  emitted (lineLoop cx cy scale sunRA started (v :: rest)) w h
  = match project (fst v) (snd v) sunRA with
    | None => emitted (lineLoop cx cy scale sunRA false rest) w h
    | Some p =>
        (if negb started
         then MoveTo (cx + Point.x p * scale) (cy + Point.y p * scale)
         else LineTo (cx + Point.x p * scale) (cy + Point.y p * scale))
        :: emitted (lineLoop cx cy scale sunRA true rest) w h
    end.
Proof.
  destruct v as [ra dec]. cbn [lineLoop fst snd].
  destruct (project ra dec sunRA) as [p | ]; [ | reflexivity ].
  cbv zeta. destruct (negb started);
    apply emitted_cons, lineLoop_appends.
Qed.

(** X16. How a constellation line becomes a path: a vertex that does not
    project splits the line, and what follows it is drawn as a line of its
    own, beginning with a [moveTo]; each visible vertex contributes exactly
    one path operation; a fresh path never begins with a [lineTo]; and a run
    of visible vertices after a started path is joined by [lineTo] only.  So
    no segment is drawn across an invisible vertex. *)
Theorem X16_line_breaks_at_invisible (cx cy scale sunRA : R) (w h : R) :
  (forall l1 v l2 started,
      visible sunRA v = false ->
      emitted (lineLoop cx cy scale sunRA started (l1 ++ v :: l2)) w h
      = emitted (lineLoop cx cy scale sunRA started l1) w h
        ++ emitted (lineLoop cx cy scale sunRA false l2) w h)
  /\ (forall l started,
        List.length (emitted (lineLoop cx cy scale sunRA started l) w h)
        = List.length (filter (visible sunRA) l))
  /\ (forall l,
        match emitted (lineLoop cx cy scale sunRA false l) w h with
        | [] => True
        | op :: _ => isMoveTo op = true
        end)
  /\ (forall l,
        forallb (visible sunRA) l = true ->
        forallb isLineTo (emitted (lineLoop cx cy scale sunRA true l) w h)
        = true).
Proof.
  split; [ | split; [ | split ] ].
  - intros l1 v l2 started Hv. revert started.
    induction l1 as [ | a r IH]; intro started.
    + cbn [app]. rewrite lineLoop_step. unfold visible in Hv.
      destruct (project (fst v) (snd v) sunRA); [ discriminate | ].
      reflexivity.
    + cbn [app]. rewrite !lineLoop_step.
      destruct (project (fst a) (snd a) sunRA) as [p | ].
      * rewrite IH. reflexivity.
      * apply IH.
  - intro l. induction l as [ | a r IH]; intro started.
    + reflexivity.
    + rewrite lineLoop_step. cbn [filter]. unfold visible at 1.
      destruct (project (fst a) (snd a) sunRA) as [p | ].
      * cbn [List.length]. now rewrite IH.
      * apply IH.
  - intro l. induction l as [ | a r IH].
    + exact I.
    + rewrite lineLoop_step.
      destruct (project (fst a) (snd a) sunRA) as [p | ];
        [ reflexivity | exact IH ].
  - intro l. induction l as [ | a r IH]; intro Hall.
    + reflexivity.
    + cbn [forallb] in Hall. apply andb_prop in Hall. destruct Hall as [Ha Hr].
      rewrite lineLoop_step. unfold visible in Ha.
      destruct (project (fst a) (snd a) sunRA) as [p | ]; [ | discriminate ].
      cbn [negb forallb isLineTo andb]. now apply IH.
Qed.

Lemma X16_line_breaks_at_invisible_witness :
  emitted (lineLoop 400 300 270 280 false
                    ([(290, 0)] ++ (100, 0) :: [(270, 0)])) 800 600
  = emitted (lineLoop 400 300 270 280 false [(290, 0)]) 800 600
    ++ emitted (lineLoop 400 300 270 280 false [(270, 0)]) 800 600.
Proof.
  apply (proj1 (X16_line_breaks_at_invisible 400 300 270 280 800 600)).
  unfold visible. cbn [fst snd].
  rewrite project_full_closed. unfold projectClosed, cosDistOf.
  replace (toRad (100 - 280)) with (- PI) by (unfold toRad; field).
  rewrite toRad_0, cos_0, cos_neg, cos_PI.
  destruct (Rlt_dec _ _) as [_ | N]; [ reflexivity | lra ].
Defined.

End SunAndLinesFacts.

(** ** Saved and restored context state *)

Section ScopeFacts.
Import Canvas.
Local Open Scope list_scope.

Lemma scoped_app (l1 l2 : list Op) :
  forall d, scoped d (l1 ++ l2)
            = match scoped d l1 with
              | Some d' => scoped d' l2
              | None => None
              end.
Proof.
  induction l1 as [ | op r IH]; intro d; [ reflexivity | ].
  destruct op; cbn [app scoped]; try apply IH;
    destruct d; try reflexivity; apply IH.
Qed.

Lemma wellScoped_ret {A : Type} (a : A) : wellScoped (ret a).
Proof. split; [ apply appends_ret | reflexivity ]. Qed.

Lemma wellScoped_skip : wellScoped skip.
Proof. apply wellScoped_ret. Qed.

Lemma wellScoped_canvasWidth : wellScoped canvasWidth.
Proof. split; [ apply appends_canvasWidth | reflexivity ]. Qed.

Lemma wellScoped_canvasHeight : wellScoped canvasHeight.
Proof. split; [ apply appends_canvasHeight | reflexivity ]. Qed.

Lemma wellScoped_emit (op : Op) :
  (forall d, scoped d [op] = Some d) -> wellScoped (emit op).
Proof. intro H. split; [ apply appends_emit | intros w h d; apply H ]. Qed.

Lemma wellScoped_bind {A B : Type} (m : Draw A) (k : A -> Draw B) :
  wellScoped m -> (forall a, wellScoped (k a)) -> wellScoped (bind m k).
Proof.
  intros [Hm Sm] Hk. split.
  - apply appends_bind; [ exact Hm | intro a; apply Hk ].
  - intros w h d. unfold bind. rewrite (Hm w h []). cbn [app].
    destruct (Hk (fst (m (mkCtx w h [])))) as [Ha Sa].
    rewrite (Ha w h (calls _)). cbn [snd calls].
    rewrite scoped_app, Sm. apply Sa.
Qed.

Lemma wellScoped_forEach {A : Type} (l : list A) (f : A -> Draw unit) :
  (forall a, wellScoped (f a)) -> wellScoped (forEach l f).
Proof.
  intro Hf. induction l as [ | a rest IH]; cbn [forEach].
  - apply wellScoped_skip.
  - apply wellScoped_bind; [ apply Hf | intros _; exact IH ].
Qed.

(** A block whose operations are all written out is checked by running
    it. *)
Lemma wellScoped_run (m : Draw unit) :
  appends m ->
  (forall w h d, scoped d (emitted m w h) = Some d) -> wellScoped m.
Proof. intros Ha Hs. split; assumption. Qed.

End ScopeFacts.

Ltac scope_step :=
  match goal with
  | |- Canvas.wellScoped (Canvas.bind _ _) =>
      apply wellScoped_bind; [ | intro ]
  | |- Canvas.wellScoped (Canvas.forEach _ _) =>
      apply wellScoped_forEach; intro
  | |- Canvas.wellScoped (Canvas.emit _) =>
      apply wellScoped_emit; intro; reflexivity
  | |- Canvas.wellScoped Canvas.skip => apply wellScoped_skip
  | |- Canvas.wellScoped Canvas.canvasWidth => apply wellScoped_canvasWidth
  | |- Canvas.wellScoped Canvas.canvasHeight => apply wellScoped_canvasHeight
  | |- Canvas.wellScoped (match ?v with _ => _ end) => destruct v
  | |- Canvas.wellScoped _ => solve [ auto ]
  end.

Ltac scope_auto := repeat scope_step.

Section FrameScopeFacts.
Import Canvas.
Local Open Scope list_scope.

Lemma basic_draw4PointStar_scoped (px py size : R) (color : string) :
  wellScoped (RenderingBasic.draw4PointStar px py size color).
Proof.
  apply wellScoped_run; [ apply basic_draw4PointStar_appends | ].
  intros w h d. reflexivity.
Qed.

Lemma basic_lineLoop_scoped (cx cy scale sunRA fov : R) (line : list (R * R)) :
  forall started,
    wellScoped (RenderingBasic.lineLoop cx cy scale sunRA fov started line).
Proof.
  induction line as [ | [ra dec] rest IH]; intro started;
    cbn [RenderingBasic.lineLoop].
  - apply wellScoped_skip.
  - destruct (RenderingBasic.project ra dec sunRA fov) as [p | ].
    + cbv zeta. apply wellScoped_bind; [ | intros _; apply IH ].
      destruct (negb started); apply wellScoped_emit; reflexivity.
    + apply IH.
Qed.

Lemma basic_drawStarMap_scoped (opts : RenderingBasic.Opts) :
  wellScoped (RenderingBasic.drawStarMap opts).
Proof.
  pose proof basic_draw4PointStar_scoped.
  pose proof basic_lineLoop_scoped.
  unfold RenderingBasic.drawStarMap. cbv zeta.
  apply wellScoped_bind; [ apply wellScoped_canvasWidth | intro cw ].
  apply wellScoped_bind; [ apply wellScoped_canvasHeight | intro ch ].
  repeat (apply wellScoped_bind; [ scope_auto | intros _ ]).
  destruct (RenderingBasic.project _ _ _ _) as [sunP | ];
    [ | apply wellScoped_skip ].
  apply wellScoped_run; [ appends_auto | ].
  intros w h d. reflexivity.
Qed.

Lemma drawLabel_scoped (px py offset : R) (text color : string) :
  wellScoped (RenderingFull.drawLabel px py offset text color).
Proof.
  apply wellScoped_run; [ apply drawLabel_appends | ].
  intros w h d. reflexivity.
Qed.

Lemma drawStarShape4_scoped (px py size : R) (color : Css) (glow : option Css) :
  wellScoped (RenderingFull.drawStarShape4 px py size color glow).
Proof.
  apply wellScoped_run; [ apply drawStarShape4_appends | ].
  intros w h d. destruct glow; reflexivity.
Qed.

Lemma drawSun_scoped (px py : R) : wellScoped (RenderingFull.drawSun px py).
Proof.
  apply wellScoped_run; [ apply drawSun_appends | ].
  intros w h d. reflexivity.
Qed.

Lemma drawEarth_scoped (w h altitude : R) :
  wellScoped (RenderingFull.drawEarth w h altitude).
Proof.
  apply wellScoped_run; [ apply drawEarth_appends | ].
  intros cw ch d. reflexivity.
Qed.

Lemma drawMoon_scoped (px py phase : R) :
  wellScoped (RenderingFull.drawMoon px py phase).
Proof.
  apply wellScoped_run; [ apply drawMoon_appends | ].
  intros w h d. unfold RenderingFull.drawMoon. cbv zeta.
  destruct (Rlt_dec (1 - phase) 0.5); reflexivity.
Qed.

Lemma drawPlanet_scoped (px py : R) (def : RenderingFull.PlanetDef.t) :
  wellScoped (RenderingFull.drawPlanet px py def).
Proof.
  apply wellScoped_run; [ apply drawPlanet_appends | ].
  intros w h d. unfold RenderingFull.drawPlanet. cbv zeta.
  destruct (RenderingFull.PlanetDef.hasRings def); reflexivity.
Qed.

Lemma drawSpecialPoint_scoped (px py : R) (def : RenderingFull.SpecialDef.t) :
  wellScoped (RenderingFull.drawSpecialPoint px py def).
Proof.
  apply wellScoped_run; [ apply drawSpecialPoint_appends | ].
  intros w h d. unfold RenderingFull.drawSpecialPoint. cbv zeta.
  destruct (RenderingFull.SpecialDef.isNode def); reflexivity.
Qed.

Lemma lineLoop_scoped (cx cy scale sunRA : R) (line : list (R * R)) :
  forall started,
    wellScoped (RenderingFull.lineLoop cx cy scale sunRA started line).
Proof.
  induction line as [ | [ra dec] rest IH]; intro started;
    cbn [RenderingFull.lineLoop].
  - apply wellScoped_skip.
  - destruct (RenderingFull.project ra dec sunRA) as [p | ].
    + cbv zeta. apply wellScoped_bind; [ | intros _; apply IH ].
      destruct (negb started); apply wellScoped_emit; reflexivity.
    + apply IH.
Qed.

Lemma drawStarMap_scoped (dpr : R) (opts : RenderingFull.Opts) :
  wellScoped (RenderingFull.drawStarMap dpr opts).
Proof.
  pose proof drawLabel_scoped. pose proof drawStarShape4_scoped.
  pose proof drawSun_scoped. pose proof drawEarth_scoped.
  pose proof drawMoon_scoped. pose proof drawPlanet_scoped.
  pose proof drawSpecialPoint_scoped. pose proof lineLoop_scoped.
  unfold RenderingFull.drawStarMap, RenderingFull.earthLayer,
    RenderingFull.constellationLayer, RenderingFull.starLayer,
    RenderingFull.planetLayer, RenderingFull.specialsLayer,
    RenderingFull.specialsMoon, RenderingFull.specialsPoints,
    RenderingFull.sunLayer.
  cbv zeta. scope_auto.
Qed.

End FrameScopeFacts.

(** ** The horizon, the Moon and the stars *)

Section BodyFacts.
Import JsMath Canvas RenderingFull.
Local Open Scope string_scope.
Local Open Scope R_scope.
Local Open Scope list_scope.

(** X18. The horizon layer fades in linearly: the global alpha it sets is
    0.1 up to an altitude of -5 degrees, 1 from 5 degrees on, and
    [0.1 + 0.09 (altitude + 5)] in between, so always within [[0.1, 1]] and
    without a jump at either end; the blur it sets is [5 (1 - alpha)] pixels,
    between 0 and 4.5. *)
Theorem X18_horizon_fade (w h altitude cw ch : R) :
  exists alpha,
    (forall a, In (SetGlobalAlpha a) (emitted (drawEarth w h altitude) cw ch)
               <-> a = alpha)
    /\ (forall f, In (SetFilter f) (emitted (drawEarth w h altitude) cw ch)
                  <-> f = Template "blur(" ((1 - alpha) * 5) "px)")
    /\ 0.1 <= alpha <= 1
    /\ 0 <= (1 - alpha) * 5 <= 4.5
    /\ (altitude <= -5 -> alpha = 0.1)
    /\ (5 <= altitude -> alpha = 1)
    /\ (-5 <= altitude <= 5 -> alpha = 0.1 + 0.09 * (altitude + 5)).
Proof.
  exists (if Rgt_dec altitude 5 then 1
          else if Rlt_dec altitude (-5) then 0.1
          else 0.1 + (altitude + 5) / 10 * 0.9).
  split; [ | split ].
  - intro a. unfold drawEarth. cbv zeta.
    cbv [emitted bind emit calls snd fst width height app]. cbn [In].
    split.
    + intro H.
      repeat (destruct H as [H | H];
              [ first [ discriminate H | now inversion H ] | ]).
      contradiction.
    + intros ->. tauto.
  - intro f. unfold drawEarth. cbv zeta.
    cbv [emitted bind emit calls snd fst width height app]. cbn [In].
    split.
    + intro H.
      repeat (destruct H as [H | H];
              [ first [ discriminate H | now inversion H ] | ]).
      contradiction.
    + intros ->. tauto.
  - destruct (Rgt_dec altitude 5); [ | destruct (Rlt_dec altitude (-5)) ];
      repeat split; try intro; lra.
Qed.

Lemma X18_horizon_fade_witness :
  exists alpha,
    In (SetGlobalAlpha alpha) (emitted (drawEarth 800 600 0) 800 600)
    /\ alpha = 0.1 + 0.09 * (0 + 5).
Proof.
  destruct (X18_horizon_fade 800 600 0 800 600)
    as (alpha & Ha & _ & _ & _ & _ & _ & Hmid).
  exists alpha. split; [ now apply Ha | apply Hmid; lra ].
Defined.

(** X19. The Moon never asks the canvas for a negative radius: for a phase
    between 0 and 1 every [arc] of [drawMoon] has a positive radius and the
    terminator ellipse has a height of 10 and a width between 0 and 10; the
    phase [getMoon] returns is such a phase for every date, in both
    revisions. *)
Theorem X19_moon_radii (px py cw ch : R) :
  (forall phase op,
      0 <= phase <= 1 ->
      In op (emitted (drawMoon px py phase) cw ch) -> moonRadiiOk op)
  /\ (forall date op,
        In op (emitted (drawMoon px py
                          (MoonState.phase (AstronomyMean.getMoon date)))
                       cw ch) ->
        moonRadiiOk op)
  /\ (forall Astronomy date op,
        In op (emitted (drawMoon px py
                          (MoonState.phase
                             (AstronomyEngine.getMoon Astronomy date)))
                       cw ch) ->
        moonRadiiOk op).
Proof.
  assert (main : forall phase op, 0 <= phase <= 1 ->
            In op (emitted (drawMoon px py phase) cw ch) -> moonRadiiOk op).
  { intros phase op Hph. unfold drawMoon. cbv zeta.
    destruct (Rlt_dec (1 - phase) 0.5) as [Hlt | Hge];
      cbv [emitted bind emit calls snd fst width height app drawLabel];
      cbn [In]; intro H;
      repeat (destruct H as [<- | H];
              [ cbn [moonRadiiOk]; first [ exact I | lra | split; lra ] | ]);
      contradiction. }
  split; [ exact main | ]. split.
  - intros date op. apply main.
    pose proof (mean_phase_range date). lra.
  - intros Astronomy date op. apply main.
    pose proof (engine_phase_range Astronomy date). lra.
Qed.

Lemma X19_moon_radii_witness :
  moonRadiiOk (Arc 400 300 10 0 (PI * 2) false).
Proof.
  apply (proj1 (X19_moon_radii 400 300 800 600) 0.25
           (Arc 400 300 10 0 (PI * 2) false) ltac:(lra)).
  unfold drawMoon. cbv zeta.
  destruct (Rlt_dec (1 - 0.25) 0.5);
    cbv [emitted bind emit calls snd fst width height app drawLabel];
    cbn [In]; tauto.
Defined.

(** X20. A star's radius grows with its brightness and has a floor: the
    radius never falls below 0.6 (0.5 in src/src/rendering.js), a smaller
    magnitude never gives a smaller radius, and from magnitude 52/9 (50/9) on
    every star has the floor radius. *)
Theorem X20_star_radius (mag mag' : R) :
  (0.6 <= starRadius mag
   /\ (mag <= mag' -> starRadius mag' <= starRadius mag)
   /\ (52 / 9 <= mag -> starRadius mag = 0.6)
   /\ (mag <= 52 / 9 -> starRadius mag = 3.2 - mag * 0.45))
  /\ (0.5 <= RenderingBasic.starRadius mag
      /\ (mag <= mag' ->
          RenderingBasic.starRadius mag' <= RenderingBasic.starRadius mag)
      /\ (50 / 9 <= mag -> RenderingBasic.starRadius mag = 0.5)
      /\ (mag <= 50 / 9 -> RenderingBasic.starRadius mag = 3.0 - mag * 0.45)).
Proof.
  unfold starRadius, RenderingBasic.starRadius, Rmax.
  repeat match goal with
         | |- context [Rle_dec ?a ?b] => destruct (Rle_dec a b)
         end;
    repeat split; try intro; lra.
Qed.

Lemma X20_star_radius_witness :
  starRadius 6 <= starRadius 1 /\ starRadius 6 = 0.6.
Proof.
  destruct (X20_star_radius 1 6) as [(_ & Hmono & _) _].
  destruct (X20_star_radius 6 6) as [(_ & _ & Hfloor & _) _].
  split; [ apply Hmono; lra | apply Hfloor; lra ].
Defined.

End BodyFacts.

(** ** The planet layer, entry by entry *)

Section PlanetLayerFacts.
Import JsMath Canvas RenderingFull.
Local Open Scope string_scope.
Local Open Scope R_scope.
Local Open Scope list_scope.

Lemma emitted_forEach_app {A : Type} (l1 l2 : list A) (f : A -> Draw unit)
  (w h : R) :
  (forall a, appends (f a)) ->
  emitted (forEach (l1 ++ l2) f) w h
  = emitted (forEach l1 f) w h ++ emitted (forEach l2 f) w h.
Proof.
  intro Hf. induction l1 as [ | a r IH]; cbn [app forEach].
  - reflexivity.
  - rewrite !emitted_seq by (auto using appends_forEach).
    rewrite IH. apply app_assoc.
Qed.

Lemma planet_entry_appends (cx cy scale ra0 : R)
  (entry : string * option Equatorial.t) :
  appends (let '(id, pos) := entry in
           match lookup id PLANETS, pos with
           | Some def, Some pos =>
               match project (Equatorial.ra pos) (Equatorial.dec pos) ra0 with
               | None => skip
               | Some p =>
                   drawPlanet (cx + Point.x p * scale)
                              (cy + Point.y p * scale) def
               end
           | _, _ => skip
           end).
Proof.
  pose proof drawPlanet_appends. destruct entry as [id pos]. appends_auto.
Qed.

(** X21. The planet layer draws its entries one by one, in the order of the
    object's keys: the layer of two lists of entries is the layer of the first
    followed by the layer of the second; an entry with a row of [PLANETS], a
    position and a projection is [drawPlanet] at its pixel; an entry whose
    position is [null], which does not project, or whose key has no row of
    [PLANETS] (and is not a name inherited from [Object.prototype])
    contributes nothing, like an absent or empty [planets] object. *)
Theorem X21_planet_layer_by_entry (cx cy scale : R) (opts : Opts) (cw ch : R) :
  (forall e1 e2,
      emitted (planetLayer cx cy scale (withPlanets opts (Some (e1 ++ e2))))
              cw ch
      = emitted (planetLayer cx cy scale (withPlanets opts (Some e1))) cw ch
        ++ emitted (planetLayer cx cy scale (withPlanets opts (Some e2)))
                   cw ch)
  /\ (forall id def pos p,
        lookup id PLANETS = Some def ->
        project (Equatorial.ra pos) (Equatorial.dec pos) (sunRA opts)
        = Some p ->
        emitted (planetLayer cx cy scale
                   (withPlanets opts (Some [(id, Some pos)]))) cw ch
        = emitted (drawPlanet (cx + Point.x p * scale)
                              (cy + Point.y p * scale) def) cw ch)
  /\ (forall id pos,
        (lookup id PLANETS = None /\ inheritedKey id = false)
        \/ pos = None
        \/ (exists q, pos = Some q
                      /\ project (Equatorial.ra q) (Equatorial.dec q)
                                 (sunRA opts) = None) ->
        emitted (planetLayer cx cy scale
                   (withPlanets opts (Some [(id, pos)]))) cw ch = [])
  /\ emitted (planetLayer cx cy scale (withPlanets opts None)) cw ch = []
  /\ emitted (planetLayer cx cy scale (withPlanets opts (Some []))) cw ch = [].
Proof.
  split; [ | split; [ | split; [ | split ] ] ].
  - intros e1 e2. unfold planetLayer. cbn [planets withPlanets sunRA].
    apply emitted_forEach_app. intro entry.
    apply (planet_entry_appends cx cy scale (sunRA opts) entry).
  - intros id def pos p Hdef Hp. unfold planetLayer.
    cbn [planets withPlanets sunRA forEach]. rewrite Hdef, Hp.
    rewrite emitted_seq by (auto using drawPlanet_appends, appends_skip).
    rewrite emitted_skip. apply app_nil_r.
  - intros id pos H. unfold planetLayer.
    cbn [planets withPlanets sunRA forEach].
    destruct H as [[H _] | [H | (q & Hq & Hp)]].
    + rewrite H. reflexivity.
    + rewrite H. destruct (lookup id PLANETS); reflexivity.
    + rewrite Hq, Hp. destruct (lookup id PLANETS); reflexivity.
  - reflexivity.
  - reflexivity.
Qed.

Lemma X21_planet_layer_by_entry_witness :
  emitted (planetLayer 400 300 270
             (withPlanets exampleScene (Some [("pluto", None)]))) 800 600
  = [].
Proof.
  apply (proj1 (proj2 (proj2 (X21_planet_layer_by_entry
                                400 300 270 exampleScene 800 600)))
           "pluto" None).
  left. split; reflexivity.
Defined.

End PlanetLayerFacts.

(** ** The catalog filter *)

Section FilterFacts.
Import FilterStars Zodiac.
Local Open Scope string_scope.
Local Open Scope list_scope.

Lemma includes_In (l : list string) (i : string) :
  includes l i = true <-> In i l.
Proof.
  unfold includes. rewrite existsb_exists. split.
  - intros (c & Hc & E). apply String.eqb_eq in E. now subst c.
  - intro H. exists i. split; [ exact H | apply String.eqb_refl ].
Qed.

(** Every code is the constellation of some longitude. *)
Lemma every_code_attained (i : string) :
  In i ZODIAC ->
  exists q : Q,
    (0 <= q /\ q < 360)%Q
    /\ AstronomyBasic.getZodiacConstellation q = i
    /\ AstronomyMean.getZodiacConstellation q = i
    /\ AstronomyEngine.getZodiacConstellation q = i.
Proof.
  unfold ZODIAC. cbn [In]. intro H.
  destruct H as [<- | H]; [ exists 310%Q; repeat split; discriminate | ].
  destruct H as [<- | H]; [ exists 340%Q; repeat split; discriminate | ].
  destruct H as [<- | H]; [ exists 10%Q; repeat split; discriminate | ].
  destruct H as [<- | H]; [ exists 40%Q; repeat split; discriminate | ].
  destruct H as [<- | H]; [ exists 60%Q; repeat split; discriminate | ].
  destruct H as [<- | H]; [ exists 100%Q; repeat split; discriminate | ].
  destruct H as [<- | H]; [ exists 120%Q; repeat split; discriminate | ].
  destruct H as [<- | H]; [ exists 150%Q; repeat split; discriminate | ].
  destruct H as [<- | H]; [ exists 200%Q; repeat split; discriminate | ].
  destruct H as [<- | H]; [ exists 230%Q; repeat split; discriminate | ].
  destruct H as [<- | H]; [ exists 245%Q; repeat split; discriminate | ].
  destruct H as [<- | H]; [ exists 250%Q; repeat split; discriminate | ].
  destruct H as [<- | H]; [ exists 280%Q; repeat split; discriminate | ].
  contradiction.
Qed.

(** X22. The catalog filter keeps exactly the constellations the Sun can be
    found in: a constellation feature survives the filter exactly when it has
    an [id] that [getZodiacConstellation] returns for some longitude of
    [[0, 360)], in any revision of the lookup; a feature without such an [id]
    is dropped; and every code the lookup returns, for any longitude, is
    one the filter keeps. *)
Theorem X22_constellation_filter (Feature : Type)
  (featureId : Feature -> option string) (all : list Feature) (f : Feature) :
  (In f (filterConstellations Feature featureId all)
   <-> In f all
       /\ exists i, featureId f = Some i
            /\ exists q : Q,
                 (0 <= q /\ q < 360)%Q
                 /\ AstronomyBasic.getZodiacConstellation q = i
                 /\ AstronomyMean.getZodiacConstellation q = i
                 /\ AstronomyEngine.getZodiacConstellation q = i)
  /\ (forall q : Q,
        includes ZODIAC (AstronomyBasic.getZodiacConstellation q) = true
        /\ includes ZODIAC (AstronomyMean.getZodiacConstellation q) = true
        /\ includes ZODIAC (AstronomyEngine.getZodiacConstellation q) = true).
Proof.
  split.
  - unfold filterConstellations, keepConstellation. rewrite filter_In.
    split.
    + intros [Hin Hk]. split; [ exact Hin | ].
      destruct (featureId f) as [i | ]; [ | discriminate ].
      exists i. split; [ reflexivity | ].
      apply every_code_attained. now apply includes_In.
    + intros (Hin & i & Hi & q & _ & _ & _ & Hq). split; [ exact Hin | ].
      rewrite Hi. apply includes_In. rewrite <- Hq.
      change ZODIAC with CONSTELLATION_CODES.
      apply (result_known AstronomyEngine.ZODIAC_BOUNDS (scan _ q));
        [ reflexivity | apply scan_In ].
  - intro q. change ZODIAC with CONSTELLATION_CODES.
    split; [ | split ]; apply includes_In.
    + apply (result_known AstronomyBasic.ZODIAC_BOUNDARIES (scan _ q));
        [ reflexivity | apply scan_In ].
    + apply (result_known AstronomyMean.ZODIAC_BOUNDS (scan _ q));
        [ reflexivity | apply scan_In ].
    + apply (result_known AstronomyEngine.ZODIAC_BOUNDS (scan _ q));
        [ reflexivity | apply scan_In ].
Qed.

Lemma keepStar_spec (Feature : Type) (coordinate1 : Feature -> option Numeric)
  (f : Feature) :
  keepStar Feature coordinate1 f = Some true
  <-> exists dec, coordinate1 f = Some (Num dec) /\ (-53 <= dec <= 53)%R.
Proof.
  unfold keepStar, js_ge, js_le, DEC_MIN, DEC_MAX.
  destruct (coordinate1 f) as [[ | dec] | ].
  - split; [ discriminate | intros (dec & E & _); discriminate ].
  - split.
    + intro H. exists dec. split; [ reflexivity | ].
      destruct (Rge_dec dec (-53)), (Rle_dec dec 53); cbn [andb] in H;
        try discriminate; lra.
    + intros (dec' & E & H). injection E as <-.
      destruct (Rge_dec dec (-53)), (Rle_dec dec 53); cbn [andb];
        try reflexivity; exfalso; lra.
  - split; [ discriminate | intros (dec & E & _); discriminate ].
Qed.

Lemma filterStars_None (Feature : Type)
  (coordinate1 : Feature -> option Numeric) (all : list Feature) :
  filterStars Feature coordinate1 all = None
  <-> exists f, In f all /\ coordinate1 f = None.
Proof.
  induction all as [ | g rest IH]; cbn [filterStars In].
  - split; [ discriminate | intros (f & [] & _) ].
  - unfold keepStar at 1. destruct (coordinate1 g) as [dec | ] eqn:Eg.
    + destruct (filterStars Feature coordinate1 rest) as [kept | ].
      * split; [ discriminate | ].
        intros (f & [<- | Hin] & Hf); [ congruence | ].
        assert (H : Some kept = None) by (apply IH; now exists f).
        discriminate.
      * split; [ intros _ | reflexivity ].
        destruct (proj1 IH eq_refl) as (f & Hin & Hf).
        exists f. tauto.
    + split; [ intros _ | reflexivity ]. exists g. tauto.
Qed.

Lemma filterStars_Some (Feature : Type)
  (coordinate1 : Feature -> option Numeric) (all kept : list Feature) :
  filterStars Feature coordinate1 all = Some kept ->
  kept = filter (fun f => match keepStar Feature coordinate1 f with
                          | Some true => true
                          | _ => false
                          end) all.
Proof.
  revert kept. induction all as [ | g rest IH]; cbn [filterStars filter].
  - intros kept E. now injection E as <-.
  - intros kept E. destruct (keepStar Feature coordinate1 g) as [keep | ];
      [ | discriminate ].
    destruct (filterStars Feature coordinate1 rest) as [kept' | ];
      [ | discriminate ].
    injection E as <-. rewrite <- (IH kept' eq_refl).
    destruct keep; reflexivity.
Qed.



End FilterFacts.

(** ** What a frame paints, and what it leaves on the context *)

Section StateFacts.
Import Canvas CanvasState.
Local Open Scope list_scope.

Lemma run_app (l1 l2 : list Op) :
  forall s,
    run (l1 ++ l2) s
    = (painted l1 s ++ painted l2 (after l1 s), after l2 (after l1 s)).
Proof.
  unfold painted, after.
  induction l1 as [ | op rest IH]; intro s; cbn [app run].
  - cbn [fst snd app]. destruct (run l2 s). reflexivity.
  - destruct (step op s) as [p s1]. rewrite IH.
    destruct (run rest s1) as [q s2]. cbn [fst snd].
    now rewrite app_assoc.
Qed.

Lemma painted_app (l1 l2 : list Op) (s : State) :
  painted (l1 ++ l2) s = painted l1 s ++ painted l2 (after l1 s).
Proof. unfold painted at 1. now rewrite run_app. Qed.

Lemma after_app (l1 l2 : list Op) (s : State) :
  after (l1 ++ l2) s = after l2 (after l1 s).
Proof. unfold after at 1. now rewrite run_app. Qed.

Lemma carries_nil (P : State -> State -> Prop) : carries P P [].
Proof. intros a b H. split; [ reflexivity | exact H ]. Qed.

Lemma carries_app (P Q R : State -> State -> Prop) (l1 l2 : list Op) :
  carries P Q l1 -> carries Q R l2 -> carries P R (l1 ++ l2).
Proof.
  intros H1 H2 a b Hab. destruct (H1 a b Hab) as [E1 Hq].
  destruct (H2 _ _ Hq) as [E2 Hr].
  rewrite !painted_app, !after_app, E1, E2. split; [ reflexivity | exact Hr ].
Qed.

Lemma carries_weaken (P P' Q Q' : State -> State -> Prop) (l : list Op) :
  (forall a b, P' a b -> P a b) -> (forall a b, Q a b -> Q' a b) ->
  carries P Q l -> carries P' Q' l.
Proof.
  intros Hp Hq H a b Hab. destruct (H a b (Hp a b Hab)) as [E Hpost].
  split; [ exact E | apply Hq, Hpost ].
Qed.

Lemma relates_skip (P : State -> State -> Prop) : relates P P skip.
Proof. split; [ apply appends_skip | intros w h; apply carries_nil ]. Qed.

Lemma relates_emit (P Q : State -> State -> Prop) (op : Op) :
  carries P Q [op] -> relates P Q (emit op).
Proof. intro H. split; [ apply appends_emit | intros w h; exact H ]. Qed.

Lemma relates_seq (P Q R : State -> State -> Prop) (m1 m2 : Draw unit) :
  relates P Q m1 -> relates Q R m2 -> relates P R (bind m1 (fun _ => m2)).
Proof.
  intros [A1 H1] [A2 H2]. split.
  - apply appends_bind; [ exact A1 | intros _; exact A2 ].
  - intros w h. rewrite emitted_seq by assumption.
    apply (carries_app P Q R); [ apply H1 | apply H2 ].
Qed.

Lemma relates_forEach {A : Type} (P : State -> State -> Prop) (l : list A)
  (f : A -> Draw unit) :
  (forall a, relates P P (f a)) -> relates P P (forEach l f).
Proof.
  intro Hf. induction l as [ | a rest IH]; cbn [forEach].
  - apply relates_skip.
  - apply (relates_seq P P P); [ apply Hf | exact IH ].
Qed.

Lemma relates_weaken (P P' Q Q' : State -> State -> Prop) (m : Draw unit) :
  (forall a b, P' a b -> P a b) -> (forall a b, Q a b -> Q' a b) ->
  relates P Q m -> relates P' Q' m.
Proof.
  intros Hp Hq [Ha H]. split; [ exact Ha | ].
  intros w h. apply (carries_weaken P P' Q Q'); [ exact Hp | exact Hq | apply H ].
Qed.

Lemma calm_sameSurroundings (a b : State) : calm a b -> sameSurroundings a b.
Proof. intros [H _]. exact H. Qed.

Lemma strokeReady_sameSurroundings (a b : State) :
  strokeReady a b -> sameSurroundings a b.
Proof. intros [H _]. exact H. Qed.

End StateFacts.

(** Two related contexts, field by field. *)
Ltac unpack_states :=
  intros [[? ? ? ? ? ? ? ? ? ? ?] ? ?] [[? ? ? ? ? ? ? ? ? ? ?] ? ?];
  unfold CanvasState.calm, CanvasState.strokeReadyOnPath,
    CanvasState.strokeReady, CanvasState.sameSurroundings,
    CanvasState.surroundings, CanvasState.strokeSetup;
  cbn [CanvasState.drawing CanvasState.path CanvasState.saved
       CanvasState.transform CanvasState.clip CanvasState.filter
       CanvasState.globalAlpha CanvasState.fillStyle CanvasState.strokeStyle
       CanvasState.lineWidth CanvasState.shadowBlur CanvasState.shadowColor
       CanvasState.font CanvasState.textAlign];
  let H := fresh "Hrel" in
  intro H;
  repeat match goal with
         | K : _ /\ _ |- _ => destruct K
         end;
  repeat match goal with
         | K : (_, _) = (_, _) |- _ => injection K as ? ?
         end;
  subst.

(** Run written-out operations on contexts given field by field. *)
Ltac run_ops :=
  cbv [CanvasState.painted CanvasState.after CanvasState.run
       CanvasState.step fst snd app
       CanvasState.drawing CanvasState.path CanvasState.saved
       CanvasState.transform CanvasState.clip CanvasState.filter
       CanvasState.globalAlpha CanvasState.fillStyle CanvasState.strokeStyle
       CanvasState.lineWidth CanvasState.shadowBlur CanvasState.shadowColor
       CanvasState.font CanvasState.textAlign
       CanvasState.setTransform CanvasState.setClip CanvasState.setFilter
       CanvasState.setGlobalAlpha CanvasState.setFillStyle
       CanvasState.setStrokeStyle CanvasState.setLineWidth
       CanvasState.setShadowBlur CanvasState.setShadowColor
       CanvasState.setFont CanvasState.setTextAlign
       CanvasState.compositing CanvasState.shadow
       CanvasState.calm CanvasState.strokeReadyOnPath
       CanvasState.strokeReady CanvasState.sameSurroundings
       CanvasState.surroundings CanvasState.strokeSetup].

(** Where a blur decides whether a shadow is cast, both ways. *)
Ltac split_shadows :=
  repeat match goal with
         | |- context [Req_dec_T ?x ?y] => destruct (Req_dec_T x y)
         end.

Ltac carry_ops :=
  unpack_states; run_ops; split_shadows;
  first [ exfalso; congruence | repeat split; reflexivity ].

Section LeafFacts.
Import JsMath Canvas CanvasState.
Local Open Scope R_scope.
Local Open Scope list_scope.

Lemma drawSun_calm (px py : R) :
  relates calm calm (RenderingFull.drawSun px py).
Proof.
  split; [ apply drawSun_appends | ].
  intros w h.
  cbv [emitted RenderingFull.drawSun bind emit calls snd fst width height app].
  carry_ops.
Qed.

Lemma drawEarth_calm (w h altitude : R) :
  relates calm calm (RenderingFull.drawEarth w h altitude).
Proof.
  split; [ apply drawEarth_appends | ].
  intros cw ch.
  cbv [emitted RenderingFull.drawEarth bind emit calls snd fst width height
       app].
  carry_ops.
Qed.

Lemma drawStarShape4_calm (px py size : R) (color : Css) (glow : option Css) :
  relates calm calm (RenderingFull.drawStarShape4 px py size color glow).
Proof.
  split; [ apply drawStarShape4_appends | ].
  intros w h. destruct glow as [g | ];
    cbv [emitted RenderingFull.drawStarShape4 bind emit skip ret forEach
         Z.eqb calls snd fst width height app];
    carry_ops.
Qed.

Lemma drawLabel_calm (px py offset : R) (text color : string) :
  relates calm calm (RenderingFull.drawLabel px py offset text color).
Proof.
  split; [ apply drawLabel_appends | ].
  intros w h.
  cbv [emitted RenderingFull.drawLabel bind emit calls snd fst width height
       app].
  carry_ops.
Qed.

Lemma drawMoon_calm (px py phase : R) :
  relates calm calm (RenderingFull.drawMoon px py phase).
Proof.
  split; [ apply drawMoon_appends | ].
  intros w h. unfold RenderingFull.drawMoon. cbv zeta.
  destruct (Rlt_dec (1 - phase) 0.5);
    cbv [emitted RenderingFull.drawLabel bind emit calls snd fst width height
         app];
    carry_ops.
Qed.

Lemma drawPlanet_calm (px py : R) (def : RenderingFull.PlanetDef.t) :
  relates calm calm (RenderingFull.drawPlanet px py def).
Proof.
  split; [ apply drawPlanet_appends | ].
  intros w h. unfold RenderingFull.drawPlanet. cbv zeta.
  destruct (RenderingFull.PlanetDef.hasRings def);
    cbv [emitted RenderingFull.drawLabel bind emit skip ret calls snd fst
         width height app];
    carry_ops.
Qed.

Lemma drawSpecialPoint_calm (px py : R) (def : RenderingFull.SpecialDef.t) :
  relates calm calm (RenderingFull.drawSpecialPoint px py def).
Proof.
  split; [ apply drawSpecialPoint_appends | ].
  intros w h. unfold RenderingFull.drawSpecialPoint. cbv zeta.
  destruct (RenderingFull.SpecialDef.isNode def);
    cbv [emitted RenderingFull.drawLabel bind emit calls snd fst width height
         app];
    carry_ops.
Qed.

Lemma basic_draw4PointStar_calm (px py size : R) (color : string) :
  relates calm calm (RenderingBasic.draw4PointStar px py size color).
Proof.
  split; [ apply basic_draw4PointStar_appends | ].
  intros w h.
  cbv [emitted RenderingBasic.draw4PointStar bind emit forEach skip ret
       Z.eqb calls snd fst width height app].
  carry_ops.
Qed.

End LeafFacts.

(** ** Saved and restored: what [scoped] means on the context *)

Section ScopeSoundness.
Import Canvas CanvasState.
Local Open Scope list_scope.

Lemma after_cons (op : Op) (rest : list Op) (s : State) :
  after (op :: rest) s = after rest (snd (step op s)).
Proof.
  unfold after. cbn [run]. destruct (step op s) as [p s1]. cbn [snd].
  destruct (run rest s1) as [q s2]. reflexivity.
Qed.

Lemma base_indep (d : nat) (saved0 : list Drawing) (a b : Drawing) :
  (d < List.length saved0)%nat -> nth d saved0 a = nth d saved0 b.
Proof. intro H. now apply nth_indep. Qed.

(** An operation that keeps the stack, and the surroundings of the current
    state when it is the base. *)
Lemma step_keeps_base (op : Op) (s : State) (d : nat) :
  saved (snd (step op s)) = saved s ->
  (d = O -> surroundings (drawing (snd (step op s)))
            = surroundings (drawing s)) ->
  (d <= List.length (saved s))%nat ->
  surroundings (base d (snd (step op s))) = surroundings (base d s).
Proof.
  intros Hs H0 Hd. destruct d as [ | d0]; cbn [base].
  - now apply H0.
  - rewrite Hs. f_equal. apply base_indep. lia.
Qed.

Lemma scoped_sound (ops : list Op) :
  forall (d d' : nat) (s : State),
    scoped d ops = Some d' -> (d <= List.length (saved s))%nat ->
    (d' <= List.length (saved (after ops s)))%nat
    /\ skipn d' (saved (after ops s)) = skipn d (saved s)
    /\ surroundings (base d' (after ops s)) = surroundings (base d s).
Proof.
  induction ops as [ | op rest IH]; intros d d' s H Hd.
  - cbn [scoped] in H. injection H as <-. unfold after. cbn [run snd]. auto.
  - rewrite after_cons.
    assert (keep : scoped d rest = Some d' ->
                   saved (snd (step op s)) = saved s ->
                   (d = O -> surroundings (drawing (snd (step op s)))
                             = surroundings (drawing s)) ->
                   (d' <= List.length (saved (after rest (snd (step op s)))))%nat
                   /\ skipn d' (saved (after rest (snd (step op s))))
                      = skipn d (saved s)
                   /\ surroundings (base d' (after rest (snd (step op s))))
                      = surroundings (base d s)).
    { intros Hr Hs H0.
      destruct (IH d d' (snd (step op s)) Hr) as (H1 & H2 & H3);
        [ rewrite Hs; exact Hd | ].
      rewrite Hs in H2.
      rewrite (step_keeps_base op s d Hs H0 Hd) in H3. auto. }
    destruct op; cbn [scoped] in H;
      try (apply keep; [ exact H | reflexivity | intros _; reflexivity ]).
    + (* save *)
      destruct (IH (S d) d' (snd (step Save s)) H) as (H1 & H2 & H3);
        [ cbn; lia | ].
      split; [ exact H1 | ]. split; [ exact H2 | ].
      rewrite H3. cbn [step snd base saved drawing].
      destruct d as [ | d0]; reflexivity.
    + (* restore *)
      destruct d as [ | d0]; [ discriminate | ].
      destruct (saved s) as [ | top below] eqn:Es; [ cbn in Hd; lia | ].
      assert (E : snd (step Restore s) = mkState top (path s) below)
        by (cbn [step]; rewrite Es; reflexivity).
      rewrite E.
      destruct (IH d0 d' (mkState top (path s) below) H) as (H1 & H2 & H3);
        [ cbn in *; lia | ].
      split; [ exact H1 | ]. split; [ exact H2 | ].
      rewrite H3. cbn [base saved drawing]. rewrite Es.
      destruct d0 as [ | d1]; cbn [nth]; [ reflexivity | ].
      f_equal. apply base_indep. cbn in Hd. lia.
    + (* translate *)
      destruct d as [ | d0]; [ discriminate | ].
      apply keep; [ exact H | reflexivity | discriminate ].
    + (* clip *)
      destruct d as [ | d0]; [ discriminate | ].
      apply keep; [ exact H | reflexivity | discriminate ].
    + (* filter *)
      destruct d as [ | d0]; [ discriminate | ].
      apply keep; [ exact H | reflexivity | discriminate ].
    + (* globalAlpha *)
      destruct d as [ | d0]; [ discriminate | ].
      apply keep; [ exact H | reflexivity | discriminate ].
Qed.

(** A trace that [scoped] passes at depth 0 hands the context back with the
    transform, clip, filter and global alpha it was given, and with the same
    saved states. *)
Lemma scoped_restores (ops : list Op) (s : State) :
  scoped O ops = Some O ->
  sameSurroundings s (after ops s) /\ saved (after ops s) = saved s.
Proof.
  intro H. destruct (scoped_sound ops O O s H (Nat.le_0_l _)) as (_ & H2 & H3).
  split; [ symmetry; exact H3 | exact H2 ].
Qed.

End ScopeSoundness.

(** ** The layers, on related contexts *)

Section LayerFacts.
Import JsMath Canvas CanvasState.
Local Open Scope R_scope.
Local Open Scope list_scope.

Lemma emitted_canvasWidth (k : R -> Draw unit) (w h : R) :
  emitted (bind canvasWidth k) w h = emitted (k w) w h.
Proof. reflexivity. Qed.

Lemma emitted_canvasHeight (k : R -> Draw unit) (w h : R) :
  emitted (bind canvasHeight k) w h = emitted (k h) w h.
Proof. reflexivity. Qed.

(** A line: [beginPath], the vertices, [stroke]. *)
Lemma lineLoop_onPath (cx cy scale sunRA : R) (line : list (R * R)) :
  forall started,
    relates strokeReadyOnPath strokeReadyOnPath
            (RenderingFull.lineLoop cx cy scale sunRA started line).
Proof.
  induction line as [ | [ra dec] rest IH]; intro started;
    cbn [RenderingFull.lineLoop].
  - apply relates_skip.
  - destruct (RenderingFull.project ra dec sunRA) as [p | ]; [ | apply IH ].
    cbv zeta.
    apply (relates_seq strokeReadyOnPath strokeReadyOnPath strokeReadyOnPath);
      [ | apply IH ].
    destruct (negb started); apply relates_emit; carry_ops.
Qed.

Lemma basic_lineLoop_onPath (cx cy scale sunRA fov : R)
  (line : list (R * R)) :
  forall started,
    relates strokeReadyOnPath strokeReadyOnPath
            (RenderingBasic.lineLoop cx cy scale sunRA fov started line).
Proof.
  induction line as [ | [ra dec] rest IH]; intro started;
    cbn [RenderingBasic.lineLoop].
  - apply relates_skip.
  - destruct (RenderingBasic.project ra dec sunRA fov) as [p | ];
      [ | apply IH ].
    cbv zeta.
    apply (relates_seq strokeReadyOnPath strokeReadyOnPath strokeReadyOnPath);
      [ | apply IH ].
    destruct (negb started); apply relates_emit; carry_ops.
Qed.

Lemma stroked_line (loop : Draw unit) :
  relates strokeReadyOnPath strokeReadyOnPath loop ->
  relates strokeReady strokeReady
          (bind (emit BeginPath) (fun _ => bind loop (fun _ => emit Stroke))).
Proof.
  intro H.
  apply (relates_seq strokeReady strokeReadyOnPath strokeReady);
    [ apply relates_emit; carry_ops | ].
  apply (relates_seq strokeReadyOnPath strokeReadyOnPath strokeReady);
    [ exact H | apply relates_emit; carry_ops ].
Qed.

(** One constellation: the four assignments set the stroke up, whatever the
    context held, and the lines are stroked with it. *)
Lemma constellation_strokes (style : Style) (width blur : R) (color : Css)
  (lines : Draw unit) :
  relates strokeReady strokeReady lines ->
  relates sameSurroundings sameSurroundings
    (bind (emit (SetStrokeStyle style)) (fun _ =>
     bind (emit (SetLineWidth width)) (fun _ =>
     bind (emit (SetShadowBlur blur)) (fun _ =>
     bind (emit (SetShadowColor color)) (fun _ => lines))))).
Proof.
  intros [Ha H]. split; [ appends_auto; exact Ha | ].
  intros w h.
  rewrite !emitted_seq by (appends_auto; exact Ha).
  rewrite !emitted_emit.
  change ([SetStrokeStyle style] ++ [SetLineWidth width]
          ++ [SetShadowBlur blur] ++ [SetShadowColor color]
          ++ emitted lines w h)
    with ([SetStrokeStyle style; SetLineWidth width; SetShadowBlur blur;
           SetShadowColor color] ++ emitted lines w h).
  apply (carries_app sameSurroundings strokeReady sameSurroundings).
  - carry_ops.
  - apply (carries_weaken strokeReady strokeReady strokeReady sameSurroundings);
      [ auto | apply strokeReady_sameSurroundings | apply H ].
Qed.

Lemma ends_calm :
  relates sameSurroundings calm (emit (SetShadowBlur 0)).
Proof. apply relates_emit. carry_ops. Qed.

Lemma constellationLayer_calm (cx cy scale : R) (opts : RenderingFull.Opts) :
  relates sameSurroundings calm
          (RenderingFull.constellationLayer cx cy scale opts).
Proof.
  unfold RenderingFull.constellationLayer.
  apply (relates_seq sameSurroundings sameSurroundings calm);
    [ | apply ends_calm ].
  apply relates_forEach. intro c. cbv zeta.
  apply constellation_strokes.
  apply relates_forEach. intro line.
  apply stroked_line, lineLoop_onPath.
Qed.

Lemma earthLayer_calm (w h : R) (opts : RenderingFull.Opts) :
  relates calm calm (RenderingFull.earthLayer w h opts).
Proof.
  unfold RenderingFull.earthLayer.
  destruct (RenderingFull.altitude opts);
    [ apply drawEarth_calm | apply relates_skip ].
Qed.

Lemma starLayer_calm (cx cy scale : R) (opts : RenderingFull.Opts) :
  relates calm calm (RenderingFull.starLayer cx cy scale opts).
Proof.
  unfold RenderingFull.starLayer.
  apply relates_forEach. intro s.
  destruct (RenderingFull.project _ _ _);
    [ apply drawStarShape4_calm | apply relates_skip ].
Qed.

Lemma planetLayer_calm (cx cy scale : R) (opts : RenderingFull.Opts) :
  relates calm calm (RenderingFull.planetLayer cx cy scale opts).
Proof.
  unfold RenderingFull.planetLayer.
  destruct (RenderingFull.planets opts) as [entries | ];
    [ | apply relates_skip ].
  apply relates_forEach. intros [id pos].
  destruct (RenderingFull.lookup id RenderingFull.PLANETS) as [def | ];
    [ | apply relates_skip ].
  destruct pos as [pos | ]; [ | apply relates_skip ].
  destruct (RenderingFull.project _ _ _);
    [ apply drawPlanet_calm | apply relates_skip ].
Qed.

Lemma specialsMoon_calm (cx cy scale sunRA : R)
  (sp : RenderingFull.Specials.t) :
  relates calm calm (RenderingFull.specialsMoon cx cy scale sunRA sp).
Proof.
  unfold RenderingFull.specialsMoon.
  destruct (RenderingFull.Specials.moon sp) as [m | ];
    [ | apply relates_skip ].
  destruct (RenderingFull.project _ _ _);
    [ apply drawMoon_calm | apply relates_skip ].
Qed.

Lemma specialsPoints_calm (cx cy scale sunRA : R)
  (sp : RenderingFull.Specials.t) :
  relates calm calm (RenderingFull.specialsPoints cx cy scale sunRA sp).
Proof.
  unfold RenderingFull.specialsPoints.
  apply relates_forEach. intro key.
  destruct (RenderingFull.Specials.get sp key) as [pos | ];
    [ | apply relates_skip ].
  destruct (RenderingFull.project _ _ _); [ | apply relates_skip ].
  destruct (RenderingFull.lookup key RenderingFull.SPECIALS);
    [ apply drawSpecialPoint_calm | apply relates_skip ].
Qed.

Lemma specialsLayer_calm (cx cy scale : R) (opts : RenderingFull.Opts) :
  relates calm calm (RenderingFull.specialsLayer cx cy scale opts).
Proof.
  unfold RenderingFull.specialsLayer.
  destruct (RenderingFull.specials opts) as [sp | ];
    [ | apply relates_skip ].
  apply (relates_seq calm calm calm);
    [ apply specialsMoon_calm | apply specialsPoints_calm ].
Qed.

Lemma sunLayer_calm (cx cy scale : R) (opts : RenderingFull.Opts) :
  relates calm calm (RenderingFull.sunLayer cx cy scale opts).
Proof.
  unfold RenderingFull.sunLayer.
  destruct (RenderingFull.project _ _ _);
    [ apply drawSun_calm | apply relates_skip ].
Qed.

(** From the stars on, the frame of unnamed/part_000 casts no shadow it
    has not set itself. *)
Lemma upper_layers_calm (cx cy scale : R) (opts : RenderingFull.Opts) :
  relates calm calm
    (bind (RenderingFull.starLayer cx cy scale opts) (fun _ =>
     bind (RenderingFull.planetLayer cx cy scale opts) (fun _ =>
     bind (RenderingFull.specialsLayer cx cy scale opts) (fun _ =>
     RenderingFull.sunLayer cx cy scale opts)))).
Proof.
  apply (relates_seq calm calm calm); [ apply starLayer_calm | ].
  apply (relates_seq calm calm calm); [ apply planetLayer_calm | ].
  apply (relates_seq calm calm calm);
    [ apply specialsLayer_calm | apply sunLayer_calm ].
Qed.

(** The frame of unnamed/part_000 in three parts: up to the horizon, the
    constellation lines, and the rest. *)
Lemma full_frame_parts (dpr : R) (opts : RenderingFull.Opts) (cw ch : R) :
  let w := cw / js_or dpr 1 in
  let h := ch / js_or dpr 1 in
  let cx := w / 2 in
  let cy := h / 2 in
  let scale := Rmin w h * 0.45 in
  emitted (RenderingFull.drawStarMap dpr opts) cw ch
  = emitted (bind (emit (ClearRect 0 0 w h)) (fun _ =>
             RenderingFull.earthLayer w h opts)) cw ch
    ++ emitted (RenderingFull.constellationLayer cx cy scale opts) cw ch
    ++ emitted
         (bind (RenderingFull.starLayer cx cy scale opts) (fun _ =>
          bind (RenderingFull.planetLayer cx cy scale opts) (fun _ =>
          bind (RenderingFull.specialsLayer cx cy scale opts) (fun _ =>
          RenderingFull.sunLayer cx cy scale opts)))) cw ch.
Proof.
  intros w h cx cy scale.
  pose proof (earthLayer_appends w h opts) as He.
  pose proof (constellationLayer_appends cx cy scale opts) as Hc.
  pose proof (starLayer_appends cx cy scale opts) as Hs.
  pose proof (planetLayer_appends cx cy scale opts) as Hp.
  pose proof (specialsLayer_appends cx cy scale opts) as Hx.
  pose proof (sunLayer_appends cx cy scale opts) as Hsun.
  change (emitted (RenderingFull.drawStarMap dpr opts) cw ch)
    with (emitted
            (bind (emit (ClearRect 0 0 w h)) (fun _ =>
             bind (RenderingFull.earthLayer w h opts) (fun _ =>
             bind (RenderingFull.constellationLayer cx cy scale opts)
                  (fun _ =>
             bind (RenderingFull.starLayer cx cy scale opts) (fun _ =>
             bind (RenderingFull.planetLayer cx cy scale opts) (fun _ =>
             bind (RenderingFull.specialsLayer cx cy scale opts) (fun _ =>
             RenderingFull.sunLayer cx cy scale opts)))))))
            cw ch).
  rewrite (emitted_seq (emit _)) by (appends_auto; assumption).
  rewrite (emitted_seq (RenderingFull.earthLayer _ _ _))
    by (appends_auto; assumption).
  rewrite (emitted_seq (RenderingFull.constellationLayer _ _ _ _))
    by (appends_auto; assumption).
  rewrite (emitted_seq (emit _) (RenderingFull.earthLayer _ _ _))
    by (appends_auto; assumption).
  now rewrite <- app_assoc.
Qed.

Lemma clear_and_horizon_calm (w h : R) (opts : RenderingFull.Opts) :
  relates calm calm
    (bind (emit (ClearRect 0 0 w h)) (fun _ =>
     RenderingFull.earthLayer w h opts)).
Proof.
  apply (relates_seq calm calm calm); [ | apply earthLayer_calm ].
  apply relates_emit. carry_ops.
Qed.

(** The frame of unnamed/part_000 paints the same from any two contexts in
    the same surroundings that cast no shadow, and leaves them so. *)
Lemma full_frame_calm (dpr : R) (opts : RenderingFull.Opts) (cw ch : R) :
  carries calm calm (emitted (RenderingFull.drawStarMap dpr opts) cw ch).
Proof.
  rewrite full_frame_parts.
  apply (carries_app calm calm calm);
    [ apply clear_and_horizon_calm | ].
  apply (carries_app calm calm calm); [ | apply upper_layers_calm ].
  apply (carries_weaken sameSurroundings calm calm calm);
    [ apply calm_sameSurroundings | auto | apply constellationLayer_calm ].
Qed.

(** Whatever the context held, the frame of unnamed/part_000 leaves it
    casting no shadow. *)
Lemma full_frame_ends_calm (dpr : R) (opts : RenderingFull.Opts) (cw ch : R)
  (s : State) :
  shadowBlur
    (drawing (after (emitted (RenderingFull.drawStarMap dpr opts) cw ch) s))
  = 0.
Proof.
  rewrite full_frame_parts, !after_app.
  match goal with
  | |- context [after (emitted (RenderingFull.constellationLayer ?cx ?cy ?sc _)
                               _ _) ?x] =>
      destruct (proj2 (constellationLayer_calm cx cy sc opts) cw ch x x
                  eq_refl) as [_ Hc];
      destruct (proj2 (upper_layers_calm cx cy sc opts) cw ch _ _ Hc)
        as [_ (_ & Hz & _)]
  end.
  exact Hz.
Qed.

End LayerFacts.

(** ** The frame of src/src/rendering.js, on related contexts *)

Section BasicFrameFacts.
Import JsMath Canvas CanvasState.
Local Open Scope R_scope.
Local Open Scope list_scope.

Lemma basic_frame_relates (opts : RenderingBasic.Opts) (fov w h : R) :
  let cx := w / 2 in
  let cy := h / 2 in
  let scale := Rmin w h * 0.45 in
  relates sameSurroundings calm
    (bind (emit (ClearRect 0 0 w h)) (fun _ =>
     bind (forEach (RenderingBasic.constellations opts) (fun c =>
       let isActive :=
         String.eqb (Constellation.id c) (RenderingBasic.activeConstId opts) in
       bind (emit (SetStrokeStyle
                     (Color (Lit (if isActive
                                  then "rgba(212, 175, 55, 0.85)"
                                  else "rgba(212, 175, 55, 0.2)")))))
            (fun _ =>
       bind (emit (SetLineWidth (if isActive then 1.8 else 1.0))) (fun _ =>
       bind (emit (SetShadowBlur (if isActive then 10 else 0))) (fun _ =>
       bind (emit (SetShadowColor (Lit "rgba(212, 175, 55, 0.6)"))) (fun _ =>
       forEach (Constellation.lines c) (fun line =>
         bind (emit BeginPath) (fun _ =>
         bind (RenderingBasic.lineLoop cx cy scale
                 (RenderingBasic.sunRA opts) fov false line) (fun _ =>
         emit Stroke))))))))) (fun _ =>
     bind (emit (SetShadowBlur 0)) (fun _ =>
     bind (forEach (RenderingBasic.stars opts) (fun s =>
       match RenderingBasic.project (Star.ra s) (Star.dec s)
               (RenderingBasic.sunRA opts) fov with
       | None => skip
       | Some p =>
           let px := cx + Point.x p * scale in
           let py := cy + Point.y p * scale in
           let r := RenderingBasic.starRadius (Star.mag s) in
           RenderingBasic.draw4PointStar px py r
             (RenderingBasic.starColor (Star.bv s))
       end)) (fun _ =>
     match RenderingBasic.project (RenderingBasic.sunRA opts)
             (RenderingBasic.sunDec opts) (RenderingBasic.sunRA opts) fov with
     | None => skip
     | Some sunP =>
         let sx := cx + Point.x sunP * scale in
         let sy := cy + Point.y sunP * scale in
         bind (emit Save) (fun _ =>
         bind (emit (SetShadowBlur 40)) (fun _ =>
         bind (emit (SetShadowColor (Lit "rgba(251, 191, 36, 0.8)"))) (fun _ =>
         bind (emit (SetFillStyle (Color (Lit "rgba(251, 191, 36, 1)"))))
              (fun _ =>
         bind (emit BeginPath) (fun _ =>
         bind (emit (Arc sx sy 6 0 (PI * 2) false)) (fun _ =>
         bind (emit Fill) (fun _ =>
         bind (emit Restore) (fun _ =>
         bind (emit (SetFillStyle (Color (Lit "#fff")))) (fun _ =>
         bind (emit BeginPath) (fun _ =>
         bind (emit (Arc sx sy 3 0 (PI * 2) false)) (fun _ =>
         emit Fill)))))))))))
     end))))).
Proof.
  intros cx cy scale.
  apply (relates_seq sameSurroundings sameSurroundings calm);
    [ apply relates_emit; carry_ops | ].
  apply (relates_seq sameSurroundings sameSurroundings calm).
  { apply relates_forEach. intro c. cbv zeta.
    apply constellation_strokes.
    apply relates_forEach. intro line.
    apply stroked_line, basic_lineLoop_onPath. }
  apply (relates_seq sameSurroundings calm calm); [ apply ends_calm | ].
  apply (relates_seq calm calm calm).
  { apply relates_forEach. intro s.
    destruct (RenderingBasic.project _ _ _ _);
      [ apply basic_draw4PointStar_calm | apply relates_skip ]. }
  destruct (RenderingBasic.project _ _ _ _) as [sunP | ];
    [ | apply relates_skip ].
  cbv zeta. split; [ appends_auto | ].
  intros cw ch.
  cbv [emitted bind emit calls snd fst width height app].
  carry_ops.
Qed.

(** The frame of src/src/rendering.js paints the same from any two contexts
    in the same surroundings, and leaves them casting no shadow. *)
Lemma basic_frame_calm (opts : RenderingBasic.Opts) (cw ch : R) :
  carries sameSurroundings calm
          (emitted (RenderingBasic.drawStarMap opts) cw ch).
Proof.
  exact (proj2 (basic_frame_relates opts
                  (match RenderingBasic.fov opts with
                   | Some f => f
                   | None => 180
                   end) cw ch) cw ch).
Qed.

End BasicFrameFacts.

(** ** Frames in sequence *)

Section FrameClaims.
Import JsMath Canvas CanvasState ProjectionSpec.
Local Open Scope string_scope.
Local Open Scope R_scope.
Local Open Scope list_scope.

Lemma full_frame_restores (dpr : R) (opts : RenderingFull.Opts) (cw ch : R)
  (s : State) :
  let frame := emitted (RenderingFull.drawStarMap dpr opts) cw ch in
  sameSurroundings s (after frame s) /\ saved (after frame s) = saved s.
Proof.
  cbv zeta. apply scoped_restores.
  apply (proj2 (drawStarMap_scoped dpr opts)).
Qed.

Lemma basic_frame_restores (opts : RenderingBasic.Opts) (cw ch : R)
  (s : State) :
  let frame := emitted (RenderingBasic.drawStarMap opts) cw ch in
  sameSurroundings s (after frame s) /\ saved (after frame s) = saved s.
Proof.
  cbv zeta. apply scoped_restores.
  apply (proj2 (basic_drawStarMap_scoped opts)).
Qed.

Lemma calm_refl (s : State) : shadowBlur (drawing s) = 0 -> calm s s.
Proof. intro H. repeat split; assumption. Qed.

(** After a frame of unnamed/part_000 the context is where it was, without
    a shadow. *)
Lemma full_frame_settles (dpr : R) (opts : RenderingFull.Opts) (cw ch : R)
  (s : State) :
  let frame := emitted (RenderingFull.drawStarMap dpr opts) cw ch in
  shadowBlur (drawing s) = 0 -> calm s (after frame s).
Proof.
  cbv zeta. intro H. split; [ apply full_frame_restores | ].
  split; [ exact H | apply full_frame_ends_calm ].
Qed.



End FrameClaims.

(** ** What a frame hands back, and what it takes over *)

Section HandBackFacts.
Import JsMath Canvas CanvasState ProjectionSpec.
Local Open Scope string_scope.
Local Open Scope R_scope.
Local Open Scope list_scope.

Lemma leaves_bind {A B : Type} (Q : State -> Prop) (m : Draw A)
  (k : A -> Draw B) :
  appends m -> (forall a, leaves Q (k a)) -> leaves Q (bind m k).
Proof.
  intros Hm Hk. split.
  - apply appends_bind; [ exact Hm | intro a; apply Hk ].
  - intros w h s. unfold bind. rewrite (Hm w h []). cbn [app].
    destruct (Hk (fst (m (mkCtx w h [])))) as [Ha Sa].
    rewrite (Ha w h (calls _)). cbn [snd calls].
    rewrite after_app. apply Sa.
Qed.

(** With a declination between -90 and 90 the Sun is never behind the
    sphere. *)
Lemma sun_in_front (sunRA sunDec : R) :
  -90 <= sunDec <= 90 ->
  exists p, projectClosed sunRA sunDec sunRA = Some p.
Proof.
  intro Hd. pose proof (toRad_quarter _ Hd) as [Hq1 Hq2].
  pose proof (cos_ge_0 _ Hq1 Hq2) as Hc.
  unfold projectClosed, cosDistOf.
  replace (sunRA - sunRA) with 0 by lra.
  rewrite toRad_0, cos_0, Rmult_1_r.
  destruct (Rlt_dec _ _) as [Hlt | _]; [ lra | ].
  eexists. reflexivity.
Qed.

Lemma drawSun_leaves_fill (px py : R) :
  leaves (fun s => fillStyle (drawing s) = Color (Lit "#fbbf24"))
         (RenderingFull.drawSun px py).
Proof.
  split; [ apply drawSun_appends | ].
  intros w h [[? ? ? ? ? ? ? ? ? ? ?] ? ?].
  cbv [emitted RenderingFull.drawSun bind emit calls snd fst width height
       app].
  run_ops. reflexivity.
Qed.

Ltac to_the_last :=
  repeat match goal with
         | |- leaves _ (Canvas.bind _ _) =>
             apply leaves_bind; [ appends_auto | intro ]
         end.

Lemma full_frame_leaves_fill (dpr : R) (opts : RenderingFull.Opts) :
  -90 <= RenderingFull.sunDec opts <= 90 ->
  leaves (fun s => fillStyle (drawing s) = Color (Lit "#fbbf24"))
         (RenderingFull.drawStarMap dpr opts).
Proof.
  intro Hd.
  pose proof earthLayer_appends. pose proof constellationLayer_appends.
  pose proof starLayer_appends. pose proof planetLayer_appends.
  pose proof specialsLayer_appends.
  unfold RenderingFull.drawStarMap. cbv zeta. to_the_last.
  unfold RenderingFull.sunLayer.
  destruct (sun_in_front (RenderingFull.sunRA opts) _ Hd) as [p Hp].
  rewrite project_full_closed, Hp. apply drawSun_leaves_fill.
Qed.

Lemma basic_frame_leaves_fill (opts : RenderingBasic.Opts) :
  -90 <= RenderingBasic.sunDec opts <= 90 ->
  leaves (fun s => fillStyle (drawing s) = Color (Lit "#fff"))
         (RenderingBasic.drawStarMap opts).
Proof.
  intro Hd.
  pose proof basic_draw4PointStar_appends.
  pose proof basic_lineLoop_appends.
  unfold RenderingBasic.drawStarMap. cbv zeta. to_the_last.
  destruct (sun_in_front (RenderingBasic.sunRA opts) _ Hd) as [p Hp].
  rewrite project_basic_closed, Hp.
  split; [ appends_auto | ].
  intros w h [[? ? ? ? ? ? ? ? ? ? ?] ? ?].
  cbv [emitted bind emit calls snd fst width height app].
  run_ops. reflexivity.
Qed.

(** X17. What a frame hands back.  In the operations of every frame of
    either revision each [restore] undoes a [save] of the same frame, and
    every change to the transform, the clip, the filter or the global alpha
    is made between a [save] and its [restore]; so the context comes back
    with the transform, clip, filter, global alpha and saved states it was
    given, and with a shadow blur of 0.  The other properties are not
    restored: whatever the fill style was, after a frame it is the colour of
    the Sun's disk. *)
Theorem X17_frame_hands_back :
  (forall dpr opts cw ch (s : State),
      let frame := emitted (RenderingFull.drawStarMap dpr opts) cw ch in
      (forall d : nat, scoped d frame = Some d)
      /\ sameSurroundings s (after frame s)
      /\ saved (after frame s) = saved s
      /\ shadowBlur (drawing (after frame s)) = 0
      /\ (-90 <= RenderingFull.sunDec opts <= 90 ->
          fillStyle (drawing (after frame s)) = Color (Lit "#fbbf24")))
  /\ (forall opts cw ch (s : State),
        let frame := emitted (RenderingBasic.drawStarMap opts) cw ch in
        (forall d : nat, scoped d frame = Some d)
        /\ sameSurroundings s (after frame s)
        /\ saved (after frame s) = saved s
        /\ shadowBlur (drawing (after frame s)) = 0
        /\ (-90 <= RenderingBasic.sunDec opts <= 90 ->
            fillStyle (drawing (after frame s)) = Color (Lit "#fff"))).
Proof.
  split.
  - intros dpr opts cw ch s. cbv zeta.
    destruct (full_frame_restores dpr opts cw ch s) as [H1 H2].
    split; [ intro d; apply (proj2 (drawStarMap_scoped dpr opts)) | ].
    split; [ exact H1 | ]. split; [ exact H2 | ].
    split; [ apply full_frame_ends_calm | ].
    intro Hd. apply (proj2 (full_frame_leaves_fill dpr opts Hd) cw ch s).
  - intros opts cw ch s. cbv zeta.
    destruct (basic_frame_restores opts cw ch s) as [H1 H2].
    split; [ intro d; apply (proj2 (basic_drawStarMap_scoped opts)) | ].
    split; [ exact H1 | ]. split; [ exact H2 | ].
    split.
    + destruct (basic_frame_calm opts cw ch s s eq_refl)
        as [_ (_ & H3 & _)].
      exact H3.
    + intro Hd. apply (proj2 (basic_frame_leaves_fill opts Hd) cw ch s).
Qed.

Lemma X17_frame_hands_back_witness :
  fillStyle
    (drawing
       (after (emitted (RenderingFull.drawStarMap 2 RenderingFull.horizonScene)
                       1600 1200)
              freshContext))
  = Color (Lit "#fbbf24").
Proof.
  destruct (proj1 X17_frame_hands_back 2 RenderingFull.horizonScene 1600 1200
              freshContext) as (_ & _ & _ & _ & H).
  apply H. cbn. lra.
Defined.

(** Without a horizon to draw, the frame of unnamed/part_000 paints the
    same from any two contexts in the same surroundings. *)
Lemma full_frame_without_horizon (dpr : R) (opts : RenderingFull.Opts)
  (cw ch : R) :
  RenderingFull.altitude opts = None ->
  carries sameSurroundings calm
          (emitted (RenderingFull.drawStarMap dpr opts) cw ch).
Proof.
  intro Ha. rewrite full_frame_parts.
  apply (carries_app sameSurroundings sameSurroundings calm).
  - apply (relates_seq sameSurroundings sameSurroundings sameSurroundings).
    + apply relates_emit. carry_ops.
    + unfold RenderingFull.earthLayer. rewrite Ha. apply relates_skip.
  - apply (carries_app sameSurroundings calm calm);
      [ apply constellationLayer_calm | apply upper_layers_calm ].
Qed.



End HandBackFacts.
